(** * QJson: a shallow embedding of [src/qjson.hpp]

    The header defines a tree of [JsonData] blocks kept behind
    [std::shared_ptr]s (wrapped in [ov_shared_ptr]) and the class [Json],
    whose constructor reads a file in chunks of [buffer_size_] characters and
    feeds them, character by character, to [processJson].

    Modelling decisions.
    - The free store is explicit: a [heap] is the list of the [JsonData]
      objects created by [std::make_shared], in allocation order; a
      [shared_ptr<JsonData>] is [Some a] (the object at index [a]) or [None]
      ([nullptr]).  Pointer equality is equality of addresses.
    - The two containers of a block ([object_data_], [array_data_]) are
      themselves nullable pointers: [None] is the null pointer the block starts
      with, [Some c] an allocated container.  Calling a member through a null
      pointer is undefined behaviour in C++; the embedding makes it an outcome
      of its own, [NullDeref], so that it is never confused with a thrown
      exception or with a result.
    - Exceptions are values: [runtime_error what] carries the message the
      source builds; [out_of_range] is what the standard library throws
      ([std::stod], [vector::at]).
    - [std::stod] is library code.  It is modelled by its documented
      behaviour: it converts the longest numeric prefix (after white space and
      an optional sign), throws [std::invalid_argument] when there is none, and
      throws [std::out_of_range] when the C library reports [ERANGE].  Whether
      a text is out of the range of [double] is left to a parameter
      ([erange]) of the development.
    - [parseFile] builds the string it hands to [parseBuffer] from the raw
      buffer as a C string, so the string ends before the first NUL of the
      chunk, while the loop of [parseBuffer] still runs over the [gcount()]
      characters read.  Reading a [std::string] beyond its terminator is
      undefined behaviour, and an outcome of its own, [StringOverrun]. *)

From Stdlib Require Import ZArith Ascii.
From stdpp Require Import gmap strings list fin_maps pretty.


(** ** Outcomes of a C++ call *)

Inductive exn : Type :=
| runtime_error (what : string)
| out_of_range (what : string).

Inductive outcome (A : Type) : Type :=
| Ok (a : A)
| Throw (e : exn)
| NullDeref
| StringOverrun.

Arguments Ok {A} a.
Arguments Throw {A} e.
Arguments NullDeref {A}.
Arguments StringOverrun {A}.

Global Instance outcome_ret : MRet outcome := λ A a, Ok a.
Global Instance outcome_bind : MBind outcome := λ A B f m,
  match m with
  | Ok a => f a
  | Throw e => Throw e
  | NullDeref => NullDeref
  | StringOverrun => StringOverrun
  end.
Global Instance outcome_fmap : FMap outcome := λ A B f m,
  match m with
  | Ok a => Ok (f a)
  | Throw e => Throw e
  | NullDeref => NullDeref
  | StringOverrun => StringOverrun
  end.

Definition throw_runtime {A} (what : string) : outcome A :=
  Throw (runtime_error what).

(** ** The tree: [JsonType], [JsonData], the free store *)

Inductive JsonType : Type := STRING | OBJECT | ARRAY | UNINIT.

Global Instance JsonType_eq_dec : EqDecision JsonType.
Proof. solve_decision. Defined.

(** [ov_shared_ptr<JsonData>]: the address of a block, or [nullptr]. *)
Abbreviation JsonDataPtr := (option nat).
Abbreviation JsonArray := (list (option nat)).
Abbreviation JsonObject := (gmap string (option nat)).

Record JsonData : Type := mkJsonData {
  key_ : string;
  type_ : JsonType;
  string_data_ : string;
  object_data_ : option JsonObject;
  array_data_ : option JsonArray
}.

(** A default-constructed block: [type_ = UNINIT], both containers null. *)
Definition JsonData_default : JsonData :=
  mkJsonData "" UNINIT "" None None.

Abbreviation heap := (list JsonData).

(** [make_shared<JsonData>()]: the new block gets the next address. *)
Definition make_shared (h : heap) : nat * heap :=
  (length h, h ++ [JsonData_default]).

(** [p->...]: the block a pointer designates. *)
Definition deref (h : heap) (p : JsonDataPtr) : outcome JsonData :=
  match p with
  | None => NullDeref
  | Some a => match h !! a with
              | Some d => Ok d
              | None => NullDeref
              end
  end.

Definition set_type (t : JsonType) (d : JsonData) : JsonData :=
  mkJsonData (key_ d) t (string_data_ d) (object_data_ d) (array_data_ d).
Definition set_string_data (s : string) (d : JsonData) : JsonData :=
  mkJsonData (key_ d) (type_ d) s (object_data_ d) (array_data_ d).
Definition set_object_data (o : option JsonObject) (d : JsonData) : JsonData :=
  mkJsonData (key_ d) (type_ d) (string_data_ d) o (array_data_ d).
Definition set_array_data (a : option JsonArray) (d : JsonData) : JsonData :=
  mkJsonData (key_ d) (type_ d) (string_data_ d) (object_data_ d) a.

(** [unordered_map::insert]: the element is inserted only when the key is not
    yet present. *)
Definition map_insert (key : string) (v : JsonDataPtr) (m : JsonObject)
  : JsonObject :=
  match m !! key with
  | Some _ => m
  | None => <[key := v]> m
  end.

(** [vector::erase(begin() + index)]. *)
Definition vector_erase {A} (index : nat) (l : list A) : list A :=
  take index l ++ drop (S index) l.

(** ** Characters *)

Open Scope char_scope.

Definition dquote : ascii := "034".
Definition ch_eq (a b : ascii) : bool := Ascii.eqb a b.

Definition isClosingBracket (c : ascii) : bool := ch_eq c "}" || ch_eq c "]".
Definition isOpeningBracket (c : ascii) : bool := ch_eq c "{" || ch_eq c "[".
Definition isValidBracket (c : ascii) : bool :=
  isOpeningBracket c || isClosingBracket c.

Definition sameBracketType (c1 c2 : ascii) : bool :=
  let c1_square := ch_eq c1 "[" || ch_eq c1 "]" in
  let c2_square := ch_eq c2 "[" || ch_eq c2 "]" in
  Bool.eqb c1_square c2_square.

Definition isdigit (c : ascii) : bool :=
  (48 <=? nat_of_ascii c)%nat && (nat_of_ascii c <=? 57)%nat.

Definition isNumberPart (c : ascii) : bool :=
  isdigit c || ch_eq c "." || ch_eq c "-" || ch_eq c "e".

Definition isBoolPart (c : ascii) : bool :=
  ch_eq c "t" || ch_eq c "r" || ch_eq c "u" || ch_eq c "e"
  || ch_eq c "f" || ch_eq c "a" || ch_eq c "l" || ch_eq c "s".

Definition isValidBool (boolean : string) : bool :=
  String.eqb boolean "true" || String.eqb boolean "false".

(** The white space [processJson] skips. *)
Definition isBlank (c : ascii) : bool :=
  ch_eq c " " || ch_eq c "010" || ch_eq c "009" || ch_eq c "013".

(** ** [std::stod], as far as [isValidNumber] observes it *)

(** [isspace] in the C locale. *)
Definition isspace (c : ascii) : bool :=
  ch_eq c " " || ch_eq c "009" || ch_eq c "010" || ch_eq c "011"
  || ch_eq c "012" || ch_eq c "013".

Fixpoint skip_space (s : string) : string :=
  match s with
  | String c r => if isspace c then skip_space r else s
  | EmptyString => s
  end.

Definition skip_sign (s : string) : string :=
  match s with
  | String c r => if ch_eq c "+" || ch_eq c "-" then r else s
  | EmptyString => s
  end.

(** Upper-case letters compare as their lower-case counterparts. *)
Definition tolower (c : ascii) : ascii :=
  let n := nat_of_ascii c in
  if (65 <=? n)%nat && (n <=? 90)%nat then ascii_of_nat (n + 32) else c.

Fixpoint prefix_nocase (p s : string) : bool :=
  match p, s with
  | EmptyString, _ => true
  | String a p', String b s' => ch_eq a (tolower b) && prefix_nocase p' s'
  | String _ _, EmptyString => false
  end.

(** [strtod] performs a conversion exactly when the subject sequence is not
    empty: after white space and an optional sign the text starts with a
    digit (decimal or the [0] of a hexadecimal form), with a point followed
    by a digit, or with [inf] / [nan] in any case. *)
Definition strtod_converts (s : string) : bool :=
  let s := skip_sign (skip_space s) in
  match s with
  | String c r =>
      isdigit c
      || (ch_eq c "." && match r with
                         | String d _ => isdigit d
                         | EmptyString => false
                         end)
      || prefix_nocase "inf" s
      || prefix_nocase "nan" s
  | EmptyString => false
  end.

Inductive stod_result : Type :=
| stod_value
| stod_invalid_argument
| stod_out_of_range.

Definition stod (erange : string → bool) (s : string) : stod_result :=
  if negb (strtod_converts s) then stod_invalid_argument
  else if erange s then stod_out_of_range
  else stod_value.

(** [isValidNumber] catches [std::invalid_argument] only. *)
Definition isValidNumber (erange : string → bool) (number : string)
  : outcome bool :=
  match stod erange number with
  | stod_value => Ok true
  | stod_invalid_argument => Ok false
  | stod_out_of_range => Throw (out_of_range "stod")
  end.

Close Scope char_scope.

(** ** The parser: the members of [class Json] and the store it builds *)

Record Json : Type := mkJson {
  last_bracket_ : ascii;
  last_symbol_ : ascii;
  brackets_ : list ascii;          (* std::stack, top first *)
  keys_ : list string;             (* std::stack, top first *)
  working_on_ : list JsonDataPtr;  (* std::stack, top first *)
  currently_working_on_ : JsonDataPtr;
  text_ : string;
  quotes_open : bool;
  processing_key_ : bool;
  processing_bool_ : bool;
  processing_number_ : bool;
  store : heap
}.

Definition with_last_bracket (x : ascii) (j : Json) : Json :=
  mkJson x (last_symbol_ j) (brackets_ j) (keys_ j) (working_on_ j)
    (currently_working_on_ j) (text_ j) (quotes_open j) (processing_key_ j)
    (processing_bool_ j) (processing_number_ j) (store j).
Definition with_last_symbol (x : ascii) (j : Json) : Json :=
  mkJson (last_bracket_ j) x (brackets_ j) (keys_ j) (working_on_ j)
    (currently_working_on_ j) (text_ j) (quotes_open j) (processing_key_ j)
    (processing_bool_ j) (processing_number_ j) (store j).
Definition with_brackets (x : list ascii) (j : Json) : Json :=
  mkJson (last_bracket_ j) (last_symbol_ j) x (keys_ j) (working_on_ j)
    (currently_working_on_ j) (text_ j) (quotes_open j) (processing_key_ j)
    (processing_bool_ j) (processing_number_ j) (store j).
Definition with_keys (x : list string) (j : Json) : Json :=
  mkJson (last_bracket_ j) (last_symbol_ j) (brackets_ j) x (working_on_ j)
    (currently_working_on_ j) (text_ j) (quotes_open j) (processing_key_ j)
    (processing_bool_ j) (processing_number_ j) (store j).
Definition with_working_on (x : list JsonDataPtr) (j : Json) : Json :=
  mkJson (last_bracket_ j) (last_symbol_ j) (brackets_ j) (keys_ j) x
    (currently_working_on_ j) (text_ j) (quotes_open j) (processing_key_ j)
    (processing_bool_ j) (processing_number_ j) (store j).
Definition with_current (x : JsonDataPtr) (j : Json) : Json :=
  mkJson (last_bracket_ j) (last_symbol_ j) (brackets_ j) (keys_ j)
    (working_on_ j) x (text_ j) (quotes_open j) (processing_key_ j)
    (processing_bool_ j) (processing_number_ j) (store j).
Definition with_text (x : string) (j : Json) : Json :=
  mkJson (last_bracket_ j) (last_symbol_ j) (brackets_ j) (keys_ j)
    (working_on_ j) (currently_working_on_ j) x (quotes_open j)
    (processing_key_ j) (processing_bool_ j) (processing_number_ j) (store j).
Definition with_quotes_open (x : bool) (j : Json) : Json :=
  mkJson (last_bracket_ j) (last_symbol_ j) (brackets_ j) (keys_ j)
    (working_on_ j) (currently_working_on_ j) (text_ j) x
    (processing_key_ j) (processing_bool_ j) (processing_number_ j) (store j).
Definition with_processing_key (x : bool) (j : Json) : Json :=
  mkJson (last_bracket_ j) (last_symbol_ j) (brackets_ j) (keys_ j)
    (working_on_ j) (currently_working_on_ j) (text_ j) (quotes_open j) x
    (processing_bool_ j) (processing_number_ j) (store j).
Definition with_processing_bool (x : bool) (j : Json) : Json :=
  mkJson (last_bracket_ j) (last_symbol_ j) (brackets_ j) (keys_ j)
    (working_on_ j) (currently_working_on_ j) (text_ j) (quotes_open j)
    (processing_key_ j) x (processing_number_ j) (store j).
Definition with_processing_number (x : bool) (j : Json) : Json :=
  mkJson (last_bracket_ j) (last_symbol_ j) (brackets_ j) (keys_ j)
    (working_on_ j) (currently_working_on_ j) (text_ j) (quotes_open j)
    (processing_key_ j) (processing_bool_ j) x (store j).
Definition with_store (x : heap) (j : Json) : Json :=
  mkJson (last_bracket_ j) (last_symbol_ j) (brackets_ j) (keys_ j)
    (working_on_ j) (currently_working_on_ j) (text_ j) (quotes_open j)
    (processing_key_ j) (processing_bool_ j) (processing_number_ j) x.

(** [text_ += c]. *)
Definition push_char (c : ascii) (j : Json) : Json :=
  with_text (text_ j +:+ String c EmptyString) j.

(** The members as the in-class initialisers leave them; the only block of
    the store is the synthetic top-level array
    [currently_working_on_ = ov_shared_ptr<JsonData>(JsonType::ARRAY)]. *)
Definition Json_init : Json :=
  mkJson "000" "000" [] [] [] (Some 0) "" false true false false
    [set_type ARRAY JsonData_default].

(** A fresh block of the given type and text:
    [auto p = ov_shared_ptr<JsonData>(); p->type_ = t; p->string_data_ = s]. *)
Definition new_block (t : JsonType) (s : string) (j : Json) : nat * Json :=
  let '(a, h) := make_shared (store j) in
  (a, with_store (<[a := set_string_data s (set_type t JsonData_default)]> h) j).

(** [currently_working_on_->object_data_->insert({key, v})], allocating the
    map first when the pointer is still null. *)
Definition object_insert (key : string) (v : JsonDataPtr) (d : JsonData)
  : JsonData :=
  set_object_data (Some (map_insert key v (default ∅ (object_data_ d)))) d.

(** [currently_working_on_->array_data_->push_back(v)], allocating the vector
    first when the pointer is still null. *)
Definition array_push_back (v : JsonDataPtr) (d : JsonData) : JsonData :=
  set_array_data (Some (default [] (array_data_ d) ++ [v])) d.

(** Write a block back to the address [currently_working_on_] holds. *)
Definition store_current (d : JsonData) (j : Json) : Json :=
  match currently_working_on_ j with
  | Some a => with_store (<[a := d]> (store j)) j
  | None => j
  end.

Section Parser.

(** When [erange s] holds, [strtod] reports [ERANGE] on [s] and [std::stod]
    throws [std::out_of_range]. *)
Variable erange : string → bool.

(** Lines 346-350: the checks on the buffered literal.  [isValidNumber] is
    only called when the number flag is set ([&&] is lazy). *)
Definition number_invalid (j : Json) : outcome bool :=
  if processing_number_ j then negb <$> isValidNumber erange (text_ j)
  else Ok false.

Definition validate_literal (j : Json) : outcome unit :=
  number_invalid j ≫= λ invalid_number : bool,
  if invalid_number then
    throw_runtime ("Invalid number: " +:+ text_ j)
  else if processing_bool_ j && negb (isValidBool (text_ j)) then
    throw_runtime ("Invalid boolean: " +:+ text_ j)
  else Ok ().

(** Lines 352-387: the buffered text becomes a STRING block of the container
    being built. *)
Definition append_text (j : Json) : outcome Json :=
  let j := with_processing_bool false (with_processing_number false j) in
  cur ← deref (store j) (currently_working_on_ j);
  match type_ cur with
  | OBJECT =>
      match keys_ j with
      | [] => throw_runtime "No key found for value"
      | key :: keys =>
          let j := with_keys keys j in
          let '(text_data, j) := new_block STRING (text_ j) j in
          Ok (with_text "" (store_current (object_insert key (Some text_data) cur) j))
      end
  | ARRAY =>
      let '(text_data, j) := new_block STRING (text_ j) j in
      Ok (with_text "" (store_current (array_push_back (Some text_data) cur) j))
  | _ => throw_runtime "Can't append value to non-object or non-array"
  end.

(** Lines 341-345: when a value ends. *)
Definition value_ends (c : ascii) (j : Json) : bool :=
  (ch_eq c "," && negb (isClosingBracket (last_symbol_ j)))
  || (isClosingBracket c && negb (String.eqb (text_ j) ""))
  || ((ch_eq c "," || ch_eq c "}" || ch_eq c "]")
      && (processing_number_ j || processing_bool_ j)).

(** Lines 390-404. *)
Definition open_bracket (c : ascii) (j : Json) : Json :=
  let j := with_last_bracket c (with_brackets (c :: brackets_ j) j) in
  let j := match currently_working_on_ j with
           | Some _ => with_working_on (currently_working_on_ j :: working_on_ j) j
           | None => j
           end in
  let '(a, h) := make_shared (store j) in
  let j := with_current (Some a) (with_store h j) in
  let t := if ch_eq c "{" then OBJECT else ARRAY in
  with_store (<[a := set_type t JsonData_default]> (store j)) j.

(** Lines 405-447. *)
Definition close_bracket (c : ascii) (j : Json) : outcome Json :=
  match brackets_ j with
  | [] => throw_runtime "Closing non existing bracket"
  | top :: brackets =>
      if negb (sameBracketType c top) then
        throw_runtime ("Bracket type mismatch " +:+ String c ""
                       +:+ " is closing " +:+ String (last_bracket_ j) "")
      else
        let j := with_last_bracket c (with_brackets brackets j) in
        match working_on_ j with
        | [] => throw_runtime "Can't append value to non-object or non-array"
        | parent :: rest =>
            let temp := currently_working_on_ j in
            let j := with_working_on rest (with_current parent j) in
            cur ← deref (store j) (currently_working_on_ j);
            match type_ cur with
            | OBJECT =>
                match keys_ j with
                | [] => throw_runtime "No key found for value"
                | key :: keys =>
                    Ok (store_current (object_insert key temp cur)
                          (with_keys keys j))
                end
            | ARRAY => Ok (store_current (array_push_back temp cur) j)
            | _ => throw_runtime "Can't append value to non-object or non-array"
            end
        end
  end.

(** [Json::processJson], lines 318-450. *)
Definition processJson (c : ascii) (j : Json) : outcome Json :=
  if isBlank c then Ok j
  else
    let j := if ch_eq c ":"
             then with_text "" (with_keys (text_ j :: keys_ j)
                                  (with_processing_key false j))
             else j in
    let j := if isNumberPart c && negb (processing_bool_ j)
             then push_char c (with_processing_number true j)
             else j in
    let j := if isBoolPart c && negb (processing_number_ j)
             then push_char c (with_processing_bool true j)
             else j in
    j ← (if value_ends c j
         then validate_literal j ≫= λ _, append_text j
         else Ok j);
    j ← (if isOpeningBracket c then Ok (open_bracket c j)
         else if isClosingBracket c then close_bracket c j
         else Ok j);
    Ok (with_last_symbol c j).

(** One iteration of the loop of [Json::parseBuffer], lines 300-314. *)
Definition parseChar (c : ascii) (j : Json) : outcome Json :=
  if ch_eq c dquote then
    if quotes_open j then Ok (with_quotes_open false j)
    else Ok (with_quotes_open true (with_text "" j))
  else
    if quotes_open j then Ok (push_char c j)
    else processJson c j.

(** The loop of [Json::parseBuffer], over the characters it reads. *)
Fixpoint parseBuffer (buffer : list ascii) (j : Json) : outcome Json :=
  match buffer with
  | [] => Ok j
  | c :: rest => j' ← parseChar c j; parseBuffer rest j'
  end.

End Parser.

(** ** The input stream and [Json::parseFile] *)

(** [std::ifstream], as far as the constructor uses it: the characters not
    yet read and whether the stream is still good ([operator bool]). *)
Record ifstream : Type := mkIfstream {
  unread : list ascii;
  good : bool
}.

(** Opening a file: [None] is a file that cannot be opened. *)
Definition ifstream_open (file : option (list ascii)) : ifstream :=
  match file with
  | Some content => mkIfstream content true
  | None => mkIfstream [] false
  end.

(** [file_.read(buf, n)]: up to [n] characters are extracted; when the end of
    the file is met before [n] characters were read the stream fails.  The
    characters returned are the [gcount()] characters extracted. *)
Definition ifstream_read (n : nat) (f : ifstream) : list ascii * ifstream :=
  (take n (unread f),
   mkIfstream (drop n (unread f)) (n <=? length (unread f))).

(** [Json::readBuffer], lines 279-283. *)
Definition readBuffer (buffer_size : nat) (f : ifstream)
  : bool * list ascii * ifstream :=
  if negb (good f) then (false, [], f)
  else let '(buffer, f') := ifstream_read buffer_size f in (true, buffer, f').

(** [std::string buffer {raw_char_data_.get()}], line 287: the raw buffer
    is read as a C string, which ends before the first NUL.  Without a NUL in
    the chunk the string runs on into what the buffer held before; its first
    [gcount()] characters are those of the chunk. *)
Definition NUL : ascii := "000".

Fixpoint c_string (raw : list ascii) : list ascii :=
  match raw with
  | [] => []
  | c :: rest => if ch_eq c NUL then [] else c :: c_string rest
  end.

(** The loop of [parseBuffer], line 299, reads [buffer[i]] for every
    [i < gcount()].  Up to [size()] these are the characters of the chunk:
    those of the string, then the NUL that [buffer[size()]] yields.
    [chars_read] are the characters read that far, and [overrun] tells
    whether [gcount()] reaches beyond [size()], where the read leaves the
    string. *)
Definition chars_read (chunk : list ascii) : list ascii :=
  take (S (length (c_string chunk))) chunk.

Definition overrun (chunk : list ascii) : bool :=
  S (length (c_string chunk)) <? length chunk.

Section ParseFile.

Variable erange : string → bool.

(** The [while (readBuffer()) parseBuffer(buffer)] loop of [parseFile].  The
    loop is bounded by [fuel] iterations; [None] is a loop that needs more. *)
Fixpoint read_loop (fuel : nat) (buffer_size : nat) (f : ifstream) (j : Json)
  : option (outcome Json) :=
  match fuel with
  | O => None
  | S fuel' =>
      match readBuffer buffer_size f with
      | (false, _, _) => Some (Ok j)
      | (true, chunk, f') =>
          match parseBuffer erange (chars_read chunk) j with
          | Ok j' =>
              if overrun chunk then Some StringOverrun
              else read_loop fuel' buffer_size f' j'
          | Throw e => Some (Throw e)
          | NullDeref => Some NullDeref
          | StringOverrun => Some StringOverrun
          end
      end
  end.

(** [vector::at]. *)
Definition vector_at {A} (l : list A) (i : nat) : outcome A :=
  match l !! i with
  | Some x => Ok x
  | None => Throw (out_of_range "vector::_M_range_check")
  end.

(** The end of [parseFile], lines 291-295: the bracket check and
    [json_data_ = *(currently_working_on_.ptr_->array_data_->at(0))].
    The result is the copied root block and the store it points into. *)
Definition finish (j : Json) : outcome (JsonData * heap) :=
  match brackets_ j with
  | top :: _ => throw_runtime ("Bracket not closed: " +:+ String top "")
  | [] =>
      cur ← deref (store j) (currently_working_on_ j);
      match array_data_ cur with
      | None => NullDeref
      | Some v =>
          first ← vector_at v 0;
          root ← deref (store j) first;
          Ok (root, store j)
      end
  end.

(** [Json::parseFile] with the loop bounded by [fuel]. *)
Definition parseFile (fuel buffer_size : nat) (f : ifstream)
  : option (outcome (JsonData * heap)) :=
  match read_loop fuel buffer_size f Json_init with
  | None => None
  | Some r => Some (r ≫= finish)
  end.

(** The parser run on the characters of the whole document. *)
Definition parse_whole (doc : list ascii) : outcome (JsonData * heap) :=
  parseBuffer erange doc Json_init ≫= finish.

End ParseFile.

(** [const std::streamsize buffer_size_ = 4096]. *)
Definition buffer_size_ : nat := 4096.

(** The constructor [Json(filename)] on a file with the given content.  A
    file of [n] characters is read in at most [n / 4096 + 1] chunks, so the
    bound never cuts the loop short (see [read_loop_enough]). *)
Definition Json_ctor (erange : string → bool) (doc : list ascii)
  : option (outcome (JsonData * heap)) :=
  parseFile erange (length doc + 2) buffer_size_ (ifstream_open (Some doc)).

(** ** The access interface *)

Definition int_min : Z := (- 2 ^ 31)%Z.
Definition int_max : Z := (2 ^ 31 - 1)%Z.

(** [std::to_string(int)]. *)
Definition to_string (index : Z) : string := pretty index.

(** [ov_shared_ptr<JsonData>::operator[](const std::string&)], lines 73-87. *)
Definition ptr_at_key (h : heap) (p : JsonDataPtr) (key : string)
  : outcome JsonDataPtr :=
  match p with
  | None => throw_runtime ("Can't access key on null pointer. Key: " +:+ key)
  | Some _ =>
      d ← deref h p;
      if negb (bool_decide (type_ d = OBJECT)) then
        throw_runtime ("Can't access key on non-object. Key: " +:+ key)
      else
        match object_data_ d with
        | None => NullDeref
        | Some m =>
            match m !! key with
            | None => throw_runtime ("Key " +:+ key +:+ " not found")
            | Some child => Ok child
            end
        end
  end.

(** [index < 0 || index >= size()]. *)
Definition out_of_bounds {A} (index : Z) (v : list A) : bool :=
  (index <? 0)%Z || (Z.of_nat (length v) <=? index)%Z.

(** [ov_shared_ptr<JsonData>::operator[](const int)], lines 89-103. *)
Definition ptr_at_index (h : heap) (p : JsonDataPtr) (index : Z)
  : outcome JsonDataPtr :=
  match p with
  | None => throw_runtime ("Can't access index on null pointer. Index: "
                           +:+ to_string index)
  | Some _ =>
      d ← deref h p;
      if negb (bool_decide (type_ d = ARRAY)) then
        throw_runtime ("Can't access index on non-array. Index: "
                       +:+ to_string index)
      else
        if (index <? 0)%Z then
          throw_runtime ("Index " +:+ to_string index +:+ " out of bounds")
        else
          match array_data_ d with
          | None => NullDeref
          | Some v =>
              if (Z.of_nat (length v) <=? index)%Z then
                throw_runtime ("Index " +:+ to_string index
                               +:+ " out of bounds")
              else vector_at v (Z.to_nat index)
          end
  end.

(** [ov_shared_ptr<JsonData>::del(const std::string&)], lines 37-51.  The
    store after the call is returned. *)
Definition ptr_del_key (h : heap) (p : JsonDataPtr) (key : string)
  : outcome heap :=
  match p with
  | None => throw_runtime ("Can't delete key on null pointer. Key: " +:+ key)
  | Some a =>
      d ← deref h p;
      if negb (bool_decide (type_ d = OBJECT)) then
        throw_runtime ("Can't delete key on non-object. Key: " +:+ key)
      else
        match object_data_ d with
        | None => NullDeref
        | Some m =>
            match m !! key with
            | None => throw_runtime ("Key " +:+ key +:+ " not found")
            | Some _ => Ok (<[a := set_object_data (Some (delete key m)) d]> h)
            end
        end
  end.

(** [ov_shared_ptr<JsonData>::del(const int)], lines 53-71. *)
Definition ptr_del_index (h : heap) (p : JsonDataPtr) (index : Z)
  : outcome heap :=
  match p with
  | None => throw_runtime ("Can't delete index on null pointer. Index: "
                           +:+ to_string index)
  | Some a =>
      d ← deref h p;
      if negb (bool_decide (type_ d = ARRAY)) then
        throw_runtime ("Can't delete index on non-array. Index: "
                       +:+ to_string index)
      else
        if (index <? 0)%Z then
          throw_runtime ("Index " +:+ to_string index +:+ " out of bounds")
        else
          match array_data_ d with
          | None => NullDeref
          | Some v =>
              if (Z.of_nat (length v) <=? index)%Z then
                throw_runtime ("Index " +:+ to_string index
                               +:+ " out of bounds")
              else
                let v' := if (length v =? 1)%nat then []
                          else vector_erase (Z.to_nat index) v in
                Ok (<[a := set_array_data (Some v') d]> h)
          end
  end.

(** [ov_shared_ptr<JsonData>::operator std::string], lines 121-131. *)
Definition ptr_to_string (h : heap) (p : JsonDataPtr) : outcome string :=
  match p with
  | None => throw_runtime "Can not convert null pointer to string"
  | Some _ =>
      d ← deref h p;
      if negb (bool_decide (type_ d = STRING)) then
        throw_runtime "Can not convert non-string type to string"
      else Ok (string_data_ d)
  end.

(** [ov_shared_ptr::operator==], lines 109-111: the two pointers are
    compared, not the blocks. *)
Definition ptr_eq (p q : JsonDataPtr) : bool := bool_decide (p = q).

(** [Json::operator[](const std::string&)], lines 212-222, on the copied
    root block [json_data_]. *)
Definition Json_at_key (json_data : JsonData) (key : string)
  : outcome JsonDataPtr :=
  match object_data_ json_data with
  | None => throw_runtime "JSON Parser: Can't access key on non-object"
  | Some m =>
      match m !! key with
      | None => throw_runtime ("JSON Parser: Key " +:+ key +:+ " not found")
      | Some child => Ok child
      end
  end.

(** [Json::operator[](const int)], lines 200-210. *)
Definition Json_at_index (json_data : JsonData) (index : Z)
  : outcome JsonDataPtr :=
  match array_data_ json_data with
  | None => throw_runtime "JSON Parser: Can't access index on non-array"
  | Some v =>
      if out_of_bounds index v then
        throw_runtime ("JSON Parser: Index " +:+ to_string index
                       +:+ " out of bounds")
      else vector_at v (Z.to_nat index)
  end.

(** ** Vocabulary of the specification *)

(** The error names of the specification, as sets of the exceptions the
    source throws (the source distinguishes them by message only). *)
Definition InvalidNumberLiteral (e : exn) : Prop :=
  ∃ t, e = runtime_error ("Invalid number: " +:+ t).
Definition InvalidBooleanLiteral (e : exn) : Prop :=
  ∃ t, e = runtime_error ("Invalid boolean: " +:+ t).
Definition MissingKey (e : exn) : Prop :=
  e = runtime_error "No key found for value".
Definition InvalidContainer (e : exn) : Prop :=
  e = runtime_error "Can't append value to non-object or non-array".
Definition UnbalancedBrackets (e : exn) : Prop :=
  e = runtime_error "Closing non existing bracket"
  ∨ e = runtime_error "Can't append value to non-object or non-array".
Definition BracketMismatch (e : exn) : Prop :=
  ∃ c l, e = runtime_error ("Bracket type mismatch " +:+ String c ""
                            +:+ " is closing " +:+ String l "").
Definition UnclosedBracket (e : exn) : Prop :=
  ∃ c, e = runtime_error ("Bracket not closed: " +:+ String c "").
Definition StructuralError (e : exn) : Prop :=
  BracketMismatch e ∨ UnbalancedBrackets e ∨ UnclosedBracket e
  ∨ MissingKey e ∨ InvalidContainer e.
Definition KeyNotFound (e : exn) : Prop :=
  ∃ key, e = runtime_error ("Key " +:+ key +:+ " not found").

(** Texts are written as strings and fed to the parser as characters. *)
Definition chars (s : string) : list ascii := String.list_ascii_of_string s.
Definition text_of (l : list ascii) : string := String.string_of_list_ascii l.
(** A key or string value between its two quotes. *)
Definition quoted (s : string) : string :=
  String dquote (s +:+ String dquote "").

(** The scenarios of the specification. *)
Definition scenario_A : list ascii := chars "[1, 2, 3]".
Definition scenario_C : list ascii := chars ("{" +:+ quoted "n" +:+ ": 12.5e2}").
Definition scenario_D : list ascii := chars ("{" +:+ quoted "a" +:+ ": 1,}").
Definition scenario_F : list ascii := chars ("{" +:+ quoted "a" +:+ ": tru}").

(** A file without a NUL character. *)
Definition nul_free (doc : list ascii) : bool :=
  forallb (λ c, negb (ch_eq c NUL)) doc.

(** The two literal flags are never set together. *)
Definition flags_exclusive (j : Json) : Prop :=
  processing_number_ j && processing_bool_ j = false.

(** A state the parser reaches on some input. *)
Definition reachable_state (erange : string → bool) (j : Json) : Prop :=
  ∃ input, parseBuffer erange input Json_init = Ok j.

(** Every block of the store has been given a type. *)
Definition typed (d : JsonData) : Prop := type_ d ≠ UNINIT.
Definition all_typed (h : heap) : Prop := Forall typed h.

(** [child_of h d d']: one of the pointers held by the containers of [d]
    designates the block [d'] of the store [h]. *)
Definition points_to (d : JsonData) (p : JsonDataPtr) : Prop :=
  (∃ m key, object_data_ d = Some m ∧ m !! key = Some p)
  ∨ (∃ v i, array_data_ d = Some v ∧ v !! i = Some p).
Definition child_of (h : heap) (d d' : JsonData) : Prop :=
  ∃ a, points_to d (Some a) ∧ h !! a = Some d'.
(** The blocks reachable from a root block. *)
Definition reachable_from (h : heap) (root : JsonData) : JsonData → Prop :=
  rtc (child_of h) root.

(** "Parses as a real number", read as the grammar of a decimal literal:
    an optional sign, digits with an optional fraction (or a fraction alone),
    an optional exponent, and nothing else. *)
Fixpoint all_digits (l : list ascii) : bool :=
  match l with
  | [] => true
  | c :: r => isdigit c && all_digits r
  end.
Fixpoint span_digits (l : list ascii) : list ascii * list ascii :=
  match l with
  | c :: r => if isdigit c
              then let '(ds, rest) := span_digits r in (c :: ds, rest)
              else ([], l)
  | [] => ([], [])
  end.
Definition strip_sign (l : list ascii) : list ascii :=
  match l with
  | c :: r => if ch_eq c "+" || ch_eq c "-" then r else l
  | [] => l
  end.
Definition is_exponent (l : list ascii) : bool :=
  match l with
  | [] => true
  | c :: r => (ch_eq c "e" || ch_eq c "E")
              && match strip_sign r with
                 | [] => false
                 | ds => all_digits ds
                 end
  end.
Definition is_real_literal (s : string) : bool :=
  let '(int_part, rest) := span_digits (strip_sign (chars s)) in
  match rest with
  | c :: r =>
      if ch_eq c "." then
        let '(frac_part, rest') := span_digits r in
        negb (bool_decide (int_part = []) && bool_decide (frac_part = []))
        && is_exponent rest'
      else negb (bool_decide (int_part = [])) && is_exponent rest
  | [] => negb (bool_decide (int_part = []))
  end.

(** ** Documents and the trees they denote *)

#[local] Set Warnings "-register-all".


(** A document value: a quoted string, a bare literal (number or boolean),
    an array, or an object given by its members in the order written. *)
Inductive value : Type :=
| Str (s : string)
| Lit (t : string)
| Arr (vs : list value)
| Obj (kvs : list (string * value)).

Inductive token : Type :=
| TOpenArr | TCloseArr | TOpenObj | TCloseObj | TComma | TColon
| TStr (s : string)
| TLit (t : string).

Definition token_chars (t : token) : list ascii :=
  match t with
  | TOpenArr => ["["%char]
  | TCloseArr => ["]"%char]
  | TOpenObj => ["{"%char]
  | TCloseObj => ["}"%char]
  | TComma => [","%char]
  | TColon => [":"%char]
  | TStr s => chars (quoted s)
  | TLit t => chars t
  end.

(** Token sequences separated by commas. *)
Fixpoint join_tokens (ls : list (list token)) : list token :=
  match ls with
  | [] => []
  | [l] => l
  | l :: ls' => l ++ TComma :: join_tokens ls'
  end.

Fixpoint tokens (v : value) : list token :=
  match v with
  | Str s => [TStr s]
  | Lit t => [TLit t]
  | Arr vs => TOpenArr :: join_tokens (map tokens vs) ++ [TCloseArr]
  | Obj kvs =>
      TOpenObj
      :: join_tokens (map (λ '(k, v), TStr k :: TColon :: tokens v) kvs)
      ++ [TCloseObj]
  end.

(** The text of a token sequence without any white space. *)
Definition render (ts : list token) : list ascii := ts ≫= token_chars.

(** [layout ts doc]: [doc] is the token sequence [ts] with any amount of
    white space before, between and after the tokens. *)
Inductive layout : list token → list ascii → Prop :=
| layout_nil ws :
    Forall (λ c, isBlank c = true) ws → layout [] ws
| layout_cons ws t ts rest :
    Forall (λ c, isBlank c = true) ws →
    layout ts rest →
    layout (t :: ts) (ws ++ token_chars t ++ rest).

(** The documents handled verbatim.  Keys and string values hold no quote
    character; a bare literal is [true], [false], or a non-empty text over
    [0-9 . - e] in which [std::stod] finds a number within range; an empty
    string value is not the last element of its container. *)
Definition no_dquote (s : string) : bool :=
  forallb (λ c, negb (ch_eq c dquote)) (chars s).

Definition number_ok (erange : string → bool) (t : string) : bool :=
  negb (String.eqb t "") && forallb isNumberPart (chars t)
  && strtod_converts t && negb (erange t).

Definition literal_ok (erange : string → bool) (t : string) : bool :=
  isValidBool t || number_ok erange t.

Definition is_empty_string (v : value) : bool :=
  match v with
  | Str s => String.eqb s ""
  | _ => false
  end.

Definition last_not_empty_string (vs : list value) : bool :=
  match last vs with
  | Some v => negb (is_empty_string v)
  | None => true
  end.

Fixpoint well_formed (erange : string → bool) (v : value) : bool :=
  match v with
  | Str s => no_dquote s
  | Lit t => literal_ok erange t
  | Arr vs => forallb (well_formed erange) vs && last_not_empty_string vs
  | Obj kvs =>
      forallb (λ '(k, v), no_dquote k && well_formed erange v) kvs
      && last_not_empty_string (map snd kvs)
  end.

Definition is_container (v : value) : bool :=
  match v with
  | Arr _ | Obj _ => true
  | _ => false
  end.

(** The container pointers of a block holding the given children: a block
    that never received a child keeps its null pointer. *)
Definition vector_of (ps : list JsonDataPtr) : option JsonArray :=
  match ps with
  | [] => None
  | _ => Some ps
  end.

Definition map_of (kps : list (string * JsonDataPtr)) : option JsonObject :=
  match kps with
  | [] => None
  | _ => Some (foldl (λ m '(k, p), map_insert k p m) ∅ kps)
  end.

(** [represents h lo p v]: in the store [h], at addresses from [lo] on, the
    pointer [p] designates a tree of blocks for the value [v].  The members
    of an object are inserted in the order written, so that a key written
    twice keeps its first value. *)
Inductive represents (h : heap) (lo : nat) : JsonDataPtr → value → Prop :=
| represents_str a d s :
    lo ≤ a → h !! a = Some d →
    type_ d = STRING → string_data_ d = s →
    represents h lo (Some a) (Str s)
| represents_lit a d t :
    lo ≤ a → h !! a = Some d →
    type_ d = STRING → string_data_ d = t →
    represents h lo (Some a) (Lit t)
| represents_arr a d vs ps :
    lo ≤ a → h !! a = Some d →
    type_ d = ARRAY → array_data_ d = vector_of ps →
    Forall2 (represents h lo) ps vs →
    represents h lo (Some a) (Arr vs)
| represents_obj a d kvs ps :
    lo ≤ a → h !! a = Some d →
    type_ d = OBJECT → object_data_ d = map_of (zip (map fst kvs) ps) →
    Forall2 (represents h lo) ps (map snd kvs) →
    represents h lo (Some a) (Obj kvs).

(** Paths into a document. *)
Inductive selector : Type :=
| Key (key : string)
| Index (index : Z).

(** The first member written with the given key. *)
Fixpoint first_value (key : string) (kvs : list (string * value))
  : option value :=
  match kvs with
  | [] => None
  | (k, v) :: kvs' => if String.eqb k key then Some v else first_value key kvs'
  end.

Definition value_select (v : value) (sel : selector) : option value :=
  match sel, v with
  | Key key, Obj kvs => first_value key kvs
  | Index index, Arr vs =>
      if (index <? 0)%Z then None else vs !! Z.to_nat index
  | _, _ => None
  end.

Fixpoint value_at (v : value) (path : list selector) : option value :=
  match path with
  | [] => Some v
  | sel :: path' => value_select v sel ≫= λ v', value_at v' path'
  end.

Definition scalar_text (v : value) : option string :=
  match v with
  | Str s | Lit s => Some s
  | _ => None
  end.

(** The same path followed with the access interface: the first step on
    [Json], the others on the handles, then the conversion to text. *)
Definition ptr_select (h : heap) (p : JsonDataPtr) (sel : selector)
  : outcome JsonDataPtr :=
  match sel with
  | Key key => ptr_at_key h p key
  | Index index => ptr_at_index h p index
  end.

Fixpoint ptr_follow (h : heap) (p : JsonDataPtr) (path : list selector)
  : outcome JsonDataPtr :=
  match path with
  | [] => Ok p
  | sel :: path' => q ← ptr_select h p sel; ptr_follow h q path'
  end.

Definition Json_select (json_data : JsonData) (sel : selector)
  : outcome JsonDataPtr :=
  match sel with
  | Key key => Json_at_key json_data key
  | Index index => Json_at_index json_data index
  end.

Definition fetch_text (json_data : JsonData) (h : heap) (sel : selector)
    (path : list selector) : outcome string :=
  q ← Json_select json_data sel;
  r ← ptr_follow h q path;
  ptr_to_string h r.

(** ** Vocabulary of the correctness proof *)

(** The state before a value: no quote open, no text buffered, no literal
    under way, and the last symbol is not a closing bracket. *)
Definition ready (j : Json) : Prop :=
  quotes_open j = false ∧ text_ j = "" ∧ processing_bool_ j = false
  ∧ processing_number_ j = false
  ∧ isClosingBracket (last_symbol_ j) = false.

(** The container being built is the block [d] at address [a] and can take
    a value: it is an array, or an object with a pending key. *)
Definition accepts (j : Json) (a : nat) (d : JsonData) : Prop :=
  currently_working_on_ j = Some a ∧ store j !! a = Some d
  ∧ (type_ d = ARRAY ∨ (type_ d = OBJECT ∧ keys_ j ≠ [])).

(** The block [d] once the value behind [p] is attached to it, and the keys
    left pending. *)
Definition attach (p : JsonDataPtr) (keys : list string) (d : JsonData)
  : JsonData * list string :=
  match type_ d with
  | OBJECT => (object_insert (hd "" keys) p d, tl keys)
  | _ => (array_push_back p d, keys)
  end.

(** [attached j a d v j']: from [j], the value [v] has been built in fresh
    blocks and attached to the container [d] at [a]; nothing else changed. *)
Definition attached (j : Json) (a : nat) (d : JsonData) (v : value)
    (j' : Json) : Prop :=
  let n := length (store j) in
  represents (store j') n (Some n) v
  ∧ store j' !! a = Some (attach (Some n) (keys_ j) d).1
  ∧ keys_ j' = (attach (Some n) (keys_ j) d).2
  ∧ (∀ b, b < n → b ≠ a → store j' !! b = store j !! b)
  ∧ n < length (store j')
  ∧ brackets_ j' = brackets_ j
  ∧ working_on_ j' = working_on_ j
  ∧ currently_working_on_ j' = Some a
  ∧ quotes_open j' = false ∧ text_ j' = ""
  ∧ processing_bool_ j' = false ∧ processing_number_ j' = false.

(** What [processJson] does with a terminator [c] once the value before it
    is attached: a closing bracket closes the container, any terminator is
    recorded as the last symbol. *)
Definition after (c : ascii) (j : Json) : outcome Json :=
  j' ← (if isClosingBracket c then close_bracket c j else Ok j);
  Ok (with_last_symbol c j').

Definition terminator (c : ascii) : Prop :=
  c = ","%char ∨ c = "}"%char ∨ c = "]"%char.

(** Blocks at addresses from [lo] on are kept. *)
Definition stable (lo : nat) (h h' : heap) : Prop :=
  ∀ b x, lo ≤ b → h !! b = Some x → h' !! b = Some x.

(** The STRING block [append_text] creates for the buffered text. *)
Definition text_block (t : string) : JsonData :=
  set_string_data t (set_type STRING JsonData_default).

(** The state [append_text] leads to when the container is [d] at [a]. *)
Definition attach_text (a : nat) (d : JsonData) (j : Json) : Json :=
  let n := length (store j) in
  with_text ""
    (with_store (<[a := (attach (Some n) (keys_ j) d).1]>
                   (store j ++ [text_block (text_ j)]))
       (with_keys (attach (Some n) (keys_ j) d).2
          (with_processing_bool false (with_processing_number false j)))).

(** The state [close_bracket] leads to when the parent is [d] at [a]. *)
Definition attach_current (c : ascii) (a : nat) (d : JsonData) (j : Json)
  : Json :=
  with_store (<[a := (attach (currently_working_on_ j) (keys_ j) d).1]>
                (store j))
    (with_keys (attach (currently_working_on_ j) (keys_ j) d).2
       (with_working_on (tl (working_on_ j))
          (with_current (Some a)
             (with_last_bracket c (with_brackets (tl (brackets_ j)) j))))).

(** The state is [j] with a text buffered and possibly a literal flag. *)
Definition pending (j : Json) (t : string) (jp : Json) : Prop :=
  store jp = store j ∧ keys_ jp = keys_ j ∧ brackets_ jp = brackets_ j
  ∧ working_on_ jp = working_on_ j
  ∧ currently_working_on_ jp = currently_working_on_ j
  ∧ quotes_open jp = false ∧ text_ jp = t.

(** What the main induction proves of a value: followed by a terminator, it
    ends up attached to the container being built. *)
Definition value_spec (erange : string → bool) (v : value) : Prop :=
  ∀ c j a d,
    terminator c → (is_empty_string v = true → c = ","%char) →
    ready j → accepts j a d →
    ∃ j', attached j a d v j'
          ∧ parseBuffer erange (render (tokens v) ++ [c]) j = after c j'.

(** A container after a sequence of children was attached to it. *)
Definition push_all (d : JsonData) (ps : list JsonDataPtr) : JsonData :=
  foldl (λ d p, array_push_back p d) d ps.
Definition insert_all (d : JsonData) (kps : list (string * JsonDataPtr))
  : JsonData :=
  foldl (λ d '(k, p), object_insert k p d) d kps.

(** [built j n d' j']: from [j] the container at [n] has become [d'], blocks
    were added, and nothing else changed. *)
Definition built (j : Json) (n : nat) (d' : JsonData) (j' : Json) : Prop :=
  store j' !! n = Some d'
  ∧ (∀ b, b < length (store j) → b ≠ n → store j' !! b = store j !! b)
  ∧ length (store j) ≤ length (store j')
  ∧ keys_ j' = keys_ j
  ∧ brackets_ j' = brackets_ j
  ∧ working_on_ j' = working_on_ j
  ∧ currently_working_on_ j' = Some n
  ∧ quotes_open j' = false ∧ text_ j' = ""
  ∧ processing_bool_ j' = false ∧ processing_number_ j' = false.

(** The block a bracket opens. *)
Definition container_block (c : ascii) : JsonData :=
  set_type (if ch_eq c "{" then OBJECT else ARRAY) JsonData_default.

(** The tokens of one member of an object. *)
Definition member_tokens (kv : string * value) : list token :=
  let '(k, v) := kv in TStr k :: TColon :: tokens v.

(** The state after a key and its colon. *)
Definition key_pushed (k : string) (j : Json) : Json :=
  with_last_symbol ":"
    (with_text "" (with_keys (k :: keys_ j) (with_processing_key false j))).

(** The first pointer paired with the given key. *)
Fixpoint first_ptr (key : string) (kps : list (string * JsonDataPtr))
  : option JsonDataPtr :=
  match kps with
  | [] => None
  | (k, p) :: kps' => if String.eqb k key then Some p else first_ptr key kps'
  end.

(** Tokens that leave the quotes closed. *)
Definition token_closed (t : token) : bool :=
  match t with
  | TStr s | TLit s => no_dquote s
  | _ => true
  end.

(** Documents used as examples. *)
Definition empty_string_member : list ascii :=
  chars ("{" +:+ quoted "a" +:+ ": " +:+ quoted "" +:+ "}").
Definition signed_exponent_member : list ascii :=
  chars ("{" +:+ quoted "n" +:+ ": 1e+2}").
Definition escaped_quote_member : list ascii :=
  chars ("{" +:+ quoted "s" +:+ ": "
         +:+ quoted (String "a" (String "092" (String dquote "b"))) +:+ "}").
Definition duplicate_key_document : list ascii :=
  chars ("{" +:+ quoted "a" +:+ ": 1, " +:+ quoted "a" +:+ ": 2}").
Definition stray_character_document : list ascii :=
  chars ("{" +:+ quoted "a" +:+ ": {} x, " +:+ quoted "b" +:+ ": "
         +:+ quoted "y" +:+ "}").
Definition without_stray_character : list ascii :=
  chars ("{" +:+ quoted "a" +:+ ": {} , " +:+ quoted "b" +:+ ": "
         +:+ quoted "y" +:+ "}").
Definition stale_key_document : list ascii :=
  chars ("{" +:+ quoted "a" +:+ ": {" +:+ quoted "x" +:+ ": " +:+ quoted ""
         +:+ "}, " +:+ quoted "a" +:+ ": 1}").

(** A file with a NUL character between two elements of an array. *)
Definition nul_document : list ascii :=
  chars "[true," ++ NUL :: chars "false]".

(** ** Further members of the interface *)

(** [JsonData::operator[](const std::string&)], lines 160-170: the access
    by key on a block itself, as on a dereferenced handle. *)
Definition JsonData_at_key (d : JsonData) (key : string)
  : outcome JsonDataPtr :=
  if negb (bool_decide (type_ d = OBJECT)) then
    throw_runtime ("Can't access key on non-object. Key: " +:+ key)
  else
    match object_data_ d with
    | None => NullDeref
    | Some m =>
        match m !! key with
        | None => throw_runtime ("Key " +:+ key +:+ " not found")
        | Some child => Ok child
        end
    end.

(** [JsonData::operator[](const int)], lines 172-182. *)
Definition JsonData_at_index (d : JsonData) (index : Z)
  : outcome JsonDataPtr :=
  if negb (bool_decide (type_ d = ARRAY)) then
    throw_runtime ("Can't access index on non-array. Index: "
                   +:+ to_string index)
  else
    if (index <? 0)%Z then
      throw_runtime ("Index " +:+ to_string index +:+ " out of bounds")
    else
      match array_data_ d with
      | None => NullDeref
      | Some v =>
          if (Z.of_nat (length v) <=? index)%Z then
            throw_runtime ("Index " +:+ to_string index +:+ " out of bounds")
          else vector_at v (Z.to_nat index)
      end.

(** The handle a block holds for a key or at an index, read off its
    containers. *)
Definition stored (d : JsonData) (sel : selector) : option JsonDataPtr :=
  match sel with
  | Key key => object_data_ d ≫= λ m : JsonObject, m !! key
  | Index index =>
      array_data_ d ≫= λ v : JsonArray,
      if (index <? 0)%Z then None else v !! Z.to_nat index
  end.

(** ** Invariants of the parser *)

(** The pointers a block holds designate blocks below the bound [n]. *)
Definition children_below (n : nat) (d : JsonData) : Prop :=
  ∀ p, points_to d p → ∃ a, p = Some a ∧ a < n.

(** A container pointer of a block is null or designates a container with
    at least one element. *)
Definition containers_nonempty (d : JsonData) : Prop :=
  object_data_ d ≠ Some ∅ ∧ array_data_ d ≠ Some [].

(** A block holds a container only of its own type: a map when it is an
    OBJECT, a vector when it is an ARRAY. *)
Definition containers_typed (d : JsonData) : Prop :=
  (object_data_ d ≠ None → type_ d = OBJECT)
  ∧ (array_data_ d ≠ None → type_ d = ARRAY).

(** The parser never writes the field [key_], and writes [string_data_]
    in STRING blocks only. *)
Definition fields_unused (d : JsonData) : Prop :=
  key_ d = "" ∧ (type_ d ≠ STRING → string_data_ d = "").

Definition store_ok (h : heap) : Prop :=
  Forall (children_below (length h)) h
  ∧ Forall containers_nonempty h
  ∧ Forall containers_typed h
  ∧ Forall fields_unused h.

(** The pointer designates an OBJECT or ARRAY block of the store. *)
Definition container_ptr (h : heap) (p : JsonDataPtr) : Prop :=
  ∃ a d, p = Some a ∧ h !! a = Some d
         ∧ (type_ d = OBJECT ∨ type_ d = ARRAY).

(** What every state reached by the parser satisfies: the container being
    built and its ancestors are containers of the store, there is one
    ancestor per open bracket, the outermost container is the synthetic
    array at address 0, and the store is closed under its pointers. *)
Definition parser_invariant (j : Json) : Prop :=
  container_ptr (store j) (currently_working_on_ j)
  ∧ Forall (container_ptr (store j)) (working_on_ j)
  ∧ length (brackets_ j) = length (working_on_ j)
  ∧ last (currently_working_on_ j :: working_on_ j) = Some (Some 0)
  ∧ store_ok (store j).

(** Blocks keep their address and their type. *)
Definition types_kept (h h' : heap) : Prop :=
  ∀ a d, h !! a = Some d → ∃ d', h' !! a = Some d' ∧ type_ d' = type_ d.

(** The exceptions [processJson] can throw. *)
Definition parse_error (e : exn) : Prop :=
  InvalidNumberLiteral e ∨ InvalidBooleanLiteral e ∨ MissingKey e
  ∨ BracketMismatch e
  ∨ e = runtime_error "Closing non existing bracket"
  ∨ e = out_of_range "stod".

(** An outcome of the parser that is a state satisfying [P] or one of the
    exceptions above, and never undefined behaviour. *)
Definition parse_outcome (P : Json → Prop) (r : outcome Json) : Prop :=
  match r with
  | Ok j => P j
  | Throw e => parse_error e
  | NullDeref | StringOverrun => False
  end.

(** ** Brackets and quotes, read off the text alone *)

(** Whether a quote is open after the characters of [input]. *)
Fixpoint quoted_after (input : list ascii) (quoted : bool) : bool :=
  match input with
  | [] => quoted
  | c :: rest =>
      quoted_after rest (if ch_eq c dquote then negb quoted else quoted)
  end.

(** The stack of brackets open after [input], the brackets inside quotes
    left out; [None] when a closing bracket finds no partner. *)
Fixpoint bracket_scan (input : list ascii) (quoted : bool)
    (stack : list ascii) : option (list ascii) :=
  match input with
  | [] => Some stack
  | c :: rest =>
      if ch_eq c dquote then bracket_scan rest (negb quoted) stack
      else if quoted then bracket_scan rest quoted stack
      else if isOpeningBracket c then bracket_scan rest quoted (c :: stack)
      else if isClosingBracket c then
        match stack with
        | o :: stack' =>
            if sameBracketType c o then bracket_scan rest quoted stack'
            else None
        | [] => None
        end
      else bracket_scan rest quoted stack
  end.

(** Characters that neither end a value nor open or close a container. *)
Definition no_structure (c : ascii) : bool :=
  negb (ch_eq c "," || isOpeningBracket c || isClosingBracket c).

(** The input without the white space outside quotes. *)
Fixpoint strip_blanks (input : list ascii) (quoted : bool) : list ascii :=
  match input with
  | [] => []
  | c :: rest =>
      if ch_eq c dquote then c :: strip_blanks rest (negb quoted)
      else if quoted then c :: strip_blanks rest quoted
      else if isBlank c then strip_blanks rest quoted
      else c :: strip_blanks rest quoted
  end.

(** ** What the access interface answers when there is nothing to select *)

(** The outcome of a subscript on a handle when the value [v] it designates
    has no such child: an exception, or the null container of a childless
    object or array (a negative index is refused before the vector is
    looked at). *)
Definition handle_refusal (v : value) (sel : selector)
  : outcome JsonDataPtr :=
  match sel, v with
  | Key key, Obj [] => NullDeref
  | Key key, Obj _ => throw_runtime ("Key " +:+ key +:+ " not found")
  | Key key, _ =>
      throw_runtime ("Can't access key on non-object. Key: " +:+ key)
  | Index index, Arr [] =>
      if (index <? 0)%Z then
        throw_runtime ("Index " +:+ to_string index +:+ " out of bounds")
      else NullDeref
  | Index index, Arr _ =>
      throw_runtime ("Index " +:+ to_string index +:+ " out of bounds")
  | Index index, _ =>
      throw_runtime ("Can't access index on non-array. Index: "
                     +:+ to_string index)
  end.

(** The same for a subscript on the [Json] object, which tests the container
    pointers of the root. *)
Definition root_refusal (v : value) (sel : selector) : outcome JsonDataPtr :=
  match sel, v with
  | Key key, Obj (_ :: _) =>
      throw_runtime ("JSON Parser: Key " +:+ key +:+ " not found")
  | Key key, _ => throw_runtime "JSON Parser: Can't access key on non-object"
  | Index index, Arr (_ :: _) =>
      throw_runtime ("JSON Parser: Index " +:+ to_string index
                     +:+ " out of bounds")
  | Index index, _ =>
      throw_runtime "JSON Parser: Can't access index on non-array"
  end.

(** The conversion of a handle to text, by the value it designates. *)
Definition text_or_refusal (v : value) : outcome string :=
  match scalar_text v with
  | Some t => Ok t
  | None => throw_runtime "Can not convert non-string type to string"
  end.

(** * Properties *)

(** ** Running the parser *)

Lemma outcome_bind_ok {A B} (f : A → outcome B) (m : outcome A) (b : B) :
  m ≫= f = Ok b → ∃ a, m = Ok a ∧ f a = Ok b.
Proof. destruct m; simpl; intros; [eauto | discriminate..]. Qed.

Lemma parseBuffer_app erange b1 b2 j :
  parseBuffer erange (b1 ++ b2) j
  = parseBuffer erange b1 j ≫= parseBuffer erange b2.
Proof.
  revert j. induction b1 as [|c b1 IH]; intros j; simpl; [done|].
  destruct (parseChar erange c j); simpl; auto.
Qed.

Lemma parseBuffer_snoc erange b c j :
  parseBuffer erange (b ++ [c]) j
  = parseBuffer erange b j ≫= parseChar erange c.
Proof.
  rewrite parseBuffer_app. destruct (parseBuffer erange b j); simpl; auto.
  destruct (parseChar erange c a); auto.
Qed.

(** The parser depends on the library's range report only through the
    texts it validates. *)
Lemma validate_literal_ext e1 e2 j :
  (∀ s, e1 s = e2 s) → validate_literal e1 j = validate_literal e2 j.
Proof.
  intros Hext.
  unfold validate_literal, number_invalid, isValidNumber, stod.
  by rewrite Hext.
Qed.

Lemma processJson_ext e1 e2 c j :
  (∀ s, e1 s = e2 s) → processJson e1 c j = processJson e2 c j.
Proof.
  intros Hext. unfold processJson.
  destruct (isBlank c); [done|].
  set (j3 := if isBoolPart c && _ then _ else _).
  by rewrite (validate_literal_ext e1 e2).
Qed.

Lemma parseBuffer_ext e1 e2 buffer j :
  (∀ s, e1 s = e2 s) → parseBuffer e1 buffer j = parseBuffer e2 buffer j.
Proof.
  intros Hext. revert j. induction buffer as [|c buffer IH]; intros j; [done|].
  simpl. unfold parseChar. rewrite (processJson_ext e1 e2) by done.
  destruct (if ch_eq c dquote then _ else _); simpl; auto.
Qed.

(** [override t b erange] reports [b] on the text [t]. *)
Lemma override_ext (erange : string → bool) t b :
  erange t = b →
  ∀ s, erange s = (if String.eqb s t then b else erange s).
Proof.
  intros Ht s. destruct (String.eqb_spec s t) as [->|]; done.
Qed.

(** ** The chunked read loop *)

Lemma c_string_nul_free chunk : nul_free chunk = true → c_string chunk = chunk.
Proof.
  induction chunk as [|c chunk IH]; simpl; [done|].
  intros [Hc Hrest]%andb_true_iff. apply negb_true_iff in Hc.
  rewrite Hc. by rewrite IH.
Qed.

Lemma nul_free_take n doc : nul_free doc = true → nul_free (take n doc) = true.
Proof.
  unfold nul_free. rewrite !forallb_forall. intros Hdoc c Hc.
  apply Hdoc. apply list_elem_of_In. apply list_elem_of_In in Hc.
  by apply (subseteq_take n doc).
Qed.

Lemma nul_free_drop n doc : nul_free doc = true → nul_free (drop n doc) = true.
Proof.
  unfold nul_free. rewrite !forallb_forall. intros Hdoc c Hc.
  apply Hdoc. apply list_elem_of_In. apply list_elem_of_In in Hc.
  by apply (subseteq_drop n doc).
Qed.

(** A chunk without NUL is read as it is. *)
Lemma chars_read_nul_free chunk :
  nul_free chunk = true → chars_read chunk = chunk ∧ overrun chunk = false.
Proof.
  intros Hfree. unfold chars_read, overrun.
  rewrite (c_string_nul_free chunk Hfree). split.
  - apply take_ge. lia.
  - apply Nat.ltb_ge. lia.
Qed.

(** A chunk read without leaving the string is read as it is. *)
Lemma chars_read_no_overrun chunk :
  overrun chunk = false → chars_read chunk = chunk.
Proof.
  unfold chars_read, overrun. intros Hover%Nat.ltb_ge.
  apply take_ge. lia.
Qed.

Lemma read_loop_enough erange buffer_size :
  0 < buffer_size →
  ∀ fuel content j,
    length content + 2 ≤ fuel →
    nul_free content = true →
    read_loop erange fuel buffer_size (mkIfstream content true) j
    = Some (parseBuffer erange content j).
Proof.
  intros Hpos. induction fuel as [|fuel IH]; intros content j Hfuel Hfree;
    [lia|].
  cbn [read_loop readBuffer good negb ifstream_read unread].
  destruct (chars_read_nul_free (take buffer_size content)
              (nul_free_take _ _ Hfree)) as [-> ->].
  assert (parseBuffer erange content j
          = parseBuffer erange (take buffer_size content) j
            ≫= parseBuffer erange (drop buffer_size content)) as ->
    by (by rewrite <- parseBuffer_app, take_drop).
  destruct (parseBuffer erange (take buffer_size content) j) as [j'| | |];
    simpl; try reflexivity.
  destruct (Nat.leb_spec buffer_size (length content)) as [Hle|Hgt].
  - apply IH; [rewrite length_drop; lia | by apply nul_free_drop].
  - rewrite drop_ge by lia.
    destruct fuel as [|fuel]; [lia|]. reflexivity.
Qed.

(** What is read of a chunk is a prefix of the file. *)
Lemma chars_read_prefix buffer_size content :
  ∃ rest, content = chars_read (take buffer_size content) ++ rest.
Proof.
  unfold chars_read. rewrite take_take.
  eexists. symmetry. apply take_drop.
Qed.

(** Whatever the file holds, a loop that ends without leaving a string has
    run the parser over the characters of the file. *)
Lemma read_loop_result erange fuel buffer_size :
  ∀ content good j r,
    read_loop erange fuel buffer_size (mkIfstream content good) j = Some r →
    r ≠ StringOverrun →
    parseBuffer erange (if good then content else []) j = r.
Proof.
  induction fuel as [|fuel IH]; intros content good j r Hloop Hr; [done|].
  cbn [read_loop readBuffer negb ifstream_read unread] in Hloop.
  destruct good; simpl in Hloop; [|by simplify_eq].
  destruct (parseBuffer erange (chars_read (take buffer_size content)) j)
    as [j'|e| |] eqn:Hrun.
  - destruct (overrun (take buffer_size content)) eqn:Hover; [by simplify_eq|].
    rewrite (chars_read_no_overrun _ Hover) in Hrun.
    apply IH in Hloop; [|done].
    rewrite <- (take_drop buffer_size content), parseBuffer_app, Hrun.
    simpl. destruct (buffer_size <=? length content) eqn:Hle; [done|].
    apply Nat.leb_gt in Hle. rewrite drop_ge by lia. done.
  - injection Hloop as <-.
    destruct (chars_read_prefix buffer_size content) as [rest Hrest].
    rewrite Hrest, parseBuffer_app, Hrun. done.
  - injection Hloop as <-.
    destruct (chars_read_prefix buffer_size content) as [rest Hrest].
    rewrite Hrest, parseBuffer_app, Hrun. done.
  - by simplify_eq.
Qed.

Lemma Json_ctor_whole erange doc :
  nul_free doc = true →
  Json_ctor erange doc = Some (parse_whole erange doc).
Proof.
  intros Hfree. unfold Json_ctor, parseFile, parse_whole, ifstream_open.
  rewrite read_loop_enough; [done | unfold buffer_size_; lia | lia | done].
Qed.

(** A constructor that returns has run the parser over the whole file. *)
Lemma Json_ctor_ok erange doc res :
  Json_ctor erange doc = Some (Ok res) → parse_whole erange doc = Ok res.
Proof.
  unfold Json_ctor, parseFile, parse_whole, ifstream_open. intros Hctor.
  destruct (read_loop _ _ _ _ _) as [r|] eqn:Hloop; [|done].
  injection Hctor as Hfin.
  apply read_loop_result in Hloop; [by rewrite Hloop|].
  by intros ->.
Qed.

Lemma parse_whole_ext e1 e2 doc :
  (∀ s, e1 s = e2 s) → parse_whole e1 doc = parse_whole e2 doc.
Proof. intros. unfold parse_whole. by rewrite (parseBuffer_ext e1 e2). Qed.

(** C3 on the code: the file [nul_document] holds a NUL between two
    elements.  The parser run on its characters, and the read loop with
    chunks of one character, build the array of [true] and [false]; with
    the chunks of 4096 characters of the constructor the string built from
    the chunk ends at the NUL, and the loop of [parseBuffer] goes on reading
    past its end. *)
Theorem nul_cuts_chunk erange :
  ∃ root h,
    parse_whole erange nul_document = Ok (root, h)
    ∧ parseFile erange (length nul_document + 2) 1
        (ifstream_open (Some nul_document)) = Some (Ok (root, h))
    ∧ Json_at_index root 0 ≫= ptr_to_string h = Ok "true"
    ∧ Json_at_index root 1 ≫= ptr_to_string h = Ok "false"
    ∧ Json_ctor erange nul_document = Some StringOverrun.
Proof.
  eexists _, _. split; [vm_compute; reflexivity|].
  split; [vm_compute; reflexivity|]. by vm_compute.
Qed.

(** X18: for a file without NUL and every positive chunk size, the chunked
    loop of [parseFile] (given enough iterations to reach the end of the
    file) produces exactly the tree, or the failure, that running the parser
    over the whole document produces: the parser state is threaded unchanged
    from one chunk to the next. *)
Theorem chunked_parse_is_whole_parse erange buffer_size fuel doc :
  0 < buffer_size →
  length doc + 2 ≤ fuel →
  nul_free doc = true →
  parseFile erange fuel buffer_size (ifstream_open (Some doc))
  = Some (parse_whole erange doc).
Proof.
  intros Hpos Hfuel Hfree. unfold parseFile, parse_whole, ifstream_open.
  by rewrite read_loop_enough.
Qed.

(** A document cut in chunks of three characters, with boundaries inside a
    quoted key and inside the literal [12.5e2]. *)
Lemma chunked_parse_is_whole_parse_witness :
  parseFile (λ _, false) 20 3 (ifstream_open (Some scenario_C))
  = Some (parse_whole (λ _, false) scenario_C).
Proof.
  apply (chunked_parse_is_whole_parse (λ _, false) 3 20 scenario_C).
  - lia.
  - vm_compute; lia.
  - reflexivity.
Defined.

(** ** Characters the transition function has no rule for *)

Lemma processJson_other erange (c : ascii) (j : Json) :
  isBlank c = false →
  c ≠ ":"%char →
  c ≠ ","%char →
  isOpeningBracket c = false →
  isClosingBracket c = false →
  isNumberPart c = false →
  isBoolPart c = false →
  processJson erange c j = Ok (with_last_symbol c j).
Proof.
  intros Hblank Hcolon Hcomma Hopen Hclose Hnum Hbool.
  assert (ch_eq c ":" = false) as Hc1 by (by apply Ascii.eqb_neq).
  assert (ch_eq c "," = false) as Hc2 by (by apply Ascii.eqb_neq).
  unfold isClosingBracket in Hclose.
  apply orb_false_iff in Hclose as [Hc3 Hc4].
  unfold processJson, value_ends.
  rewrite Hblank, Hc1, Hnum, Hbool, Hc2, Hopen.
  unfold isClosingBracket. rewrite Hc3, Hc4. reflexivity.
Qed.

(** C9, as amended: a character handed to [processJson] that is not white
    space, not [:], not [,], not a bracket and in neither literal alphabet is
    consumed without an error; the stacks, the token buffer, the flags and
    the store are left as they were, and the character is recorded as the
    last symbol seen (which the next comma consults). *)
Theorem other_character_only_recorded erange (c : ascii) (j : Json) :
  isBlank c = false →
  c ≠ ":"%char →
  c ≠ ","%char →
  isOpeningBracket c = false →
  isClosingBracket c = false →
  isNumberPart c = false →
  isBoolPart c = false →
  processJson erange c j = Ok (with_last_symbol c j)
  ∧ brackets_ (with_last_symbol c j) = brackets_ j
  ∧ keys_ (with_last_symbol c j) = keys_ j
  ∧ working_on_ (with_last_symbol c j) = working_on_ j
  ∧ currently_working_on_ (with_last_symbol c j) = currently_working_on_ j
  ∧ text_ (with_last_symbol c j) = text_ j
  ∧ quotes_open (with_last_symbol c j) = quotes_open j
  ∧ processing_bool_ (with_last_symbol c j) = processing_bool_ j
  ∧ processing_number_ (with_last_symbol c j) = processing_number_ j
  ∧ store (with_last_symbol c j) = store j
  ∧ last_symbol_ (with_last_symbol c j) = c.
Proof.
  intros. split; [by apply processJson_other | by repeat split].
Qed.

Lemma other_character_only_recorded_witness :
  processJson (λ _, false) "x" Json_init = Ok (with_last_symbol "x" Json_init).
Proof.
  apply (other_character_only_recorded (λ _, false) "x" Json_init);
    first [reflexivity | discriminate].
Defined.

(** C9, as stated, fails in its last part: the character [x] is consumed
    without an error, but it replaces the closing brace as the last symbol
    seen, so the comma after it is taken as the end of a value and the
    document is rejected, while the same document without [x] is accepted. *)
Lemma stray_character_counterexample :
  (isBlank "x" = false ∧ isValidBracket "x" = false
   ∧ isNumberPart "x" = false ∧ isBoolPart "x" = false)
  ∧ (∃ root h, ∀ erange,
       Json_ctor erange without_stray_character = Some (Ok (root, h)))
  ∧ (∀ erange,
       Json_ctor erange stray_character_document
       = Some (Throw (runtime_error "No key found for value"))).
Proof.
  split; [by vm_compute|]. split.
  - eexists _, _. intros erange. rewrite Json_ctor_whole by reflexivity. vm_compute.
    reflexivity.
  - intros erange. rewrite Json_ctor_whole by reflexivity. by vm_compute.
Qed.

(** Outside quotes the same holds for the loop body of [parseBuffer], the
    quote character excepted. *)
Lemma parseChar_other erange (c : ascii) (j : Json) :
  quotes_open j = false → c ≠ dquote →
  isBlank c = false → c ≠ ":"%char → c ≠ ","%char →
  isOpeningBracket c = false → isClosingBracket c = false →
  isNumberPart c = false → isBoolPart c = false →
  parseChar erange c j = Ok (with_last_symbol c j).
Proof.
  intros Hq Hdq. intros. unfold parseChar.
  assert (ch_eq c dquote = false) as -> by (by apply Ascii.eqb_neq).
  rewrite Hq. by apply processJson_other.
Qed.

(** ** The literal flags *)

Lemma append_text_flags j j' :
  append_text j = Ok j' →
  processing_number_ j' = false ∧ processing_bool_ j' = false.
Proof.
  unfold append_text. intros Hrun.
  apply outcome_bind_ok in Hrun as (cur & _ & Hrun).
  destruct (type_ cur); try discriminate.
  - destruct (keys_ _); simplify_eq/=. unfold store_current; simpl.
    by destruct (currently_working_on_ j).
  - simplify_eq/=. unfold store_current; simpl.
    by destruct (currently_working_on_ j).
Qed.

Lemma close_bracket_flags c j j' :
  close_bracket c j = Ok j' →
  processing_number_ j' = processing_number_ j
  ∧ processing_bool_ j' = processing_bool_ j.
Proof.
  unfold close_bracket. intros Hrun.
  destruct (brackets_ j); [discriminate|].
  destruct (negb _); [discriminate|]. simpl in Hrun.
  destruct (working_on_ j) as [|parent rest]; [discriminate|].
  apply outcome_bind_ok in Hrun as (cur & _ & Hrun).
  destruct (type_ cur); try discriminate.
  - simpl in Hrun. destruct (keys_ j); simplify_eq/=.
    unfold store_current; simpl. by destruct parent.
  - simplify_eq/=. unfold store_current; simpl. by destruct parent.
Qed.

Lemma open_bracket_flags c j :
  processing_number_ (open_bracket c j) = processing_number_ j
  ∧ processing_bool_ (open_bracket c j) = processing_bool_ j.
Proof. unfold open_bracket; simpl. by destruct (currently_working_on_ j). Qed.

Lemma processJson_flags erange c j j' :
  flags_exclusive j → processJson erange c j = Ok j' → flags_exclusive j'.
Proof.
  unfold flags_exclusive, processJson. intros Hex.
  destruct (isBlank c); [intros [= <-]; done|].
  set (j1 := if ch_eq c ":" then _ else j).
  assert (processing_number_ j1 && processing_bool_ j1 = false) as H1
    by (subst j1; by destruct (ch_eq c ":")).
  clearbody j1.
  set (j2 := if isNumberPart c && _ then _ else j1).
  assert (processing_number_ j2 && processing_bool_ j2 = false) as H2.
  { subst j2. destruct (isNumberPart c); simpl; [|done].
    destruct (processing_bool_ j1) eqn:Hb; simpl; rewrite ?Hb; done. }
  clearbody j2.
  set (j3 := if isBoolPart c && _ then _ else j2).
  assert (processing_number_ j3 && processing_bool_ j3 = false) as H3.
  { subst j3. destruct (isBoolPart c); simpl; [|done].
    destruct (processing_number_ j2) eqn:Hn; simpl; rewrite ?Hn; done. }
  clearbody j3.
  intros Hrun.
  apply outcome_bind_ok in Hrun as (j4 & Hrun4 & Hrun).
  apply outcome_bind_ok in Hrun as (j5 & Hrun5 & Hrun).
  simplify_eq/=.
  assert (processing_number_ j4 && processing_bool_ j4 = false) as H4.
  { destruct (value_ends c j3); [|by simplify_eq].
    apply outcome_bind_ok in Hrun4 as (_ & _ & Hrun4).
    apply append_text_flags in Hrun4 as [-> ->]; done. }
  destruct (isOpeningBracket c).
  - simplify_eq. by destruct (open_bracket_flags c j4) as [-> ->].
  - destruct (isClosingBracket c); [|by simplify_eq].
    by apply close_bracket_flags in Hrun5 as [-> ->].
Qed.

Lemma parseChar_flags erange c j j' :
  flags_exclusive j → parseChar erange c j = Ok j' → flags_exclusive j'.
Proof.
  unfold parseChar. intros Hex.
  destruct (ch_eq c dquote), (quotes_open j); try (intros [= <-]; exact Hex).
  by apply processJson_flags.
Qed.

Lemma parseBuffer_flags erange buffer j j' :
  flags_exclusive j → parseBuffer erange buffer j = Ok j' → flags_exclusive j'.
Proof.
  revert j. induction buffer as [|c buffer IH]; simpl; intros j Hex Hrun.
  - by simplify_eq.
  - apply outcome_bind_ok in Hrun as (j1 & H1 & H2).
    eauto using parseChar_flags.
Qed.

Lemma reachable_flags erange j : reachable_state erange j → flags_exclusive j.
Proof. intros [input Hrun]. by eapply parseBuffer_flags in Hrun. Qed.

(** ** Validation of bare literals *)

Lemma terminator_cases (c : ascii) :
  c = ","%char ∨ c = "}"%char ∨ c = "]"%char →
  isBlank c = false ∧ ch_eq c ":" = false ∧ isNumberPart c = false
  ∧ isBoolPart c = false
  ∧ (ch_eq c "," || ch_eq c "}" || ch_eq c "]") = true.
Proof. intros [-> | [-> | ->]]; by vm_compute. Qed.

Lemma processJson_terminator erange c j :
  c = ","%char ∨ c = "}"%char ∨ c = "]"%char →
  processing_number_ j || processing_bool_ j = true →
  processJson erange c j
  = j1 ← (validate_literal erange j ≫= λ _, append_text j);
    j2 ← (if isClosingBracket c then close_bracket c j1 else Ok j1);
    Ok (with_last_symbol c j2).
Proof.
  intros Hc Hflag.
  destruct (terminator_cases c Hc) as (Hb & Hcolon & Hn & Hbo & Hterm).
  unfold processJson.
  rewrite Hb, Hcolon, Hn, Hbo. cbn [andb].
  unfold value_ends. rewrite Hterm, Hflag. cbn [andb]. rewrite orb_true_r.
  assert (isOpeningBracket c = false) as ->
    by (destruct Hc as [-> | [-> | ->]]; by vm_compute).
  done.
Qed.

(** The scenarios on literals, whatever the C library reports on range. *)
Lemma scenario_F_result erange :
  Json_ctor erange scenario_F
  = Some (Throw (runtime_error "Invalid boolean: tru")).
Proof. rewrite Json_ctor_whole by reflexivity. by vm_compute. Qed.

(** C6 on the code: in [[1-2]] the number flag is set when the closing
    bracket ends the literal and the buffered text [1-2] is not a real
    number, yet [std::stod] converts its prefix [1] and throws nothing: the
    text passes [isValidNumber].  Whatever the library reports on range, the
    construction never fails with "Invalid number", and when the library
    reports no range error the construction succeeds and the array holds the
    text [1-2]. *)
Theorem invalid_number_accepted :
  (∀ erange, ∃ j,
     parseBuffer erange (chars "[1-2") Json_init = Ok j
     ∧ processing_number_ j = true ∧ text_ j = "1-2"
     ∧ is_real_literal (text_ j) = false
     ∧ isValidNumber (λ _, false) (text_ j) = Ok true)
  ∧ (∀ erange, ¬ ∃ e, Json_ctor erange (chars "[1-2]") = Some (Throw e)
                      ∧ InvalidNumberLiteral e)
  ∧ (∃ root h, Json_ctor (λ _, false) (chars "[1-2]") = Some (Ok (root, h))
               ∧ Json_at_index root 0 ≫= ptr_to_string h = Ok "1-2").
Proof.
  split; [|split].
  - intros erange. eexists. split; [by vm_compute|]. by vm_compute.
  - intros erange (e & Hrun & t & ->).
    rewrite Json_ctor_whole in Hrun by reflexivity.
    destruct (erange "1-2") eqn:He;
      rewrite (parse_whole_ext _ _ _ (override_ext _ _ _ He)) in Hrun;
      vm_compute in Hrun; discriminate.
  - eexists _, _. split; [vm_compute; reflexivity | by vm_compute].
Qed.

(** X19: when a bare literal is ended by [,], [}] or [']'] in a state the
    parser reaches: a set number flag makes the parse abort with "Invalid
    number" and the buffered text whenever [std::stod] finds no numeric
    prefix in it; a set boolean flag makes the parse abort with "Invalid
    boolean" and the text whenever the text is neither [true] nor [false];
    and a number text in which [std::stod] finds a prefix within range, or a
    boolean text that is [true] or [false], goes on to [append_text], which
    stores the buffered text as it is. *)
Theorem literal_validated erange (c : ascii) (j : Json) :
  reachable_state erange j →
  c = ","%char ∨ c = "}"%char ∨ c = "]"%char →
  (processing_number_ j = true → strtod_converts (text_ j) = false →
   processJson erange c j
   = Throw (runtime_error ("Invalid number: " +:+ text_ j)))
  ∧ (processing_bool_ j = true → isValidBool (text_ j) = false →
     processJson erange c j
     = Throw (runtime_error ("Invalid boolean: " +:+ text_ j)))
  ∧ ((processing_number_ j = true ∧ strtod_converts (text_ j) = true
      ∧ erange (text_ j) = false)
     ∨ (processing_bool_ j = true ∧ isValidBool (text_ j) = true) →
     processJson erange c j
     = j1 ← append_text j;
       j2 ← (if isClosingBracket c then close_bracket c j1 else Ok j1);
       Ok (with_last_symbol c j2)).
Proof.
  intros Hreach Hc. apply reachable_flags in Hreach.
  unfold flags_exclusive in Hreach. repeat split.
  - intros Hn Hconv. rewrite processJson_terminator by (by rewrite ?Hn).
    unfold validate_literal, number_invalid, isValidNumber, stod.
    by rewrite Hn, Hconv.
  - intros Hb Hvalid.
    rewrite processJson_terminator by (by rewrite ?Hb, ?orb_true_r).
    rewrite Hb, andb_true_r in Hreach.
    unfold validate_literal, number_invalid. by rewrite Hreach, Hb, Hvalid.
  - intros [(Hn & Hconv & Hrange) | (Hb & Hvalid)].
    + rewrite processJson_terminator by (by rewrite ?Hn).
      rewrite Hn in Hreach. simpl in Hreach.
      unfold validate_literal, number_invalid, isValidNumber, stod.
      by rewrite Hn, Hconv, Hrange, Hreach.
    + rewrite processJson_terminator by (by rewrite ?Hb, ?orb_true_r).
      rewrite Hb, andb_true_r in Hreach.
      unfold validate_literal, number_invalid.
      by rewrite Hreach, Hb, Hvalid.
Qed.

Lemma literal_validated_witness :
  processJson (λ _, false) "]"
    (with_last_symbol "-" (push_char "-"
       (with_processing_number true (open_bracket "[" Json_init))))
  = Throw (runtime_error "Invalid number: -").
Proof.
  refine (proj1 (literal_validated (λ _, false) "]"
    (with_last_symbol "-" (push_char "-"
       (with_processing_number true (open_bracket "[" Json_init)))) _ _)
    eq_refl eq_refl).
  - exists (chars "[-"). vm_compute. reflexivity.
  - right; right; reflexivity.
Defined.

(** ** Scenario D: a trailing comma *)

(** C1, as stated, fails: whatever the library behaviour, the construction
    on [{"a": 1,}] never ends in one of the structural errors. *)
Lemma scenario_D_counterexample :
  ¬ ∃ erange e, Json_ctor erange scenario_D = Some (Throw e)
                ∧ StructuralError e.
Proof.
  intros (erange & e & Hrun & Herr).
  rewrite Json_ctor_whole in Hrun by reflexivity.
  destruct (erange "1") eqn:He;
    rewrite (parse_whole_ext _ _ _ (override_ext _ _ _ He)) in Hrun;
    vm_compute in Hrun; [|discriminate].
  simplify_eq.
  destruct Herr as [(c & l & [=]) | [[[=] | [=]] | [(c & [=]) | [[=] | [=]]]]].
Qed.

(** C1, as amended: the construction on [{"a": 1,}] succeeds; the comma ends
    the value [1], the closing brace finds nothing more to attach, and the
    root is an object whose only key [a] holds the text [1]. *)
Theorem scenario_D_accepted erange :
  erange "1" = false →
  ∃ root h p,
    Json_ctor erange scenario_D = Some (Ok (root, h))
    ∧ type_ root = OBJECT
    ∧ object_data_ root = Some {[ "a" := p ]}
    ∧ Json_at_key root "a" = Ok p
    ∧ ptr_to_string h p = Ok "1".
Proof.
  intros He. eexists _, _, _. split.
  - rewrite Json_ctor_whole by reflexivity.
    rewrite (parse_whole_ext _ _ _ (override_ext _ _ _ He)).
    vm_compute. reflexivity.
  - repeat split; by vm_compute.
Qed.

Lemma scenario_D_accepted_witness :
  ∃ root h p,
    Json_ctor (λ _, false) scenario_D = Some (Ok (root, h))
    ∧ type_ root = OBJECT
    ∧ object_data_ root = Some {[ "a" := p ]}
    ∧ Json_at_key root "a" = Ok p
    ∧ ptr_to_string h p = Ok "1".
Proof. apply (scenario_D_accepted (λ _, false)). reflexivity. Defined.

(** ** Access by key when the container was never allocated *)

(** With an allocated map, an absent key is reported by an exception. *)
Lemma ptr_at_key_absent h a d m key :
  h !! a = Some d → type_ d = OBJECT → object_data_ d = Some m →
  m !! key = None →
  ptr_at_key h (Some a) key
  = Throw (runtime_error ("Key " +:+ key +:+ " not found"))
  ∧ ptr_del_key h (Some a) key
    = Throw (runtime_error ("Key " +:+ key +:+ " not found")).
Proof.
  intros Ha Ht Hm Hkey. unfold ptr_at_key, ptr_del_key, deref. simpl.
  rewrite Ha. simpl. rewrite Ht, Hm, Hkey. done.
Qed.

(** C2 on the code: the object of [[{}]] never received a child, its map
    pointer is still null, and both [operator[]] and [del] call [find]
    through that null pointer instead of throwing "Key k not found". *)
Theorem empty_object_key_access erange :
  ∃ root h p d,
    Json_ctor erange (chars "[{}]") = Some (Ok (root, h))
    ∧ Json_at_index root 0 = Ok p
    ∧ deref h p = Ok d
    ∧ type_ d = OBJECT
    ∧ object_data_ d = None
    ∧ ptr_at_key h p "k" = NullDeref
    ∧ ptr_del_key h p "k" = NullDeref.
Proof.
  eexists _, _, _, _. split.
  - rewrite Json_ctor_whole by reflexivity. vm_compute. reflexivity.
  - repeat split; by vm_compute.
Qed.

(** ** Deletion by index *)

Lemma vector_erase_length {A} (i : nat) (v : list A) :
  i < length v → length (vector_erase i v) = length v - 1.
Proof.
  intros Hi. unfold vector_erase.
  rewrite length_app, length_take, length_drop. lia.
Qed.

Lemma vector_erase_before {A} (i j : nat) (v : list A) :
  j < i → vector_erase i v !! j = v !! j.
Proof.
  intros Hj. unfold vector_erase.
  destruct (decide (i ≤ length v)).
  - rewrite lookup_app_l by (rewrite length_take; lia).
    by rewrite lookup_take_lt.
  - rewrite take_ge, drop_ge, app_nil_r by lia. done.
Qed.

Lemma vector_erase_after {A} (i j : nat) (v : list A) :
  i < j → j < length v → vector_erase i v !! (j - 1) = v !! j.
Proof.
  intros Hij Hj. unfold vector_erase.
  rewrite lookup_app_r by (rewrite length_take; lia).
  rewrite length_take, lookup_drop. f_equal. lia.
Qed.

Lemma vector_erase_single {A} (v : list A) :
  length v = 1 → vector_erase 0 v = [].
Proof. by destruct v as [|x [|y v]]. Qed.



(** ** Equality of handles *)

Lemma ptr_select_stored h a d sel c :
  h !! a = Some d → ptr_select h (Some a) sel = Ok c → stored d sel = Some c.
Proof.
  intros Ha. destruct sel as [key|index]; simpl;
    unfold ptr_at_key, ptr_at_index, deref; rewrite Ha; simpl;
    (destruct (negb _); [done|]).
  - destruct (object_data_ d) as [m|]; [|done]. simpl.
    destruct (m !! key); [|done]. by intros [= ->].
  - destruct (index <? 0)%Z; [done|].
    destruct (array_data_ d) as [v|]; [|done]. simpl.
    destruct (Z.of_nat (length v) <=? index)%Z; [done|].
    unfold vector_at. destruct (v !! Z.to_nat index); [|done].
    by intros [= ->].
Qed.

Lemma Json_select_stored d sel c :
  Json_select d sel = Ok c → stored d sel = Some c.
Proof.
  destruct sel as [key|index]; simpl; unfold Json_at_key, Json_at_index.
  - destruct (object_data_ d) as [m|]; [|done]. simpl.
    destruct (m !! key); [|done]. by intros [= ->].
  - destruct (array_data_ d) as [v|]; [|done]. simpl. unfold out_of_bounds.
    destruct (index <? 0)%Z; [done|]. simpl.
    destruct (Z.of_nat (length v) <=? index)%Z; [done|].
    unfold vector_at. destruct (v !! Z.to_nat index); [|done].
    by intros [= ->].
Qed.

Lemma ptr_del_key_changes h a d key h' b :
  h !! a = Some d → ptr_del_key h (Some a) key = Ok h' →
  h' !! a ≠ Some d ∧ (a ≠ b → h' !! b = h !! b).
Proof.
  intros Ha. unfold ptr_del_key, deref. rewrite Ha. simpl.
  destruct (negb _); [done|].
  destruct (object_data_ d) as [m|] eqn:Hm; [|done].
  destruct (m !! key) as [c|] eqn:Hkey; [|done].
  intros [= <-]. split.
  - rewrite list_lookup_insert_eq by (by eapply lookup_lt_Some).
    intros [= Hd]. rewrite <- Hd in Hm. simpl in Hm.
    injection Hm as Hm. rewrite <- Hm, lookup_delete_eq in Hkey. done.
  - intros Hne. by rewrite list_lookup_insert_ne.
Qed.

(** C7: [operator==] holds exactly when the two handles hold the same
    pointer.  The comparison is not structural: two blocks with the same
    content behind different pointers compare unequal, and they are two
    nodes, a deletion through one handle changes its block and leaves the
    other as it was.  A subscript, on a handle or on the [Json] object,
    returns the very handle the container of the block holds for the key or
    at the index, so that reading the same key or index again, either way,
    gives handles that compare equal and convert to the same text. *)
Theorem handle_equality_is_identity (h : heap) (p q : JsonDataPtr)
    (a b : nat) (d : JsonData) (sel : selector) (c1 c2 : JsonDataPtr) :
  h !! a = Some d →
  (ptr_eq p q = true ↔ p = q)
  ∧ (a ≠ b → h !! b = Some d →
     ptr_eq (Some a) (Some b) = false
     ∧ ∀ key h', ptr_del_key h (Some a) key = Ok h' →
                 h' !! a ≠ Some d ∧ h' !! b = Some d)
  ∧ (ptr_select h (Some a) sel = Ok c1 → stored d sel = Some c1)
  ∧ (Json_select d sel = Ok c2 → stored d sel = Some c2)
  ∧ (ptr_select h (Some a) sel = Ok c1 ∨ Json_select d sel = Ok c1 →
     ptr_select h (Some a) sel = Ok c2 ∨ Json_select d sel = Ok c2 →
     ptr_eq c1 c2 = true ∧ ptr_to_string h c1 = ptr_to_string h c2).
Proof.
  intros Ha. split; [|split; [|split; [|split]]].
  - unfold ptr_eq. apply bool_decide_eq_true.
  - intros Hne Hb. split.
    + unfold ptr_eq. apply bool_decide_eq_false. by intros [= ->].
    + intros key h' Hdel.
      destruct (ptr_del_key_changes h a d key h' b Ha Hdel) as [Hchanged Hkept].
      split; [done|]. by rewrite Hkept.
  - by apply ptr_select_stored.
  - by apply Json_select_stored.
  - intros H1 H2.
    assert (∀ c, ptr_select h (Some a) sel = Ok c ∨ Json_select d sel = Ok c →
                 stored d sel = Some c) as Hstored.
    { intros c [Hc | Hc];
        [by eapply ptr_select_stored | by apply Json_select_stored]. }
    apply Hstored in H1, H2.
    assert (c1 = c2) as -> by congruence.
    split; [by apply bool_decide_eq_true | done].
Qed.

(** Equality is not structural: the two elements of [[1, 1]] hold the same
    text in two blocks, and their handles differ. *)
Lemma equal_text_distinct_handles erange :
  erange "1" = false →
  ∃ root h p q,
    Json_ctor erange (chars "[1, 1]") = Some (Ok (root, h))
    ∧ Json_at_index root 0 = Ok p ∧ Json_at_index root 1 = Ok q
    ∧ ptr_to_string h p = Ok "1" ∧ ptr_to_string h q = Ok "1"
    ∧ ptr_eq p q = false.
Proof.
  intros He. eexists _, _, _, _. split.
  - rewrite Json_ctor_whole by reflexivity.
    rewrite (parse_whole_ext _ _ _ (override_ext _ _ _ He)).
    vm_compute. reflexivity.
  - repeat split; by vm_compute.
Qed.

(** Reading index 1 of the root of scenario A, through a handle and
    through the [Json] object. *)
Lemma handle_equality_is_identity_witness :
  ptr_eq (Some 3) (Some 3) = true
  ∧ ptr_to_string
      [mkJsonData "" ARRAY "" None (Some [Some 1]);
       mkJsonData "" ARRAY "" None (Some [Some 2; Some 3; Some 4]);
       mkJsonData "" STRING "1" None None;
       mkJsonData "" STRING "2" None None;
       mkJsonData "" STRING "3" None None] (Some 3)
    = ptr_to_string
        [mkJsonData "" ARRAY "" None (Some [Some 1]);
         mkJsonData "" ARRAY "" None (Some [Some 2; Some 3; Some 4]);
         mkJsonData "" STRING "1" None None;
         mkJsonData "" STRING "2" None None;
         mkJsonData "" STRING "3" None None] (Some 3).
Proof.
  refine (proj2 (proj2 (proj2 (proj2 (handle_equality_is_identity
    [mkJsonData "" ARRAY "" None (Some [Some 1]);
     mkJsonData "" ARRAY "" None (Some [Some 2; Some 3; Some 4]);
     mkJsonData "" STRING "1" None None;
     mkJsonData "" STRING "2" None None;
     mkJsonData "" STRING "3" None None]
    None None 1 1
    (mkJsonData "" ARRAY "" None (Some [Some 2; Some 3; Some 4]))
    (Index 1) (Some 3) (Some 3) eq_refl))))
    (or_introl eq_refl) (or_intror eq_refl)).
Defined.

(** ** No block of a finished tree is left uninitialised *)

Lemma all_typed_insert (h : heap) a d :
  all_typed h → typed d → all_typed (<[a := d]> h).
Proof.
  unfold all_typed. intros Hh Hd.
  destruct (decide (a < length h)) as [Hlt|Hge].
  - by apply Forall_insert.
  - by rewrite list_insert_ge by lia.
Qed.

Lemma all_typed_lookup (h : heap) a d :
  all_typed h → h !! a = Some d → typed d.
Proof. unfold all_typed. intros Hh Ha. by eapply Forall_lookup_1 in Hh. Qed.

Lemma deref_lookup h p d :
  deref h p = Ok d → ∃ a, p = Some a ∧ h !! a = Some d.
Proof.
  unfold deref. destruct p as [a|]; [|done].
  destruct (h !! a) eqn:Ha; [|done]. intros [= ->]. eauto.
Qed.

(** A block that is allocated and then given its type in place. *)
Lemma alloc_insert (h : heap) d :
  <[length h := d]> (h ++ [JsonData_default]) = h ++ [d].
Proof. by rewrite insert_app_r_alt, Nat.sub_diag by lia. Qed.

Lemma alloc_typed (h : heap) d :
  all_typed h → typed d →
  all_typed (<[length h := d]> (h ++ [JsonData_default])).
Proof.
  intros Hh Hd. rewrite alloc_insert.
  apply Forall_app. split; [done|]. by repeat constructor.
Qed.

Lemma new_block_typed t s j a j' :
  t ≠ UNINIT → new_block t s j = (a, j') →
  all_typed (store j) → all_typed (store j').
Proof.
  unfold new_block, make_shared. intros Ht [= <- <-] Hh. simpl.
  by apply alloc_typed.
Qed.

Lemma store_current_typed d j :
  typed d → all_typed (store j) → all_typed (store (store_current d j)).
Proof.
  unfold store_current. intros Hd Hh.
  destruct (currently_working_on_ j); [|done]. simpl.
  by apply all_typed_insert.
Qed.

Lemma append_text_typed j j' :
  append_text j = Ok j' → all_typed (store j) → all_typed (store j').
Proof.
  unfold append_text. intros Hrun Hh.
  apply outcome_bind_ok in Hrun as (cur & Hcur & Hrun).
  destruct (type_ cur) eqn:Ht; try discriminate.
  - destruct (keys_ _) as [|key keys]; [discriminate|].
    destruct (new_block STRING _ _) as [a j1] eqn:Hnew.
    injection Hrun as <-. simpl.
    apply store_current_typed.
    + unfold typed, object_insert. simpl. by rewrite Ht.
    + by eapply new_block_typed in Hnew.
  - destruct (new_block STRING _ _) as [a j1] eqn:Hnew.
    injection Hrun as <-. simpl.
    apply store_current_typed.
    + unfold typed, array_push_back. simpl. by rewrite Ht.
    + by eapply new_block_typed in Hnew.
Qed.

Lemma open_bracket_typed c j :
  all_typed (store j) → all_typed (store (open_bracket c j)).
Proof.
  intros Hh. unfold open_bracket, make_shared. simpl.
  assert (typed (set_type (if ch_eq c "{" then OBJECT else ARRAY)
                   JsonData_default)) as Hnew
    by (unfold typed; simpl; by destruct (ch_eq c "{")).
  destruct (currently_working_on_ j); simpl; by apply alloc_typed.
Qed.

Lemma close_bracket_typed c j j' :
  close_bracket c j = Ok j' → all_typed (store j) → all_typed (store j').
Proof.
  unfold close_bracket. intros Hrun Hh.
  destruct (brackets_ j); [discriminate|].
  destruct (negb _); [discriminate|]. simpl in Hrun.
  destruct (working_on_ j) as [|parent rest]; [discriminate|].
  apply outcome_bind_ok in Hrun as (cur & Hcur & Hrun).
  destruct (type_ cur) eqn:Ht; try discriminate.
  - simpl in Hrun. destruct (keys_ j); [discriminate|].
    injection Hrun as <-. apply store_current_typed; [|done].
    unfold typed, object_insert. simpl. by rewrite Ht.
  - injection Hrun as <-. apply store_current_typed; [|done].
    unfold typed, array_push_back. simpl. by rewrite Ht.
Qed.

Lemma processJson_typed erange c j j' :
  processJson erange c j = Ok j' →
  all_typed (store j) → all_typed (store j').
Proof.
  unfold processJson. intros Hrun Hh.
  destruct (isBlank c); [by simplify_eq|].
  set (j3 := if isBoolPart c && _ then _ else _) in Hrun.
  assert (store j3 = store j) as Hst.
  { subst j3. by repeat (case_match; simpl). }
  rewrite <- Hst in Hh. clearbody j3.
  apply outcome_bind_ok in Hrun as (j4 & Hrun4 & Hrun).
  apply outcome_bind_ok in Hrun as (j5 & Hrun5 & Hrun).
  injection Hrun as <-. simpl.
  assert (all_typed (store j4)) as H4.
  { destruct (value_ends c j3); [|by simplify_eq].
    apply outcome_bind_ok in Hrun4 as (_ & _ & Hrun4).
    by eapply append_text_typed. }
  destruct (isOpeningBracket c).
  - injection Hrun5 as <-. by apply open_bracket_typed.
  - destruct (isClosingBracket c); [|by simplify_eq].
    by eapply close_bracket_typed.
Qed.

Lemma parseBuffer_typed erange buffer j j' :
  parseBuffer erange buffer j = Ok j' →
  all_typed (store j) → all_typed (store j').
Proof.
  revert j. induction buffer as [|c buffer IH]; simpl; intros j Hrun Hh.
  - by simplify_eq.
  - apply outcome_bind_ok in Hrun as (j1 & H1 & H2).
    apply (IH j1 H2). unfold parseChar in H1.
    destruct (ch_eq c dquote), (quotes_open j); simplify_eq/=; try done.
    by eapply processJson_typed.
Qed.

Lemma read_loop_typed erange fuel buffer_size f j j' :
  read_loop erange fuel buffer_size f j = Some (Ok j') →
  all_typed (store j) → all_typed (store j').
Proof.
  revert f j. induction fuel as [|fuel IH]; intros f j; [done|]. simpl.
  destruct (readBuffer buffer_size f) as [[[] buffer] f'].
  - destruct (parseBuffer erange (chars_read buffer) j) as [j1| | |] eqn:Hrun;
      try done.
    destruct (overrun buffer); [done|].
    intros Hloop Hh. apply (IH _ _ Hloop).
    by eapply parseBuffer_typed.
  - by intros [= <-].
Qed.

Lemma reachable_typed h root d :
  all_typed h → typed root → reachable_from h root d → typed d.
Proof.
  intros Hh Hroot Hreach.
  induction Hreach as [|x y z (a & _ & Ha) _ IH]; [done|].
  apply IH. by eapply all_typed_lookup.
Qed.

(** C8: when [parseFile] succeeds, the exposed root and every block
    reachable from it through the containers has type STRING, OBJECT or
    ARRAY. *)
Theorem finished_tree_initialised erange fuel buffer_size f root h d :
  parseFile erange fuel buffer_size f = Some (Ok (root, h)) →
  reachable_from h root d →
  type_ d = STRING ∨ type_ d = OBJECT ∨ type_ d = ARRAY.
Proof.
  unfold parseFile. intros Hparse Hreach.
  destruct (read_loop _ _ _ _ _) as [[j| | |]|] eqn:Hloop; try done.
  apply read_loop_typed in Hloop; [|by repeat constructor].
  injection Hparse as Hfin. simpl in Hfin. unfold finish in Hfin.
  destruct (brackets_ j); [|done].
  apply outcome_bind_ok in Hfin as (cur & Hcur & Hfin).
  destruct (array_data_ cur) as [v|]; [|done].
  apply outcome_bind_ok in Hfin as (first & Hfirst & Hfin).
  apply outcome_bind_ok in Hfin as (root' & Hroot & Hfin).
  injection Hfin as <- <-.
  apply deref_lookup in Hroot as (a & _ & Ha).
  assert (typed d) as Hd.
  { eapply reachable_typed; [done| |done]. by eapply all_typed_lookup. }
  unfold typed in Hd. destruct (type_ d); auto. done.
Qed.

(** On scenario A the root is the array and its second element is
    reachable. *)
Lemma finished_tree_initialised_witness :
  type_ (mkJsonData "" STRING "2" None None) = STRING
  ∨ type_ (mkJsonData "" STRING "2" None None) = OBJECT
  ∨ type_ (mkJsonData "" STRING "2" None None) = ARRAY.
Proof.
  eapply (finished_tree_initialised (λ _, false) 11 4
            (ifstream_open (Some scenario_A))).
  - vm_compute. reflexivity.
  - eapply rtc_l; [|apply rtc_refl].
    exists 3. split; [|reflexivity].
    right. exists [Some 2; Some 3; Some 4], 1. split; reflexivity.
Defined.

(** ** Correctness of the parser on well-formed documents *)

(** *** Strings and characters *)

Lemma append_cons (c : ascii) (s1 s2 : string) :
  String c s1 +:+ s2 = String c (s1 +:+ s2).
Proof. done. Qed.

Lemma append_empty_r (s : string) : s +:+ "" = s.
Proof. induction s as [|c s IH]; [done|]. by rewrite append_cons, IH. Qed.

Lemma append_assoc (s1 s2 s3 : string) :
  (s1 +:+ s2) +:+ s3 = s1 +:+ (s2 +:+ s3).
Proof.
  induction s1 as [|c s1 IH]; [done|]. by rewrite !append_cons, IH.
Qed.

Lemma chars_append (s1 s2 : string) : chars (s1 +:+ s2) = chars s1 ++ chars s2.
Proof.
  induction s1 as [|c s1 IH]; [done|]. rewrite append_cons. simpl.
  by rewrite IH.
Qed.

Lemma chars_quoted (s : string) :
  chars (quoted s) = dquote :: chars s ++ [dquote].
Proof. unfold quoted. simpl. by rewrite chars_append. Qed.

Lemma render_cons t ts : render (t :: ts) = token_chars t ++ render ts.
Proof. done. Qed.

Lemma render_single t : render [t] = token_chars t.
Proof. unfold render. simpl. apply app_nil_r. Qed.

Lemma render_app ts1 ts2 : render (ts1 ++ ts2) = render ts1 ++ render ts2.
Proof. unfold render. apply bind_app. Qed.

Lemma number_char_class (c : ascii) :
  isNumberPart c = true →
  isBlank c = false ∧ ch_eq c dquote = false ∧ ch_eq c ":" = false
  ∧ ch_eq c "," = false ∧ isOpeningBracket c = false
  ∧ isClosingBracket c = false.
Proof.
  destruct c as [[] [] [] [] [] [] [] []]; vm_compute; intros; done.
Qed.

Lemma blank_char_class (c : ascii) :
  isBlank c = true → ch_eq c dquote = false.
Proof.
  destruct c as [[] [] [] [] [] [] [] []]; vm_compute; intros; done.
Qed.

Lemma terminator_class (c : ascii) :
  terminator c →
  isBlank c = false ∧ ch_eq c dquote = false ∧ ch_eq c ":" = false
  ∧ isNumberPart c = false ∧ isBoolPart c = false
  ∧ isOpeningBracket c = false
  ∧ (ch_eq c "," || ch_eq c "}" || ch_eq c "]") = true
  ∧ isClosingBracket c = negb (ch_eq c ",").
Proof. intros [-> | [-> | ->]]; by vm_compute. Qed.

(** *** Single steps *)

Lemma parseBuffer_single erange c j :
  parseBuffer erange [c] j = parseChar erange c j.
Proof. simpl. by destruct (parseChar erange c j). Qed.

Lemma parseBuffer_cons_ok erange c rest j j' :
  parseChar erange c j = Ok j' →
  parseBuffer erange (c :: rest) j = parseBuffer erange rest j'.
Proof. simpl. by intros ->. Qed.

Lemma run_blanks erange ws j :
  Forall (λ c, isBlank c = true) ws → quotes_open j = false →
  parseBuffer erange ws j = Ok j.
Proof.
  intros Hws Hq. induction Hws as [|c ws Hc _ IH]; [done|].
  rewrite (parseBuffer_cons_ok _ _ _ _ j); [done|].
  unfold parseChar, processJson.
  by rewrite (blank_char_class c Hc), Hq, Hc.
Qed.

Lemma run_in_quotes erange s j :
  quotes_open j = true → no_dquote s = true →
  parseBuffer erange (chars s ++ [dquote]) j
  = Ok (with_quotes_open false (with_text (text_ j +:+ s) j)).
Proof.
  revert j. induction s as [|c s IH]; intros j Hq Hs.
  - simpl. unfold parseChar. rewrite Hq. simpl.
    rewrite append_empty_r. by destruct j.
  - unfold no_dquote in Hs. simpl in Hs.
    apply andb_true_iff in Hs as [Hc Hs].
    apply negb_true_iff in Hc.
    change (chars (String c s) ++ [dquote])
      with (c :: (chars s ++ [dquote])).
    rewrite (parseBuffer_cons_ok _ _ _ _ (push_char c j))
      by (unfold parseChar; by rewrite Hc, Hq).
    rewrite IH by done. unfold push_char. simpl.
    rewrite append_assoc. simpl. by destruct j.
Qed.

(** A quoted text leaves its content in the token buffer. *)
Lemma run_quoted erange s j :
  quotes_open j = false → no_dquote s = true →
  parseBuffer erange (chars (quoted s)) j = Ok (with_text s j).
Proof.
  intros Hq Hs. rewrite chars_quoted.
  rewrite (parseBuffer_cons_ok _ _ _ _
             (with_quotes_open true (with_text "" j)))
    by (unfold parseChar; by rewrite Hq).
  rewrite run_in_quotes by done.
  destruct j; simpl in *; by subst.
Qed.

Lemma step_number_char erange c j :
  isNumberPart c = true → quotes_open j = false →
  processing_bool_ j = false →
  parseChar erange c j
  = Ok (with_last_symbol c (push_char c (with_processing_number true j))).
Proof.
  intros Hc Hq Hb.
  destruct (number_char_class c Hc) as (H1 & H2 & H3 & H4 & H5 & H6).
  unfold parseChar. rewrite H2, Hq. unfold processJson.
  rewrite H1, H3, Hc, Hb. cbn [negb andb].
  unfold value_ends. rewrite H4, H5, H6. cbn [negb andb orb].
  unfold isClosingBracket in H6. apply orb_false_iff in H6 as [-> ->].
  cbn [processing_number_ push_char with_text with_processing_number].
  by rewrite andb_false_r.
Qed.

(** A non-empty text over the number alphabet is buffered with the number
    flag set; the last symbol seen is one of its characters. *)
Lemma run_number erange c t j :
  forallb isNumberPart (chars (String c t)) = true →
  quotes_open j = false → processing_bool_ j = false →
  ∃ ls, isClosingBracket ls = false
    ∧ parseBuffer erange (chars (String c t)) j
      = Ok (with_last_symbol ls
              (with_text (text_ j +:+ String c t)
                 (with_processing_number true j))).
Proof.
  revert c j. induction t as [|c' t IH]; intros c j Hall Hq Hb;
    simpl in Hall; apply andb_true_iff in Hall as [Hc Hall].
  - exists c. split; [apply (number_char_class c Hc)|].
    change (chars (String c "")) with [c].
    rewrite parseBuffer_single. by apply step_number_char.
  - change (chars (String c (String c' t)))
      with (c :: chars (String c' t)).
    rewrite (parseBuffer_cons_ok _ _ _ _ _ (step_number_char _ _ _ Hc Hq Hb)).
    destruct (IH c' (with_last_symbol c
                       (push_char c (with_processing_number true j))))
      as (ls & Hls & ->); [done..|].
    exists ls. split; [done|]. unfold push_char. simpl.
    rewrite append_assoc. by destruct j.
Qed.

(** [true] and [false] are buffered with the boolean flag set. *)
Lemma run_bool erange t j :
  isValidBool t = true → ready j →
  parseBuffer erange (chars t) j
  = Ok (with_last_symbol "e"
          (with_text t (with_processing_bool true j))).
Proof.
  intros Ht (Hq & Htx & Hb & Hn & _).
  destruct j; simpl in *; subst.
  apply orb_true_iff in Ht as [Ht | Ht]; apply String.eqb_eq in Ht as ->;
    reflexivity.
Qed.

(** *** Values and their representation in the store *)

Lemma value_nested_ind (P : value → Prop) :
  (∀ s, P (Str s)) →
  (∀ t, P (Lit t)) →
  (∀ vs, Forall P vs → P (Arr vs)) →
  (∀ kvs, Forall P (map snd kvs) → P (Obj kvs)) →
  ∀ v, P v.
Proof.
  intros Hstr Hlit Harr Hobj. fix IH 1.
  intros [s|t|vs|kvs]; [apply Hstr | apply Hlit | apply Harr | apply Hobj].
  - induction vs as [|v vs IHvs]; constructor; [apply IH | exact IHvs].
  - induction kvs as [|[k v] kvs IHkvs]; constructor; [apply IH | exact IHkvs].
Qed.

Lemma Forall2_transport {A B} (R R' : A → B → Prop) (xs : list A)
    (ys : list B) :
  Forall (λ y, ∀ x, R x y → R' x y) ys → Forall2 R xs ys → Forall2 R' xs ys.
Proof.
  intros Hall H2. induction H2 as [|x y xs ys Hxy _ IH]; [constructor|].
  inversion_clear Hall. constructor; auto.
Qed.

(** A representation only depends on the blocks from [lo] on. *)
Lemma represents_transport h h' lo lo' v :
  lo' ≤ lo → stable lo h h' →
  ∀ p, represents h lo p v → represents h' lo' p v.
Proof.
  intros Hlo Hst. induction v as [s|t|vs IH|kvs IH] using value_nested_ind;
    intros p Hrep; inversion Hrep; subst.
  - eapply represents_str; eauto with lia.
  - eapply represents_lit; eauto with lia.
  - eapply represents_arr; eauto with lia.
    eapply Forall2_transport; eauto.
  - eapply represents_obj; eauto with lia.
    eapply Forall2_transport; eauto.
Qed.

Lemma represents_weaken h lo lo' p v :
  lo' ≤ lo → represents h lo p v → represents h lo' p v.
Proof.
  intros Hlo. apply represents_transport; [done|]. by intros b x _.
Qed.

Lemma Forall2_represents_transport h h' lo lo' ps vs :
  lo' ≤ lo → stable lo h h' →
  Forall2 (represents h lo) ps vs → Forall2 (represents h' lo') ps vs.
Proof.
  intros Hlo Hst Hall. eapply Forall2_impl; [done|].
  intros p v. by apply represents_transport.
Qed.

(** *** Attaching a value to a container *)

Lemma accepts_lt j a d : accepts j a d → a < length (store j).
Proof. intros (_ & Ha & _). by eapply lookup_lt_Some. Qed.

Lemma append_text_attach j a d :
  accepts j a d → append_text j = Ok (attach_text a d j).
Proof.
  intros (Hcur & Ha & Hty). unfold append_text, attach_text, attach.
  cbn [store with_processing_bool with_processing_number
       currently_working_on_]. rewrite Hcur. unfold deref. rewrite Ha.
  cbn [mbind outcome_bind].
  destruct Hty as [Hty | [Hty Hkeys]]; rewrite Hty.
  - unfold new_block, make_shared. cbn [store fst snd].
    rewrite alloc_insert. unfold store_current. simpl. rewrite Hcur.
    by destruct j.
  - simpl. destruct (keys_ j) as [|key keys] eqn:Hk; [done|].
    unfold new_block, make_shared. cbn [store with_keys fst snd].
    rewrite alloc_insert. unfold store_current. simpl. rewrite Hcur.
    destruct j; simpl in *. by subst.
Qed.

Lemma attach_text_attached j jp a d t v :
  scalar_text v = Some t →
  accepts j a d → pending j t jp →
  attached j a d v (attach_text a d jp).
Proof.
  intros Hv Hacc (Hst & Hk & Hb & Hw & Hc & Hq & Ht).
  pose proof (accepts_lt _ _ _ Hacc) as Hlt.
  destruct Hacc as (Hcur & Ha & Hty).
  unfold attached, attach_text. simpl. rewrite Hst, Hk, Hb, Hw, Ht.
  assert ((<[a := (attach (Some (length (store j))) (keys_ j) d).1]>
             (store j ++ [text_block t])) !! length (store j)
          = Some (text_block t)) as Hnew.
  { rewrite list_lookup_insert_ne by lia.
    by rewrite lookup_app_r, Nat.sub_diag by lia. }
  repeat split; try done.
  - destruct v; simplify_eq/=.
    + by eapply represents_str.
    + by eapply represents_lit.
  - apply list_lookup_insert_eq. rewrite length_app. lia.
  - intros b Hb1 Hb2. rewrite list_lookup_insert_ne by done.
    by rewrite lookup_app_l by lia.
  - rewrite length_insert, length_app. simpl. lia.
  - by rewrite Hc.
Qed.

Lemma processJson_at_terminator erange c j :
  terminator c →
  processJson erange c j
  = (if value_ends c j then validate_literal erange j ≫= λ _, append_text j
     else Ok j) ≫= after c.
Proof.
  intros Hc.
  destruct (terminator_class c Hc) as (H1 & _ & H3 & H4 & H5 & H6 & _).
  unfold processJson, after. rewrite H1, H3, H4, H5, H6. cbn [andb].
  done.
Qed.

(** With nothing buffered a terminator only closes or separates. *)
Lemma processJson_nothing_pending erange c j :
  terminator c → text_ j = "" →
  processing_bool_ j = false → processing_number_ j = false →
  (c = ","%char → isClosingBracket (last_symbol_ j) = true) →
  processJson erange c j = after c j.
Proof.
  intros Hc Ht Hb Hn Hcomma. rewrite processJson_at_terminator by done.
  assert (value_ends c j = false) as ->; [|done].
  unfold value_ends. rewrite Ht, Hb, Hn. simpl.
  rewrite !andb_false_r, orb_false_r.
  destruct Hc as [-> | [-> | ->]]; [|done..].
  simpl. by rewrite Hcomma.
Qed.

(** A buffered scalar is attached by the terminator that follows it. *)
Lemma scalar_attached erange c j jp a d t v :
  terminator c → scalar_text v = Some t →
  accepts j a d → pending j t jp →
  value_ends c jp = true → validate_literal erange jp = Ok () →
  ∃ j', attached j a d v j' ∧ processJson erange c jp = after c j'.
Proof.
  intros Hc Hv Hacc Hpend Hends Hvalid.
  exists (attach_text a d jp). split.
  - by eapply attach_text_attached.
  - rewrite processJson_at_terminator, Hends, Hvalid by done. simpl.
    rewrite (append_text_attach jp a d); [done|].
    destruct Hpend as (Hst & Hk & _ & _ & Hcur & _).
    destruct Hacc as (Hc1 & Ha & Hty).
    unfold accepts. by rewrite Hst, Hk, Hcur.
Qed.

(** *** Scalars *)

Lemma parseChar_terminator erange c j :
  terminator c → quotes_open j = false →
  parseChar erange c j = processJson erange c j.
Proof.
  intros Hc Hq. destruct (terminator_class c Hc) as (_ & H2 & _).
  unfold parseChar. by rewrite H2, Hq.
Qed.

Lemma str_spec erange s : no_dquote s = true → value_spec erange (Str s).
Proof.
  intros Hs c j a d Hc Hempty Hready Hacc.
  destruct Hready as (Hq & Ht & Hb & Hn & Hls).
  assert (pending j s (with_text s j)) as Hpend by done.
  destruct (scalar_attached erange c j (with_text s j) a d s (Str s))
    as (j' & Hatt & Hrun); try done.
  - unfold value_ends. simpl. rewrite Hls, Hb, Hn. simpl.
    destruct Hc as [-> | Hc]; [done|].
    assert (String.eqb s "" = false) as ->.
    { destruct (String.eqb s "") eqn:He; [|done].
      specialize (Hempty He). destruct Hc; by subst. }
    simpl. destruct Hc as [-> | ->]; done.
  - unfold validate_literal, number_invalid. simpl. by rewrite Hb, Hn.
  - exists j'. split; [done|].
    cbn [tokens]. rewrite render_single, parseBuffer_app. cbn [token_chars].
    rewrite run_quoted by done. cbn [mbind outcome_bind].
    by rewrite parseBuffer_single, parseChar_terminator.
Qed.

Lemma lit_spec erange t : literal_ok erange t = true → value_spec erange (Lit t).
Proof.
  intros Ht c j a d Hc _ Hready Hacc.
  pose proof Hready as (Hq & Htx & Hb & Hn & Hls).
  destruct (terminator_class c Hc) as (_ & _ & _ & _ & _ & _ & Hterm & _).
  cbn [tokens]. rewrite render_single, parseBuffer_app. cbn [token_chars].
  destruct (isValidBool t) eqn:Hbool.
  - rewrite run_bool by done. cbn [mbind outcome_bind].
    rewrite parseBuffer_single, parseChar_terminator by done.
    eapply scalar_attached; try done.
    + unfold value_ends. simpl. by rewrite Hterm, !orb_true_r.
    + unfold validate_literal, number_invalid. simpl. by rewrite Hn, Hbool.
  - unfold literal_ok in Ht. rewrite Hbool in Ht. simpl in Ht.
    unfold number_ok in Ht.
    apply andb_true_iff in Ht as [Ht Hrange].
    apply andb_true_iff in Ht as [Ht Hconv].
    apply andb_true_iff in Ht as [Hne Hchars].
    destruct t as [|c0 t]; [done|].
    destruct (run_number erange c0 t j Hchars Hq Hb) as (ls & Hlsc & ->).
    cbn [mbind outcome_bind].
    rewrite parseBuffer_single, parseChar_terminator by done.
    rewrite Htx. change ("" +:+ String c0 t) with (String c0 t).
    eapply scalar_attached; try done.
    + unfold value_ends. simpl. by rewrite Hterm, !orb_true_r.
    + unfold validate_literal, number_invalid, isValidNumber, stod. simpl.
      apply negb_true_iff in Hrange. rewrite Hconv, Hrange. simpl.
      by rewrite Hb.
Qed.

(** *** Brackets *)

Lemma step_open erange c j :
  c = "["%char ∨ c = "{"%char → ready j →
  parseChar erange c j = Ok (with_last_symbol c (open_bracket c j)).
Proof.
  intros Hc (Hq & Ht & Hb & Hn & _).
  destruct j; simpl in *; subst. by destruct Hc as [-> | ->].
Qed.

Lemma open_bracket_fields c j a :
  c = "["%char ∨ c = "{"%char → ready j →
  currently_working_on_ j = Some a →
  let j1 := with_last_symbol c (open_bracket c j) in
  ready j1
  ∧ currently_working_on_ j1 = Some (length (store j))
  ∧ store j1 = store j ++ [container_block c]
  ∧ brackets_ j1 = c :: brackets_ j
  ∧ working_on_ j1 = Some a :: working_on_ j
  ∧ keys_ j1 = keys_ j.
Proof.
  intros Hc (Hq & Ht & Hb & Hn & _) Hcur. unfold open_bracket, make_shared.
  simpl. rewrite Hcur. simpl. rewrite alloc_insert.
  repeat split; try done. by destruct Hc as [-> | ->].
Qed.

Lemma close_bracket_attach c o B W j a d :
  brackets_ j = o :: B → sameBracketType c o = true →
  working_on_ j = Some a :: W →
  store j !! a = Some d →
  type_ d = ARRAY ∨ (type_ d = OBJECT ∧ keys_ j ≠ []) →
  close_bracket c j = Ok (attach_current c a d j).
Proof.
  intros Hbr Hsame Hwo Ha Hty. unfold close_bracket, attach_current, attach.
  destruct j; simpl in *; subst. rewrite Hsame. simpl. rewrite Ha. simpl.
  destruct Hty as [-> | [-> Hk]].
  - done.
  - by destruct keys_0.
Qed.

(** *** Containers filled child by child *)

Lemma push_all_type d ps : type_ (push_all d ps) = type_ d.
Proof.
  revert d. induction ps as [|p ps IH]; intros d; [done|].
  simpl. by rewrite IH.
Qed.

Lemma push_all_data d ps :
  array_data_ (push_all d ps)
  = match ps with
    | [] => array_data_ d
    | _ => Some (default [] (array_data_ d) ++ ps)
    end.
Proof.
  revert d. induction ps as [|p ps IH]; intros d; [done|].
  simpl. rewrite IH. destruct ps; simpl; [done|].
  by rewrite <- app_assoc.
Qed.

Lemma insert_all_type d kps : type_ (insert_all d kps) = type_ d.
Proof.
  revert d. induction kps as [|[k p] kps IH]; intros d; [done|].
  simpl. by rewrite IH.
Qed.

Lemma insert_all_data d kps :
  object_data_ (insert_all d kps)
  = match kps with
    | [] => object_data_ d
    | _ => Some (foldl (λ m '(k, p), map_insert k p m)
                   (default ∅ (object_data_ d)) kps)
    end.
Proof.
  revert d. induction kps as [|[k p] kps IH]; intros d; [done|].
  simpl. rewrite IH. by destruct kps.
Qed.

Lemma join_tokens_cons l l' ls :
  join_tokens (l :: l' :: ls) = l ++ TComma :: join_tokens (l' :: ls).
Proof. done. Qed.

Lemma render_element ts rest (c : ascii) :
  render (ts ++ TComma :: rest) ++ [c]
  = (render ts ++ [","%char]) ++ (render rest ++ [c]).
Proof.
  rewrite render_app, render_cons. simpl. by rewrite <- !app_assoc.
Qed.

Lemma built_refl j n d :
  ready j → currently_working_on_ j = Some n → store j !! n = Some d →
  built j n d j.
Proof. intros (? & ? & ? & ? & _) ? ?. by repeat split. Qed.

Lemma after_comma j : after "," j = Ok (with_last_symbol "," j).
Proof. done. Qed.

Lemma attached_array j a d v j' :
  type_ d = ARRAY → attached j a d v j' →
  built j a (array_push_back (Some (length (store j))) d) j'
  ∧ represents (store j') (length (store j)) (Some (length (store j))) v.
Proof.
  intros Hty (Hrep & Ha & Hk & Hsame & Hlen & Hb & Hw & Hc & Hq & Ht & Hpb & Hpn).
  unfold attach in Ha, Hk. rewrite Hty in Ha, Hk.
  split; [|done]. unfold built. repeat split; try done. lia.
Qed.

(** The elements of an array, up to its closing bracket. *)
Lemma elements_built erange vs :
  Forall (value_spec erange) vs → last_not_empty_string vs = true →
  ∀ j n d,
    ready j → currently_working_on_ j = Some n → store j !! n = Some d →
    type_ d = ARRAY →
    ∃ j' ps,
      parseBuffer erange (render (join_tokens (map tokens vs)) ++ ["]"%char]) j
      = after "]" j'
      ∧ built j n (push_all d ps) j'
      ∧ Forall2 (represents (store j') (length (store j))) ps vs.
Proof.
  induction vs as [|v vs IH]; intros Hspec Hlast j n d Hready Hcur Hn Hty.
  - exists j, []. split; [|split; [by apply built_refl | constructor]].
    destruct Hready as (Hq & Ht & Hb & Hnum & _).
    change (render (join_tokens (map tokens [])) ++ ["]"%char]) with ["]"%char].
    rewrite parseBuffer_single, parseChar_terminator
      by (done || by right; right).
    apply processJson_nothing_pending; try done. by right; right.
  - inversion_clear Hspec as [|? ? Hv Hvs].
    assert (accepts j n d) as Hacc by (by split; [|split; [|left]]).
    destruct vs as [|v2 vs].
    + destruct (Hv "]"%char j n d) as (j1 & Hatt & Hrun); try done.
      { by right; right. }
      { intros He. unfold last_not_empty_string in Hlast. simpl in Hlast.
        by rewrite He in Hlast. }
      apply attached_array in Hatt as [Hbuilt Hrep]; [|done].
      exists j1, [Some (length (store j))].
      split; [exact Hrun|]. split; [done|]. by repeat constructor.
    + destruct (Hv ","%char j n d) as (j1 & Hatt & Hrun); try done.
      { by left. }
      apply attached_array in Hatt as [Hbuilt Hrep]; [|done].
      destruct Hbuilt
        as (H1n & Hsame & Hlen & Hk & Hb & Hw & Hc & Hq & Ht & Hpb & Hpn).
      destruct (IH Hvs Hlast (with_last_symbol "," j1) n
                  (array_push_back (Some (length (store j))) d))
        as (j' & ps & Hrun' & Hbuilt' & Hreps); try done.
      destruct Hbuilt'
        as (H1n' & Hsame' & Hlen' & Hk' & Hb' & Hw' & Hc' & Hq' & Ht' & Hpb'
            & Hpn').
      simpl in Hsame', Hlen', Hk', Hb', Hw', Hreps.
      exists j', (Some (length (store j)) :: ps).
      split; [|split].
      * rewrite !map_cons, join_tokens_cons, render_element.
        rewrite parseBuffer_app, Hrun, after_comma. exact Hrun'.
      * unfold built. split; [exact H1n'|]. split.
        { intros b Hb1 Hb2. rewrite Hsame' by lia. by apply Hsame. }
        repeat split; try congruence; lia.
      * constructor.
        -- eapply represents_transport; [| |exact Hrep]; [done|].
           intros b x Hb1 Hb2. rewrite Hsame'; [done| |].
           ++ by eapply lookup_lt_Some.
           ++ apply lookup_lt_Some in Hn. lia.
        -- eapply Forall2_represents_transport; [| |exact Hreps]; [lia|].
           by intros b x _.
Qed.

Lemma step_colon erange j :
  ready j → quotes_open j = false →
  ∀ k, parseChar erange ":" (with_text k j) = Ok (key_pushed k j).
Proof.
  intros (Hq & Ht & Hb & Hn & _) _ k.
  destruct j; simpl in *; by subst.
Qed.

Lemma run_key erange k j :
  ready j → no_dquote k = true →
  parseBuffer erange (chars (quoted k) ++ [":"%char]) j = Ok (key_pushed k j).
Proof.
  intros Hready Hk. rewrite parseBuffer_app, run_quoted by (done || apply Hready).
  cbn [mbind outcome_bind]. rewrite parseBuffer_single.
  apply step_colon; [done | apply Hready].
Qed.

Lemma render_member k ts rest (c : ascii) :
  render ((TStr k :: TColon :: ts) ++ TComma :: rest) ++ [c]
  = (chars (quoted k) ++ [":"%char])
    ++ (render ts ++ [","%char]) ++ (render rest ++ [c]).
Proof.
  rewrite render_app, !render_cons. simpl.
  by rewrite <- !app_assoc.
Qed.

Lemma render_last_member k ts (c : ascii) :
  render (TStr k :: TColon :: ts) ++ [c]
  = (chars (quoted k) ++ [":"%char]) ++ (render ts ++ [c]).
Proof. rewrite !render_cons. simpl. by rewrite <- !app_assoc. Qed.

Lemma attached_object j k a d v j' :
  type_ d = OBJECT → ready j → attached (key_pushed k j) a d v j' →
  built j a (object_insert k (Some (length (store j))) d) j'
  ∧ represents (store j') (length (store j)) (Some (length (store j))) v.
Proof.
  intros Hty Hready
    (Hrep & Ha & Hk & Hsame & Hlen & Hb & Hw & Hc & Hq & Ht & Hpb & Hpn).
  unfold attach in Ha, Hk. rewrite Hty in Ha, Hk. simpl in *.
  split; [|done]. unfold built. repeat split; try done. lia.
Qed.

(** The members of an object, up to its closing bracket. *)
Lemma members_built erange kvs :
  Forall (value_spec erange) (map snd kvs) →
  forallb (λ kv, no_dquote kv.1) kvs = true →
  last_not_empty_string (map snd kvs) = true →
  ∀ j n d,
    ready j → currently_working_on_ j = Some n → store j !! n = Some d →
    type_ d = OBJECT →
    ∃ j' ps,
      parseBuffer erange
        (render (join_tokens (map member_tokens kvs)) ++ ["}"%char]) j
      = after "}" j'
      ∧ built j n (insert_all d (zip (map fst kvs) ps)) j'
      ∧ Forall2 (represents (store j') (length (store j))) ps (map snd kvs).
Proof.
  induction kvs as [|[k v] kvs IH];
    intros Hspec Hkeys Hlast j n d Hready Hcur Hn Hty.
  - exists j, []. split; [|split; [by apply built_refl | constructor]].
    destruct Hready as (Hq & Ht & Hb & Hnum & _).
    change (render (join_tokens (map member_tokens [])) ++ ["}"%char])
      with ["}"%char].
    rewrite parseBuffer_single, parseChar_terminator
      by (done || by right; left).
    apply processJson_nothing_pending; try done. by right; left.
  - simpl in Hspec, Hkeys. inversion_clear Hspec as [|? ? Hv Hvs].
    apply andb_true_iff in Hkeys as [Hk Hkeys].
    assert (ready (key_pushed k j)) as Hready'.
    { destruct Hready as (? & ? & ? & ? & _). by repeat split. }
    assert (accepts (key_pushed k j) n d) as Hacc.
    { split; [done|]. split; [done|]. right. by split. }
    destruct kvs as [|[k2 v2] kvs].
    + destruct (Hv "}"%char (key_pushed k j) n d) as (j1 & Hatt & Hrun);
        try done.
      { by right; left. }
      { intros He. unfold last_not_empty_string in Hlast. simpl in Hlast.
        by rewrite He in Hlast. }
      apply attached_object in Hatt as [Hbuilt Hrep]; [|done..].
      exists j1, [Some (length (store j))].
      split; [|split; [done | by repeat constructor]].
      cbn [map member_tokens join_tokens].
      rewrite render_last_member, parseBuffer_app, run_key by done.
      exact Hrun.
    + destruct (Hv ","%char (key_pushed k j) n d) as (j1 & Hatt & Hrun);
        try done.
      { by left. }
      apply attached_object in Hatt as [Hbuilt Hrep]; [|done..].
      destruct Hbuilt
        as (H1n & Hsame & Hlen & Hks & Hb & Hw & Hc & Hq & Ht & Hpb & Hpn).
      destruct (IH Hvs Hkeys Hlast (with_last_symbol "," j1) n
                  (object_insert k (Some (length (store j))) d))
        as (j' & ps & Hrun' & Hbuilt' & Hreps); try done.
      destruct Hbuilt'
        as (H1n' & Hsame' & Hlen' & Hk' & Hb' & Hw' & Hc' & Hq' & Ht' & Hpb'
            & Hpn').
      simpl in Hsame', Hlen', Hk', Hb', Hw', Hreps.
      exists j', (Some (length (store j)) :: ps).
      split; [|split].
      * rewrite !map_cons, join_tokens_cons.
        cbn [member_tokens]. rewrite render_member.
        rewrite parseBuffer_app, run_key by done. cbn [mbind outcome_bind].
        rewrite parseBuffer_app, Hrun, after_comma. exact Hrun'.
      * unfold built. split; [exact H1n'|]. split.
        { intros b Hb1 Hb2. rewrite Hsame' by lia. by apply Hsame. }
        repeat split; try congruence; lia.
      * constructor.
        -- eapply represents_transport; [| |exact Hrep]; [done|].
           intros b x Hb1 Hb2. rewrite Hsame'; [done| |].
           ++ by eapply lookup_lt_Some.
           ++ apply lookup_lt_Some in Hn. lia.
        -- eapply Forall2_represents_transport; [| |exact Hreps]; [lia|].
           by intros b x _.
Qed.

(** *** A container, from its opening to its closing bracket *)

Lemma container_closed erange (o c : ascii) (inner : list ascii) (v : value) :
  (o = "["%char ∧ c = "]"%char) ∨ (o = "{"%char ∧ c = "}"%char) →
  (∀ j1 n,
     ready j1 → currently_working_on_ j1 = Some n →
     store j1 !! n = Some (container_block o) → length (store j1) = S n →
     ∃ j2 d2,
       parseBuffer erange (inner ++ [c]) j1 = after c j2
       ∧ built j1 n d2 j2
       ∧ (∀ h', h' !! n = Some d2 → stable (S n) (store j2) h' →
                represents h' n (Some n) v)) →
  ∀ j a d,
    ready j → accepts j a d →
    ∃ j', attached j a d v j'
          ∧ parseBuffer erange (o :: inner ++ [c]) j = Ok j'
          ∧ isClosingBracket (last_symbol_ j') = true.
Proof.
  intros Hoc Hinner j a d Hready Hacc.
  pose proof (accepts_lt _ _ _ Hacc) as Hlt.
  destruct Hacc as (Hcur & Ha & Hty).
  assert (o = "["%char ∨ o = "{"%char) as Ho by (destruct Hoc as [[]|[]]; auto).
  assert (sameBracketType c o = true) as Hsame
    by (by destruct Hoc as [[-> ->]|[-> ->]]).
  assert (terminator c ∧ isClosingBracket c = true) as [Hc Hclose].
  { destruct Hoc as [[_ ->]|[_ ->]]; split; try done;
      [by right; right | by right; left]. }
  destruct (open_bracket_fields o j a Ho Hready Hcur)
    as (Hready1 & Hcur1 & Hst1 & Hbr1 & Hwo1 & Hk1).
  set (j1 := with_last_symbol o (open_bracket o j)) in *.
  set (n := length (store j)) in *.
  destruct (Hinner j1 n) as (j2 & d2 & Hrun & Hbuilt & Hrep); try done.
  { rewrite Hst1. by rewrite lookup_app_r, Nat.sub_diag by done. }
  { rewrite Hst1, length_app. simpl. lia. }
  destruct Hbuilt
    as (H2n & Hsame2 & Hlen2 & Hk2 & Hb2 & Hw2 & Hc2 & Hq2 & Ht2 & Hpb2 & Hpn2).
  assert (length (store j1) = S n) as Hlen1
    by (rewrite Hst1, length_app; simpl; lia).
  assert (store j2 !! a = Some d) as Ha2.
  { rewrite Hsame2 by lia. rewrite Hst1. by rewrite lookup_app_l by done. }
  assert (close_bracket c j2 = Ok (attach_current c a d j2)) as Hcl.
  { eapply close_bracket_attach; try done.
    - by rewrite Hb2, Hbr1.
    - by rewrite Hw2, Hwo1.
    - by rewrite Hk2, Hk1. }
  exists (with_last_symbol c (attach_current c a d j2)).
  split; [|split].
  - unfold attached. fold n. unfold attach_current. simpl.
    rewrite Hc2, Hk2, Hk1, Hb2, Hbr1, Hw2, Hwo1. simpl.
    assert (a < length (store j2)) as Hlt2 by lia.
    repeat split; try done.
    + apply Hrep.
      * by rewrite list_lookup_insert_ne by lia.
      * intros b x Hb Hx. by rewrite list_lookup_insert_ne by lia.
    + by apply list_lookup_insert_eq.
    + intros b Hb Hba. rewrite list_lookup_insert_ne by done.
      rewrite Hsame2 by lia. rewrite Hst1. by rewrite lookup_app_l by done.
    + rewrite length_insert. lia.
  - rewrite (parseBuffer_cons_ok _ _ _ _ j1) by (by apply step_open).
    rewrite Hrun. unfold after. by rewrite Hclose, Hcl.
  - done.
Qed.

(** A container closed by its own bracket satisfies [value_spec]. *)
Lemma container_spec erange v :
  (∀ j a d,
     ready j → accepts j a d →
     ∃ j', attached j a d v j'
           ∧ parseBuffer erange (render (tokens v)) j = Ok j'
           ∧ isClosingBracket (last_symbol_ j') = true) →
  value_spec erange v.
Proof.
  intros Hv c j a d Hc _ Hready Hacc.
  destruct (Hv j a d Hready Hacc) as (j' & Hatt & Hrun & Hls).
  exists j'. split; [done|].
  destruct Hatt as (_ & _ & _ & _ & _ & _ & _ & _ & Hq & Ht & Hpb & Hpn).
  rewrite parseBuffer_app, Hrun. cbn [mbind outcome_bind].
  rewrite parseBuffer_single, parseChar_terminator by done.
  by apply processJson_nothing_pending.
Qed.

Lemma render_array vs :
  render (tokens (Arr vs))
  = "["%char :: render (join_tokens (map tokens vs)) ++ ["]"%char].
Proof. cbn [tokens]. rewrite render_cons, render_app. done. Qed.

Lemma render_object kvs :
  render (tokens (Obj kvs))
  = "{"%char :: render (join_tokens (map member_tokens kvs)) ++ ["}"%char].
Proof.
  cbn [tokens]. rewrite render_cons, render_app.
  replace (map (λ '(k, v), TStr k :: TColon :: tokens v) kvs)
    with (map member_tokens kvs); [done|].
  apply map_ext. by intros [k v].
Qed.

Lemma array_closed erange vs :
  Forall (value_spec erange) vs → last_not_empty_string vs = true →
  ∀ j a d,
    ready j → accepts j a d →
    ∃ j', attached j a d (Arr vs) j'
          ∧ parseBuffer erange (render (tokens (Arr vs))) j = Ok j'
          ∧ isClosingBracket (last_symbol_ j') = true.
Proof.
  intros Hvs Hlast. rewrite render_array.
  apply (container_closed erange "[" "]"); [by left|].
  intros j1 n Hready Hcur Hn Hlen.
  destruct (elements_built erange vs Hvs Hlast j1 n _ Hready Hcur Hn)
    as (j2 & ps & Hrun & Hbuilt & Hreps); [done|].
  exists j2, (push_all (container_block "[") ps).
  split; [done|]. split; [done|].
  intros h' Hn' Hstable.
  eapply (represents_arr _ _ _ _ _ ps); [done | exact Hn' | | |].
  - by rewrite push_all_type.
  - rewrite push_all_data. by destruct ps.
  - rewrite Hlen in Hreps.
    eapply Forall2_represents_transport; [| |exact Hreps]; [lia | done].
Qed.

Lemma object_closed erange kvs :
  Forall (value_spec erange) (map snd kvs) →
  forallb (λ kv, no_dquote kv.1) kvs = true →
  last_not_empty_string (map snd kvs) = true →
  ∀ j a d,
    ready j → accepts j a d →
    ∃ j', attached j a d (Obj kvs) j'
          ∧ parseBuffer erange (render (tokens (Obj kvs))) j = Ok j'
          ∧ isClosingBracket (last_symbol_ j') = true.
Proof.
  intros Hvs Hkeys Hlast. rewrite render_object.
  apply (container_closed erange "{" "}"); [by right|].
  intros j1 n Hready Hcur Hn Hlen.
  destruct (members_built erange kvs Hvs Hkeys Hlast j1 n _ Hready Hcur Hn)
    as (j2 & ps & Hrun & Hbuilt & Hreps); [done|].
  exists j2, (insert_all (container_block "{") (zip (map fst kvs) ps)).
  split; [done|]. split; [done|].
  intros h' Hn' Hstable.
  eapply (represents_obj _ _ _ _ _ ps); [done | exact Hn' | | |].
  - by rewrite insert_all_type.
  - rewrite insert_all_data. by destruct (zip _ _).
  - rewrite Hlen in Hreps.
    eapply Forall2_represents_transport; [| |exact Hreps]; [lia | done].
Qed.

Lemma forallb_Forall {A} (f : A → bool) (l : list A) :
  forallb f l = true → Forall (λ x, f x = true) l.
Proof.
  induction l as [|x l IH]; simpl; [constructor|].
  intros H. apply andb_true_iff in H as [? ?]. constructor; auto.
Qed.

Lemma well_formed_members erange kvs :
  forallb (λ '(k, v), no_dquote k && well_formed erange v) kvs = true →
  forallb (λ kv, no_dquote kv.1) kvs = true
  ∧ Forall (λ v, well_formed erange v = true) (map snd kvs).
Proof.
  induction kvs as [|[k v] kvs IH]; simpl; [by split|].
  intros H. apply andb_true_iff in H as [Hkv H].
  apply andb_true_iff in Hkv as [Hk Hv].
  destruct (IH H) as [? ?]. split; [by rewrite Hk | by constructor].
Qed.

(** Every well-formed value, followed by a terminator, ends up attached to
    the container being built. *)
Lemma well_formed_value_spec erange v :
  well_formed erange v = true → value_spec erange v.
Proof.
  induction v as [s|t|vs IH|kvs IH] using value_nested_ind; simpl; intros Hwf.
  - by apply str_spec.
  - by apply lit_spec.
  - apply andb_true_iff in Hwf as [Hall Hlast].
    apply container_spec, array_closed; [|done].
    apply forallb_Forall in Hall. rewrite Forall_forall in IH, Hall.
    apply Forall_forall. intros v Hv. apply IH; [done|]. by apply Hall.
  - apply andb_true_iff in Hwf as [Hall Hlast].
    apply well_formed_members in Hall as [Hkeys Hall].
    apply container_spec, object_closed; [|done..].
    rewrite Forall_forall in IH, Hall.
    apply Forall_forall. intros v Hv. apply IH; [done|]. by apply Hall.
Qed.

(** *** White space between tokens *)

Lemma append_text_quotes j j' :
  append_text j = Ok j' → quotes_open j' = quotes_open j.
Proof.
  unfold append_text. intros Hrun.
  apply outcome_bind_ok in Hrun as (cur & _ & Hrun).
  destruct (type_ cur); try discriminate.
  - destruct (keys_ _); simplify_eq/=. unfold store_current; simpl.
    by destruct (currently_working_on_ j).
  - simplify_eq/=. unfold store_current; simpl.
    by destruct (currently_working_on_ j).
Qed.

Lemma close_bracket_quotes c j j' :
  close_bracket c j = Ok j' → quotes_open j' = quotes_open j.
Proof.
  unfold close_bracket. intros Hrun.
  destruct (brackets_ j); [discriminate|].
  destruct (negb _); [discriminate|]. simpl in Hrun.
  destruct (working_on_ j) as [|parent rest]; [discriminate|].
  apply outcome_bind_ok in Hrun as (cur & _ & Hrun).
  destruct (type_ cur); try discriminate.
  - simpl in Hrun. destruct (keys_ j); simplify_eq/=.
    unfold store_current; simpl. by destruct parent.
  - simplify_eq/=. unfold store_current; simpl. by destruct parent.
Qed.

Lemma processJson_quotes erange c j j' :
  processJson erange c j = Ok j' → quotes_open j' = quotes_open j.
Proof.
  unfold processJson. intros Hrun.
  destruct (isBlank c); [by simplify_eq|].
  set (j3 := if isBoolPart c && _ then _ else _) in Hrun.
  assert (quotes_open j3 = quotes_open j) as Hq.
  { subst j3. by repeat (case_match; simpl). }
  rewrite <- Hq. clearbody j3.
  apply outcome_bind_ok in Hrun as (j4 & Hrun4 & Hrun).
  apply outcome_bind_ok in Hrun as (j5 & Hrun5 & Hrun).
  injection Hrun as <-. simpl.
  assert (quotes_open j4 = quotes_open j3) as <-.
  { destruct (value_ends c j3); [|by simplify_eq].
    apply outcome_bind_ok in Hrun4 as (_ & _ & Hrun4).
    by eapply append_text_quotes. }
  destruct (isOpeningBracket c).
  - injection Hrun5 as <-. unfold open_bracket. simpl.
    by destruct (currently_working_on_ j4).
  - destruct (isClosingBracket c); [|by simplify_eq].
    by eapply close_bracket_quotes.
Qed.

Lemma run_unquoted erange l j j' :
  forallb (λ c, negb (ch_eq c dquote)) l = true →
  quotes_open j = false →
  parseBuffer erange l j = Ok j' → quotes_open j' = false.
Proof.
  revert j. induction l as [|c l IH]; simpl; intros j Hl Hq Hrun.
  - by simplify_eq.
  - apply andb_true_iff in Hl as [Hc Hl]. apply negb_true_iff in Hc.
    apply outcome_bind_ok in Hrun as (j1 & H1 & H2).
    apply (IH j1); [done| |done].
    unfold parseChar in H1. rewrite Hc, Hq in H1.
    apply processJson_quotes in H1. congruence.
Qed.

Lemma token_keeps_quotes_closed erange t j j' :
  token_closed t = true → quotes_open j = false →
  parseBuffer erange (token_chars t) j = Ok j' → quotes_open j' = false.
Proof.
  intros Ht Hq. destruct t; simpl in Ht;
    try (by apply run_unquoted).
  cbn [token_chars]. rewrite run_quoted by done. by intros [= <-].
Qed.

(** White space between the tokens does not change what the parser does. *)
Lemma layout_run erange ts doc :
  layout ts doc → forallb token_closed ts = true →
  ∀ j, quotes_open j = false →
       parseBuffer erange doc j = parseBuffer erange (render ts) j.
Proof.
  induction 1 as [ws Hws | ws t ts rest Hws _ IH]; intros Hts j Hq.
  - by rewrite (run_blanks erange ws).
  - simpl in Hts. apply andb_true_iff in Hts as [Ht Hts].
    rewrite render_cons, !parseBuffer_app, (run_blanks erange ws) by done.
    cbn [mbind outcome_bind]. rewrite parseBuffer_app.
    destruct (parseBuffer erange (token_chars t) j) as [j1| | |] eqn:Hrun;
      [|reflexivity..].
    cbn [mbind outcome_bind]. apply IH; [done|].
    by eapply token_keeps_quotes_closed.
Qed.

Lemma forallb_app_true {A} (f : A → bool) (l1 l2 : list A) :
  forallb f l1 = true → forallb f l2 = true → forallb f (l1 ++ l2) = true.
Proof. intros H1 H2. rewrite forallb_app. by rewrite H1, H2. Qed.

Lemma join_tokens_closed (ls : list (list token)) :
  Forall (λ l, forallb token_closed l = true) ls →
  forallb token_closed (join_tokens ls) = true.
Proof.
  induction 1 as [|l ls Hl Hls IH]; [done|].
  destruct ls as [|l' ls]; [done|].
  rewrite join_tokens_cons. apply forallb_app_true; [done|]. exact IH.
Qed.

Lemma literal_no_dquote erange t : literal_ok erange t = true → no_dquote t = true.
Proof.
  unfold literal_ok, number_ok, isValidBool. intros H.
  apply orb_true_iff in H as [H | H].
  - apply orb_true_iff in H as [H | H]; apply String.eqb_eq in H as ->; done.
  - apply andb_true_iff in H as [H _]. apply andb_true_iff in H as [H _].
    apply andb_true_iff in H as [_ H]. unfold no_dquote.
    induction (chars t) as [|c l IH]; [done|]. simpl in *.
    apply andb_true_iff in H as [Hc Hl].
    destruct (number_char_class c Hc) as (_ & -> & _). simpl. auto.
Qed.

Lemma well_formed_tokens_closed erange v :
  well_formed erange v = true → forallb token_closed (tokens v) = true.
Proof.
  induction v as [s|t|vs IH|kvs IH] using value_nested_ind; simpl; intros Hwf.
  - by rewrite Hwf.
  - by rewrite (literal_no_dquote erange).
  - apply andb_true_iff in Hwf as [Hall _].
    apply forallb_app_true; [|done]. apply join_tokens_closed.
    apply forallb_Forall in Hall. rewrite Forall_forall in IH, Hall.
    apply Forall_forall. intros l Hl.
    apply list_elem_of_fmap in Hl as (v & -> & Hv). apply IH; [done|].
    by apply Hall.
  - apply andb_true_iff in Hwf as [Hall _].
    apply forallb_app_true; [|done]. apply join_tokens_closed.
    apply Forall_forall. intros l Hl.
    apply list_elem_of_fmap in Hl as ([k v] & -> & Hkv).
    apply forallb_Forall in Hall. rewrite Forall_forall in Hall.
    specialize (Hall _ Hkv). simpl in Hall.
    apply andb_true_iff in Hall as [Hk Hv]. simpl. rewrite Hk. simpl.
    rewrite Forall_forall in IH. apply IH; [|done].
    apply list_elem_of_fmap. by exists (k, v).
Qed.

(** *** Reading the tree *)

Lemma foldl_map_insert_lookup (kps : list (string * JsonDataPtr))
    (m : JsonObject) (key : string) :
  foldl (λ m '(k, p), map_insert k p m) m kps !! key
  = match m !! key with
    | Some p => Some p
    | None => first_ptr key kps
    end.
Proof.
  revert m. induction kps as [|[k p] kps IH]; intros m; simpl.
  - by destruct (m !! key).
  - rewrite IH. unfold map_insert.
    destruct (String.eqb_spec k key) as [->|Hne].
    + destruct (m !! key) eqn:Hm; [by rewrite Hm|].
      by rewrite lookup_insert_eq.
    + destruct (m !! k) eqn:Hk; [done|].
      by rewrite lookup_insert_ne.
Qed.

Lemma first_value_ptr h lo key kvs ps v :
  Forall2 (represents h lo) ps (map snd kvs) →
  first_value key kvs = Some v →
  ∃ p, first_ptr key (zip (map fst kvs) ps) = Some p ∧ represents h lo p v.
Proof.
  revert ps. induction kvs as [|[k v'] kvs IH]; intros ps Hreps Hfirst;
    [done|].
  simpl in Hreps. inversion Hreps as [|p ? ps' ? Hp Hps]; subst. simpl in *.
  destruct (String.eqb k key).
  - injection Hfirst as ->. eauto.
  - by apply IH.
Qed.

Lemma first_value_occurrence key v before after :
  key ∉ map fst before →
  first_value key (before ++ (key, v) :: after) = Some v.
Proof.
  induction before as [|[k v'] before IH]; simpl; intros Hkey.
  - by rewrite String.eqb_refl.
  - apply not_elem_of_cons in Hkey as [Hne Hkey].
    destruct (String.eqb_spec k key); [congruence|]. by apply IH.
Qed.

(** One step into a block, on the block itself. *)
Lemma block_select h lo a d v sel v' :
  h !! a = Some d → represents h lo (Some a) v →
  value_select v sel = Some v' →
  ∃ q, represents h lo q v'
       ∧ match sel with
         | Key key =>
             type_ d = OBJECT
             ∧ ∃ m, object_data_ d = Some m ∧ m !! key = Some q
         | Index index =>
             type_ d = ARRAY
             ∧ ∃ ps, array_data_ d = Some ps
                     ∧ out_of_bounds index ps = false
                     ∧ ps !! Z.to_nat index = Some q
         end.
Proof.
  intros Ha Hrep Hsel.
  destruct sel as [key|index], v as [s|t|vs|kvs]; try done;
    inversion Hrep as [| |? d' ? ps ? Ha' Hty Hdata Hreps
                          |? d' ? ps ? Ha' Hty Hdata Hreps]; subst;
    simplify_eq/=.
  - destruct (first_value_ptr _ _ _ _ _ _ Hreps Hsel) as (q & Hq & Hrq).
    exists q. split; [done|]. split; [done|].
    rewrite Hdata. unfold map_of.
    destruct (zip (map fst kvs) ps) as [|kp kps] eqn:Hzip; [done|].
    eexists. split; [done|].
    by rewrite foldl_map_insert_lookup, lookup_empty.
  - destruct (Z.ltb_spec index 0) as [|Hpos]; [done|].
    destruct (Forall2_lookup_r _ _ _ _ _ Hreps Hsel) as (q & Hq & Hrq).
    exists q. split; [done|]. split; [done|].
    exists ps. split; [|split; [|done]].
    + rewrite Hdata. destruct ps; [done|done].
    + unfold out_of_bounds. apply lookup_lt_Some in Hq.
      destruct (Z.ltb_spec index 0); [lia|].
      destruct (Z.leb_spec (Z.of_nat (length ps)) index); [lia|done].
Qed.

Lemma represents_block h lo p v :
  represents h lo p v → ∃ a d, p = Some a ∧ h !! a = Some d.
Proof. inversion 1; eauto. Qed.

Lemma represents_select h lo p v sel v' :
  represents h lo p v → value_select v sel = Some v' →
  ∃ q, ptr_select h p sel = Ok q ∧ represents h lo q v'.
Proof.
  intros Hrep Hsel.
  destruct (represents_block _ _ _ _ Hrep) as (a & d & -> & Ha).
  destruct (block_select _ _ _ _ _ _ _ Ha Hrep Hsel) as (q & Hq & Hblock).
  exists q. split; [|done].
  destruct sel as [key|index]; simpl.
  - destruct Hblock as (Hty & m & Hm & Hkey).
    unfold ptr_at_key, deref. rewrite Ha. simpl.
    by rewrite Hty, Hm, Hkey.
  - destruct Hblock as (Hty & ps & Hps & Hbounds & Hq').
    unfold ptr_at_index, deref. rewrite Ha. simpl.
    apply orb_false_iff in Hbounds as [Hneg Hsize].
    rewrite Hty, Hps, Hneg, Hsize. simpl. unfold vector_at. by rewrite Hq'.
Qed.

Lemma represents_follow h lo path :
  ∀ p v v',
    represents h lo p v → value_at v path = Some v' →
    ∃ q, ptr_follow h p path = Ok q ∧ represents h lo q v'.
Proof.
  induction path as [|sel path IH]; intros p v v' Hrep Hat; simpl in *.
  - simplify_eq. eauto.
  - destruct (value_select v sel) as [v1|] eqn:Hsel; [|done]. simpl in Hat.
    destruct (represents_select _ _ _ _ _ _ Hrep Hsel) as (q1 & -> & Hr1).
    simpl. by eapply IH.
Qed.

Lemma represents_text h lo p v t :
  represents h lo p v → scalar_text v = Some t → ptr_to_string h p = Ok t.
Proof.
  intros Hrep Ht.
  assert (∃ a d, p = Some a ∧ h !! a = Some d ∧ type_ d = STRING
                 ∧ string_data_ d = t) as (a & d & -> & Ha & Hty & Hs).
  { destruct v; simplify_eq/=; inversion Hrep; subst; eauto 10. }
  unfold ptr_to_string, deref. rewrite Ha. simpl. by rewrite Hty, Hs.
Qed.

Lemma root_select h lo a root v sel v' :
  h !! a = Some root → represents h lo (Some a) v →
  value_select v sel = Some v' →
  ∃ q, Json_select root sel = Ok q ∧ represents h lo q v'.
Proof.
  intros Ha Hrep Hsel.
  destruct (block_select _ _ _ _ _ _ _ Ha Hrep Hsel) as (q & Hq & Hblock).
  exists q. split; [|done].
  destruct sel as [key|index]; simpl.
  - destruct Hblock as (_ & m & Hm & Hkey).
    unfold Json_at_key. by rewrite Hm, Hkey.
  - destruct Hblock as (_ & ps & Hps & Hbounds & Hq').
    unfold Json_at_index. rewrite Hps, Hbounds. unfold vector_at.
    by rewrite Hq'.
Qed.

(** *** The whole document *)

Lemma well_formed_container_closed erange v :
  well_formed erange v = true → is_container v = true →
  ∀ j a d,
    ready j → accepts j a d →
    ∃ j', attached j a d v j'
          ∧ parseBuffer erange (render (tokens v)) j = Ok j'
          ∧ isClosingBracket (last_symbol_ j') = true.
Proof.
  intros Hwf Hcont. destruct v as [s|t|vs|kvs]; try done; simpl in Hwf;
    apply andb_true_iff in Hwf as [Hall Hlast].
  - apply array_closed; [|done].
    apply forallb_Forall in Hall.
    eapply Forall_impl; [done|]. apply well_formed_value_spec.
  - apply well_formed_members in Hall as [Hkeys Hall].
    apply object_closed; [|done..].
    eapply Forall_impl; [done|]. apply well_formed_value_spec.
Qed.

(** A well-formed document whose root is a container is parsed into a tree
    that represents it; the root is the block at address 1, right after the
    synthetic top-level array. *)
Lemma parse_well_formed erange v doc :
  well_formed erange v = true → is_container v = true →
  layout (tokens v) doc → nul_free doc = true →
  ∃ root h,
    Json_ctor erange doc = Some (Ok (root, h))
    ∧ h !! 1 = Some root
    ∧ represents h 1 (Some 1) v.
Proof.
  intros Hwf Hcont Hlay Hfree.
  assert (ready Json_init) as Hready by done.
  assert (accepts Json_init 0 (set_type ARRAY JsonData_default)) as Hacc
    by (split; [done|]; split; [done|]; by left).
  destruct (well_formed_container_closed erange v Hwf Hcont _ _ _ Hready Hacc)
    as (j' & Hatt & Hrun & _).
  destruct Hatt as (Hrep & Ha & Hk & _ & _ & Hb & _ & Hc & _).
  simpl in Hrep, Ha, Hb.
  destruct (represents_block _ _ _ _ Hrep) as (a & root & [= <-] & Hroot).
  exists root, (store j'). split; [|done].
  rewrite Json_ctor_whole by done. unfold parse_whole.
  rewrite (layout_run erange (tokens v) doc), Hrun;
    [|done | by eapply well_formed_tokens_closed | done].
  simpl. unfold finish, deref. rewrite Hb, Hc, Ha. simpl. by rewrite Hroot.
Qed.

(** ** Round trip of leaf texts *)

(** C5, as amended: take a document whose root is an object or an array,
    whose keys and string values hold no quote character, whose bare
    literals are [true], [false] or non-empty texts over [0-9 . - e] that
    [std::stod] converts within range, in which no empty string value is the
    last element of its container, written with any white space between its
    tokens, in a file that holds no NUL character.  The construction
    succeeds, and following a path to a string or
    literal leaf (a key written twice selects its first member) and
    converting the handle to text gives exactly the text between the quotes,
    or the literal token as written. *)
Theorem fetched_text_is_written_text erange v doc sel path t :
  well_formed erange v = true →
  is_container v = true →
  layout (tokens v) doc →
  nul_free doc = true →
  value_at v (sel :: path) ≫= scalar_text = Some t →
  ∃ root h,
    Json_ctor erange doc = Some (Ok (root, h))
    ∧ fetch_text root h sel path = Ok t.
Proof.
  intros Hwf Hcont Hlay Hfree Hat.
  destruct (parse_well_formed erange v doc Hwf Hcont Hlay Hfree)
    as (root & h & Hrun & Hroot & Hrep).
  exists root, h. split; [done|].
  simpl in Hat.
  destruct (value_select v sel) as [v1|] eqn:Hsel; [|done]. simpl in Hat.
  destruct (value_at v1 path) as [v2|] eqn:Hpath; [|done]. simpl in Hat.
  destruct (root_select _ _ _ _ _ _ _ Hroot Hrep Hsel) as (q & Hq & Hr1).
  destruct (represents_follow _ _ _ _ _ _ Hr1 Hpath) as (r & Hr & Hr2).
  unfold fetch_text. rewrite Hq. simpl. rewrite Hr. simpl.
  by eapply represents_text.
Qed.

(** Scenario C: [root["n"]] of [{"n": 12.5e2}] converts to [12.5e2]. *)
Lemma fetched_text_is_written_text_witness :
  ∃ root h,
    Json_ctor (λ _, false) scenario_C = Some (Ok (root, h))
    ∧ fetch_text root h (Key "n") [] = Ok "12.5e2".
Proof.
  apply (fetched_text_is_written_text (λ _, false)
           (Obj [("n", Lit "12.5e2")]) scenario_C (Key "n") [] "12.5e2");
    [reflexivity | reflexivity | | reflexivity | reflexivity].
  apply (layout_cons [] TOpenObj); [constructor|].
  apply (layout_cons [] (TStr "n")); [constructor|].
  apply (layout_cons [] TColon); [constructor|].
  apply (layout_cons [" "%char] (TLit "12.5e2") [TCloseObj] ["}"%char]);
    [by repeat constructor|].
  apply (layout_cons [] TCloseObj [] []); [constructor|].
  apply layout_nil. constructor.
Defined.

(** C5, as stated, fails on valid documents: in [empty_string_member] the
    empty string is never attached, so [root["a"]] is not even found; in
    [{"n": 1e+2}] the sign of the exponent is outside the number alphabet and
    the text kept is not [1e+2]; in [escaped_quote_member] the escaped quote
    closes the string and the construction fails. *)
Lemma fetched_text_counterexample :
  (¬ ∃ erange root h p,
       Json_ctor erange empty_string_member = Some (Ok (root, h))
       ∧ Json_at_key root "a" = Ok p)
  ∧ (¬ ∃ erange root h,
         Json_ctor erange signed_exponent_member = Some (Ok (root, h))
         ∧ fetch_text root h (Key "n") [] = Ok "1e+2")
  ∧ (∀ erange,
       Json_ctor erange escaped_quote_member
       = Some (Throw (runtime_error "Bracket not closed: {"))).
Proof.
  split; [|split].
  - intros (erange & root & h & p & Hrun & Hkey).
    rewrite Json_ctor_whole in Hrun by reflexivity. vm_compute in Hrun.
    injection Hrun as <- <-. vm_compute in Hkey. discriminate.
  - intros (erange & root & h & Hrun & Hfetch).
    rewrite Json_ctor_whole in Hrun by reflexivity.
    destruct (erange "1e2") eqn:He;
      rewrite (parse_whole_ext _ _ _ (override_ext _ _ _ He)) in Hrun;
      vm_compute in Hrun; [discriminate|].
    injection Hrun as <- <-. vm_compute in Hfetch. discriminate.
  - intros erange. rewrite Json_ctor_whole by reflexivity. by vm_compute.
Qed.

(** ** A key written more than once *)

Lemma object_insert_present key p d m :
  object_data_ d = Some m → is_Some (m !! key) →
  object_data_ (object_insert key p d) = Some m.
Proof.
  intros Hm [q Hq]. unfold object_insert, map_insert. simpl.
  by rewrite Hm; simpl; rewrite Hq.
Qed.

(** C10 on the code: in [stale_key_document] the first [a] holds an object
    whose only member [x] is the empty string.  A closing bracket ends a
    value only when the buffer is not empty, so that string is never
    attached; its key [x] stays pending and the inner object is attached
    under [x]; the first [a] is only consumed by the second member, and
    [root["a"]] is the text [1] of the second occurrence, never the object of
    the first. *)
Theorem duplicate_key_second_kept :
  (∃ root h p,
     (∀ erange, erange "1" = false →
                Json_ctor erange stale_key_document = Some (Ok (root, h)))
     ∧ Json_at_key root "a" = Ok p
     ∧ ptr_to_string h p = Ok "1")
  ∧ ¬ ∃ erange root h p d,
        Json_ctor erange stale_key_document = Some (Ok (root, h))
        ∧ Json_at_key root "a" = Ok p
        ∧ deref h p = Ok d ∧ type_ d = OBJECT.
Proof.
  split.
  - eexists _, _, _. split; [|split].
    + intros erange He. rewrite Json_ctor_whole by reflexivity.
      rewrite (parse_whole_ext _ _ _ (override_ext _ _ _ He)).
      vm_compute. reflexivity.
    + by vm_compute.
    + by vm_compute.
  - intros (erange & root & h & p & d & Hrun & Hkey & Hd & Hty).
    rewrite Json_ctor_whole in Hrun by reflexivity.
    destruct (erange "1") eqn:He;
      rewrite (parse_whole_ext _ _ _ (override_ext _ _ _ He)) in Hrun;
      vm_compute in Hrun; [discriminate|].
    injection Hrun as <- <-. vm_compute in Hkey. injection Hkey as <-.
    vm_compute in Hd. injection Hd as <-. discriminate.
Qed.

(** X20: inserting under a key the map already holds leaves the map as it
    is; and for every well-formed object document, written with any white
    space in a file without NUL, in which a key occurs (possibly again
    later), the construction succeeds and [root[key]] is the tree of the
    first member written with that key: a scalar first value is read back as
    its own text. *)
Theorem duplicate_key_keeps_first erange before after key v doc :
  key ∉ map fst before →
  well_formed erange (Obj (before ++ (key, v) :: after)) = true →
  layout (tokens (Obj (before ++ (key, v) :: after))) doc →
  nul_free doc = true →
  (∀ p d m, object_data_ d = Some m → is_Some (m !! key) →
            object_data_ (object_insert key p d) = Some m)
  ∧ ∃ root h p,
      Json_ctor erange doc = Some (Ok (root, h))
      ∧ Json_at_key root key = Ok p
      ∧ represents h 1 p v
      ∧ (∀ t, scalar_text v = Some t → ptr_to_string h p = Ok t).
Proof.
  intros Hkey Hwf Hlay Hfree.
  split; [intros p d m; apply object_insert_present|].
  destruct (parse_well_formed erange _ doc Hwf eq_refl Hlay Hfree)
    as (root & h & Hrun & Hroot & Hrep).
  destruct (root_select h 1 1 root _ (Key key) v Hroot Hrep) as (p & Hp & Hr).
  { simpl. by apply first_value_occurrence. }
  exists root, h, p. repeat split; try done.
  intros t Ht. by eapply represents_text.
Qed.

(** In [{"a": 1, "a": 2}] the key [a] reads [1]. *)
Lemma duplicate_key_keeps_first_witness :
  ∃ root h p,
    Json_ctor (λ _, false) duplicate_key_document = Some (Ok (root, h))
    ∧ Json_at_key root "a" = Ok p
    ∧ represents h 1 p (Lit "1")
    ∧ (∀ t, scalar_text (Lit "1") = Some t → ptr_to_string h p = Ok t).
Proof.
  refine (proj2 (duplicate_key_keeps_first (λ _, false)
                   [] [("a", Lit "2")] "a" (Lit "1") duplicate_key_document
                   _ _ _ eq_refl)).
  - apply not_elem_of_nil.
  - reflexivity.
  - apply (layout_cons [] TOpenObj); [constructor|].
    apply (layout_cons [] (TStr "a")); [constructor|].
    apply (layout_cons [] TColon); [constructor|].
    apply (layout_cons [" "%char] (TLit "1")); [by repeat constructor|].
    apply (layout_cons [] TComma); [constructor|].
    apply (layout_cons [" "%char] (TStr "a")); [by repeat constructor|].
    apply (layout_cons [] TColon); [constructor|].
    apply (layout_cons [" "%char] (TLit "2") [TCloseObj] ["}"%char]);
      [by repeat constructor|].
    apply (layout_cons [] TCloseObj [] []); [constructor|].
    apply layout_nil. constructor.
Defined.

(** * Further properties of the code *)

(** ** The two subscript operators on a block and on a handle *)

(** X1: [handle[key]] and [handle[index]] do what the subscript operators of
    [JsonData] do on the block the handle designates, the null container
    included. *)
Theorem handle_subscript_is_block_subscript (h : heap) (a : nat)
    (d : JsonData) (key : string) (index : Z) :
  h !! a = Some d →
  ptr_at_key h (Some a) key = JsonData_at_key d key
  ∧ ptr_at_index h (Some a) index = JsonData_at_index d index.
Proof.
  intros Ha. unfold ptr_at_key, ptr_at_index, deref. rewrite Ha. done.
Qed.

Lemma handle_subscript_is_block_subscript_witness :
  ptr_at_key [mkJsonData "" OBJECT "" (Some {[ "k" := Some 1 ]}) None]
    (Some 0) "k"
  = JsonData_at_key (mkJsonData "" OBJECT "" (Some {[ "k" := Some 1 ]}) None)
      "k".
Proof.
  refine (proj1 (handle_subscript_is_block_subscript
    [mkJsonData "" OBJECT "" (Some {[ "k" := Some 1 ]}) None] 0
    (mkJsonData "" OBJECT "" (Some {[ "k" := Some 1 ]}) None) "k" 0 _)).
  reflexivity.
Defined.

(** ** What every reachable state of the parser satisfies *)

Lemma children_below_mono n n' d :
  n ≤ n' → children_below n d → children_below n' d.
Proof.
  intros Hn Hd p Hp. destruct (Hd p Hp) as (a & -> & Ha).
  exists a. split; [done | lia].
Qed.

Lemma attach_type p keys d : type_ (attach p keys d).1 = type_ d.
Proof. unfold attach. by destruct (type_ d) eqn:Ht. Qed.

Lemma points_to_attach p keys d q :
  points_to (attach p keys d).1 q → q = p ∨ points_to d q.
Proof.
  unfold attach.
  assert (points_to (array_push_back p d) q → q = p ∨ points_to d q) as Harr.
  { intros [(m & key & Hm & Hkey) | (v & i & Hv & Hi)].
    - right. left. eauto.
    - simpl in Hv. injection Hv as <-.
      apply lookup_app_Some in Hi as [Hi | [_ Hi]].
      + right. right. destruct (array_data_ d) as [v|]; [eauto | done].
      + left. apply list_lookup_singleton_Some in Hi as [_ ->]. done. }
  destruct (type_ d); try done. simpl.
  intros [(m & key & Hm & Hkey) | (v & i & Hv & Hi)].
  - simpl in Hm. injection Hm as <-. unfold map_insert in Hkey.
    destruct (default ∅ (object_data_ d) !! hd "" keys) eqn:Hold.
    + right. left. destruct (object_data_ d) as [m|]; [eauto | done].
    + apply lookup_insert_Some in Hkey as [[_ ->] | [_ Hkey]]; [by left|].
      right. left. destruct (object_data_ d) as [m|]; [eauto | done].
  - right. right. eauto.
Qed.

Lemma attach_nonempty p keys d :
  containers_nonempty d → containers_nonempty (attach p keys d).1.
Proof.
  intros [Hobj Harr]. unfold attach.
  assert (containers_nonempty (array_push_back p d)) as Hpush.
  { split; [done|]. simpl. intros [= H]. by destruct (default _ _). }
  destruct (type_ d); try done. split; [|done]. simpl.
  intros [= H]. unfold map_insert in H.
  destruct (default ∅ (object_data_ d) !! hd "" keys) eqn:Hold.
  - rewrite H in Hold. by rewrite lookup_empty in Hold.
  - by apply insert_non_empty in H.
Qed.

Lemma attach_typed p keys d :
  type_ d = OBJECT ∨ type_ d = ARRAY →
  containers_typed d → containers_typed (attach p keys d).1.
Proof.
  intros Hty [Hobj Harr]. unfold attach.
  destruct Hty as [Hty | Hty]; rewrite Hty; (split; simpl; [|done]); auto.
Qed.

Lemma attach_fields p keys d :
  fields_unused d → fields_unused (attach p keys d).1.
Proof. unfold attach. by destruct (type_ d). Qed.

Lemma store_ok_alloc (h : heap) d :
  store_ok h → children_below (S (length h)) d → containers_nonempty d →
  containers_typed d → fields_unused d →
  store_ok (h ++ [d]).
Proof.
  intros (Hch & Hne & Hty & Hfl) Hd Hdne Hdty Hdfl. unfold store_ok.
  rewrite length_app. simpl. rewrite Nat.add_1_r. split; [|split; [|split]].
  - apply Forall_app. split; [|by constructor].
    eapply Forall_impl; [exact Hch|]. intros x. apply children_below_mono.
    lia.
  - apply Forall_app. split; [done | by constructor].
  - apply Forall_app. split; [done | by constructor].
  - apply Forall_app. split; [done | by constructor].
Qed.

Lemma store_ok_insert (h : heap) a d :
  store_ok h → children_below (length h) d → containers_nonempty d →
  containers_typed d → fields_unused d →
  store_ok (<[a := d]> h).
Proof.
  intros (Hch & Hne & Hty & Hfl) Hd Hdne Hdty Hdfl. unfold store_ok.
  rewrite length_insert.
  destruct (decide (a < length h)).
  - split; [|split; [|split]]; by apply Forall_insert.
  - rewrite list_insert_ge by lia. done.
Qed.

Lemma store_ok_lookup (h : heap) a d :
  store_ok h → h !! a = Some d →
  children_below (length h) d ∧ containers_nonempty d ∧ containers_typed d
  ∧ fields_unused d.
Proof.
  intros (Hch & Hne & Hty & Hfl) Ha. split; [|split; [|split]].
  - by eapply Forall_lookup_1 in Hch.
  - by eapply Forall_lookup_1 in Hne.
  - by eapply Forall_lookup_1 in Hty.
  - by eapply Forall_lookup_1 in Hfl.
Qed.

Lemma types_kept_app (h : heap) new : types_kept h (h ++ new).
Proof.
  intros a d Ha. exists d. split; [|done].
  by apply lookup_app_l_Some.
Qed.

Lemma types_kept_insert (h : heap) a d d' :
  h !! a = Some d → type_ d' = type_ d → types_kept h (<[a := d']> h).
Proof.
  intros Ha Hty b x Hb. destruct (decide (a = b)) as [<-|Hne].
  - exists d'. split; [|congruence].
    apply list_lookup_insert_eq. by eapply lookup_lt_Some.
  - exists x. by rewrite list_lookup_insert_ne.
Qed.

Lemma types_kept_trans h1 h2 h3 :
  types_kept h1 h2 → types_kept h2 h3 → types_kept h1 h3.
Proof.
  intros H12 H23 a d Ha.
  destruct (H12 a d Ha) as (d2 & Ha2 & Ht2).
  destruct (H23 a d2 Ha2) as (d3 & Ha3 & Ht3).
  exists d3. split; [done | congruence].
Qed.

Lemma container_ptr_kept h h' p :
  types_kept h h' → container_ptr h p → container_ptr h' p.
Proof.
  intros Hkept (a & d & -> & Ha & Hty).
  destruct (Hkept a d Ha) as (d' & Ha' & Hty').
  exists a, d'. by rewrite Hty'.
Qed.

Lemma parser_invariant_ext j j' :
  store j' = store j →
  currently_working_on_ j' = currently_working_on_ j →
  working_on_ j' = working_on_ j →
  brackets_ j' = brackets_ j →
  parser_invariant j → parser_invariant j'.
Proof. unfold parser_invariant. by intros -> -> -> ->. Qed.

Lemma parser_invariant_init : parser_invariant Json_init.
Proof.
  unfold parser_invariant, Json_init. simpl. split; [|split; [|split; [|split]]];
    try done.
  - exists 0, (set_type ARRAY JsonData_default). auto.
  - split; [|split; [|split]]; (constructor; [|constructor]);
      [|done|done|done].
    intros p [(m & key & Hm & _) | (v & i & Hv & _)]; done.
Qed.

Lemma block_without_children n d :
  object_data_ d = None → array_data_ d = None →
  children_below n d ∧ containers_nonempty d ∧ containers_typed d.
Proof.
  intros Ho Ha. split; [|split].
  - intros p [(m & key & Hm & _) | (v & i & Hv & _)]; congruence.
  - split; congruence.
  - split; congruence.
Qed.

(** The state after [append_text] keeps the invariant. *)
Lemma attach_text_invariant j a d :
  parser_invariant j →
  currently_working_on_ j = Some a → store j !! a = Some d →
  parser_invariant (attach_text a d j).
Proof.
  intros (Hcur & Hwo & Hlen & Hlast & Hok) Hc Ha.
  pose proof (lookup_lt_Some _ _ _ Ha) as Hlt.
  assert (types_kept (store j) (store (attach_text a d j))) as Hkept.
  { unfold attach_text. simpl.
    eapply types_kept_trans; [apply types_kept_app|].
    eapply types_kept_insert; [by apply lookup_app_l_Some|].
    apply attach_type. }
  unfold parser_invariant, attach_text in *. simpl in *.
  split; [|split; [|split; [|split]]]; try done.
  - by eapply container_ptr_kept.
  - eapply Forall_impl; [eassumption|]. intros p. by apply container_ptr_kept.
  - destruct (store_ok_lookup _ _ _ Hok Ha) as (Hd & Hdne & Hdty & Hdfl).
    destruct (block_without_children (S (length (store j)))
                (text_block (text_ j)) eq_refl eq_refl) as (Hb1 & Hb2 & Hb3).
    apply store_ok_insert.
    + by apply store_ok_alloc.
    + rewrite length_app. simpl. intros q Hq.
      apply points_to_attach in Hq as [-> | Hq].
      * exists (length (store j)). split; [done | lia].
      * destruct (Hd q Hq) as (b & -> & Hb). exists b. split; [done | lia].
    + by apply attach_nonempty.
    + apply attach_typed; [|done].
      destruct Hcur as (a' & d' & Hc' & Ha' & Hty'). by simplify_eq.
    + by apply attach_fields.
Qed.

(** The state after [close_bracket] keeps the invariant. *)
Lemma attach_current_invariant c j a d W :
  parser_invariant j →
  working_on_ j = Some a :: W → store j !! a = Some d →
  brackets_ j ≠ [] →
  parser_invariant (attach_current c a d j).
Proof.
  intros (Hcur & Hwo & Hlen & Hlast & Hok) Hw Ha Hbr.
  pose proof (lookup_lt_Some _ _ _ Ha) as Hlt.
  assert (types_kept (store j) (store (attach_current c a d j))) as Hkept.
  { unfold attach_current. simpl.
    eapply types_kept_insert; [done|]. apply attach_type. }
  rewrite Hw in Hwo, Hlen, Hlast. apply Forall_cons in Hwo as [Hpa HW].
  unfold parser_invariant, attach_current in *. simpl in *. rewrite Hw.
  simpl. split; [|split; [|split; [|split]]].
  - by eapply container_ptr_kept.
  - eapply Forall_impl; [eassumption|]. intros p. by apply container_ptr_kept.
  - destruct (brackets_ j); [done|]. simpl in *. lia.
  - first [exact Hlast | by rewrite last_cons_cons in Hlast].
  - destruct (store_ok_lookup _ _ _ Hok Ha) as (Hd & Hdne & Hdty & Hdfl).
    apply store_ok_insert;
      [done| |by apply attach_nonempty| |by apply attach_fields].
    + intros q Hq. apply points_to_attach in Hq as [-> | Hq]; [|by apply Hd].
      destruct Hcur as (b & x & -> & Hb & _). exists b. split; [done|].
      by eapply lookup_lt_Some.
    + apply attach_typed; [|done].
      destruct Hpa as (a' & d' & Ha' & Hd' & Hty'). by simplify_eq.
Qed.

Lemma open_bracket_store c j a :
  currently_working_on_ j = Some a →
  store (open_bracket c j) = store j ++ [container_block c]
  ∧ currently_working_on_ (open_bracket c j) = Some (length (store j))
  ∧ working_on_ (open_bracket c j) = Some a :: working_on_ j
  ∧ brackets_ (open_bracket c j) = c :: brackets_ j.
Proof.
  intros Hc. unfold open_bracket, make_shared. destruct j; simpl in *.
  subst. simpl. by rewrite alloc_insert.
Qed.

Lemma open_bracket_invariant c j :
  parser_invariant j → parser_invariant (open_bracket c j).
Proof.
  intros (Hcur & Hwo & Hlen & Hlast & Hok).
  destruct Hcur as (a & d & Hc & Ha & Hty).
  destruct (open_bracket_store c j a Hc) as (Hst & Hc' & Hw' & Hb').
  unfold parser_invariant. rewrite Hst, Hc', Hw', Hb'. rewrite Hc in Hlast.
  split; [|split; [|split; [|split]]].
  - exists (length (store j)), (container_block c).
    split; [done|]. split; [by rewrite lookup_app_r, Nat.sub_diag by lia|].
    unfold container_block. simpl. destruct (ch_eq c "{"); auto.
  - constructor.
    + eapply container_ptr_kept; [apply types_kept_app|]. by exists a, d.
    + eapply Forall_impl; [exact Hwo|]. intros p.
      apply container_ptr_kept, types_kept_app.
  - simpl. lia.
  - by rewrite last_cons_cons.
  - destruct (block_without_children (S (length (store j)))
                (container_block c) eq_refl eq_refl) as (Hb1 & Hb2 & Hb3).
    by apply store_ok_alloc.
Qed.

Lemma parse_outcome_bind (P Q : Json → Prop) m (f : Json → outcome Json) :
  parse_outcome P m → (∀ j, P j → parse_outcome Q (f j)) →
  parse_outcome Q (m ≫= f).
Proof. destruct m; simpl; auto. Qed.

Lemma validate_literal_outcome erange j :
  match validate_literal erange j with
  | Ok _ => True
  | Throw e => parse_error e
  | NullDeref | StringOverrun => False
  end.
Proof.
  unfold validate_literal, number_invalid, isValidNumber, stod, parse_error.
  destruct (processing_number_ j); simpl.
  - destruct (strtod_converts (text_ j)); simpl.
    + destruct (erange (text_ j)); simpl; [auto 10|].
      destruct (processing_bool_ j && _); simpl; [|done].
      right. left. by eexists.
    + left. by eexists.
  - destruct (processing_bool_ j && _); simpl; [|done].
    right. left. by eexists.
Qed.

Lemma append_text_outcome j :
  parser_invariant j → parse_outcome parser_invariant (append_text j).
Proof.
  intros Hinv. pose proof Hinv as ((a & d & Hc & Ha & Hty) & _).
  destruct Hty as [Hty | Hty].
  - destruct (keys_ j) as [|key keys] eqn:Hkeys.
    + unfold append_text, deref. simpl. rewrite Hc, Ha. simpl.
      rewrite Hty, Hkeys. simpl. unfold parse_error, MissingKey. auto.
    + rewrite (append_text_attach j a d).
      * simpl. by apply attach_text_invariant.
      * split; [done|]. split; [done|]. right. by rewrite Hkeys.
  - rewrite (append_text_attach j a d).
    + simpl. by apply attach_text_invariant.
    + split; [done|]. split; [done|]. by left.
Qed.

Lemma close_bracket_outcome c j :
  parser_invariant j → parse_outcome parser_invariant (close_bracket c j).
Proof.
  intros Hinv. pose proof Hinv as (_ & Hwo & Hlen & _).
  destruct (brackets_ j) as [|o B] eqn:Hbr.
  { unfold close_bracket. rewrite Hbr. simpl. unfold parse_error. auto 10. }
  destruct (sameBracketType c o) eqn:Hsame.
  2:{ unfold close_bracket. rewrite Hbr, Hsame. simpl.
      unfold parse_error, BracketMismatch. right. right. right. left.
      by eexists _, _. }
  destruct (working_on_ j) as [|p W] eqn:Hw; [done|].
  apply Forall_cons in Hwo as [(a & d & -> & Ha & Hty) _].
  assert (brackets_ j ≠ []) as Hne by (by rewrite Hbr).
  destruct Hty as [Hty | Hty].
  - destruct (keys_ j) as [|key keys] eqn:Hkeys.
    + unfold close_bracket, deref. clear Hinv Hlen Hne.
      destruct j; simpl in *; subst. rewrite Hsame. simpl. rewrite Ha.
      simpl. rewrite Hty. simpl. unfold parse_error, MissingKey. auto.
    + rewrite (close_bracket_attach c o B W j a d); try done.
      * simpl. by eapply attach_current_invariant.
      * right. by rewrite Hkeys.
  - rewrite (close_bracket_attach c o B W j a d); try done.
    + simpl. by eapply attach_current_invariant.
    + by left.
Qed.

Lemma processJson_outcome erange c j :
  parser_invariant j → parse_outcome parser_invariant (processJson erange c j).
Proof.
  intros Hinv. unfold processJson.
  destruct (isBlank c); [done|].
  set (j3 := if isBoolPart c && _ then _ else _).
  assert (parser_invariant j3) as Hinv3.
  { eapply parser_invariant_ext; [..|exact Hinv];
      subst j3; by repeat (case_match; simpl). }
  clearbody j3.
  eapply parse_outcome_bind with (P := parser_invariant).
  - destruct (value_ends c j3); [|done].
    pose proof (validate_literal_outcome erange j3) as Hval.
    destruct (validate_literal erange j3); simpl; try done.
    by apply append_text_outcome.
  - intros j4 Hinv4.
    eapply parse_outcome_bind with (P := parser_invariant).
    + destruct (isOpeningBracket c); [by apply open_bracket_invariant|].
      destruct (isClosingBracket c); [|done].
      by apply close_bracket_outcome.
    + intros j5 Hinv5. simpl. by eapply parser_invariant_ext.
Qed.

Lemma parseChar_outcome erange c j :
  parser_invariant j → parse_outcome parser_invariant (parseChar erange c j).
Proof.
  intros Hinv. unfold parseChar.
  destruct (ch_eq c dquote), (quotes_open j); simpl;
    try (by eapply parser_invariant_ext).
  by apply processJson_outcome.
Qed.

Lemma parseBuffer_outcome erange buffer j :
  parser_invariant j → parse_outcome parser_invariant (parseBuffer erange buffer j).
Proof.
  revert j. induction buffer as [|c buffer IH]; intros j Hinv; [done|].
  simpl. eapply parse_outcome_bind; [by apply parseChar_outcome | done].
Qed.

(** X2: For every input the parser ends in a state satisfying the invariant or
    in one of the exceptions of [parse_error]: it never calls a member
    through a null pointer, and none of the three sites throwing "Can't
    append value to non-object or non-array" is ever reached. *)
Theorem parser_never_dereferences_null erange (input : list ascii) :
  parse_outcome parser_invariant (parseBuffer erange input Json_init)
  ∧ parseBuffer erange input Json_init
    ≠ Throw (runtime_error "Can't append value to non-object or non-array").
Proof.
  pose proof (parseBuffer_outcome erange input Json_init parser_invariant_init)
    as Hout.
  split; [done|]. intros Heq. rewrite Heq in Hout. simpl in Hout.
  destruct Hout as [(t & [=]) | [(t & [=]) | [[=] | [(c & l & [=])
                   | [[=] | [=]]]]]].
Qed.

(** The end of [parseFile] on a state satisfying the invariant. *)
Lemma finish_cases j :
  parser_invariant j →
  match finish j with
  | Ok (root, h) =>
      h = store j ∧ brackets_ j = []
      ∧ ∃ top a v, h !! 0 = Some top
                   ∧ array_data_ top = Some (Some a :: v)
                   ∧ h !! a = Some root
  | Throw e =>
      ∃ o B, brackets_ j = o :: B
             ∧ e = runtime_error ("Bracket not closed: " +:+ String o "")
  | NullDeref =>
      brackets_ j = []
      ∧ ∃ top, store j !! 0 = Some top ∧ array_data_ top = None
  | StringOverrun => False
  end.
Proof.
  intros (Hcur & Hwo & Hlen & Hlast & Hok). unfold finish.
  destruct (brackets_ j) as [|o B] eqn:Hbr; simpl.
  2:{ by exists o, B. }
  destruct (working_on_ j) as [|p W]; [|done].
  simpl in Hlast. injection Hlast as Hc.
  destruct Hcur as (a & top & Hc' & Ha & _).
  rewrite Hc in Hc'. injection Hc' as <-.
  unfold deref. rewrite Hc, Ha. simpl.
  destruct (store_ok_lookup _ _ _ Hok Ha) as (Hch & [_ Hne] & _ & _).
  destruct (array_data_ top) as [v|] eqn:Hv; [|eauto].
  destruct v as [|p v]; [done|]. simpl.
  destruct (Hch p) as (b & -> & Hb).
  { right. by exists (p :: v), 0. }
  destruct (lookup_lt_is_Some_2 _ _ Hb) as [root Hroot].
  rewrite Hroot. simpl. eauto 10.
Qed.

(** X3: on a file without NUL the constructor always returns, and its
    outcome is decided by the run of the parser over the characters of the
    file.  When the parser throws, the constructor throws the same
    exception, one of those of [parse_error].  When the parser gets through
    and a bracket is still open, it throws "Bracket not closed" with the
    innermost open bracket.  When the parser gets through with all brackets
    closed, the top-level array is the block at address 0: if nothing was
    attached to it, its vector pointer is null and the constructor
    dereferences it; otherwise the root is the block of its first element,
    so [vector::at] never throws there. *)
Theorem constructor_outcomes erange (doc : list ascii) :
  nul_free doc = true →
  match parseBuffer erange doc Json_init with
  | Throw e => parse_error e ∧ Json_ctor erange doc = Some (Throw e)
  | Ok j =>
      match brackets_ j with
      | o :: _ =>
          Json_ctor erange doc
          = Some (throw_runtime ("Bracket not closed: " +:+ String o ""))
      | [] =>
          ∃ top, store j !! 0 = Some top
                 ∧ match array_data_ top with
                   | None => Json_ctor erange doc = Some NullDeref
                   | Some v =>
                       ∃ a v' root,
                         v = Some a :: v' ∧ store j !! a = Some root
                         ∧ Json_ctor erange doc = Some (Ok (root, store j))
                   end
      end
  | NullDeref | StringOverrun => False
  end.
Proof.
  intros Hfree. rewrite Json_ctor_whole by done. unfold parse_whole.
  pose proof (parseBuffer_outcome erange doc Json_init parser_invariant_init)
    as Hout.
  destruct (parseBuffer erange doc Json_init) as [j|e| |]; simpl in *;
    [|done..].
  pose proof (finish_cases j Hout) as Hfin.
  destruct (finish j) as [[root h]|e| |]; [| | |done].
  - destruct Hfin as (-> & -> & top & a & v & H0 & Hv & Ha).
    exists top. split; [done|]. rewrite Hv. by exists a, v, root.
  - by destruct Hfin as (o & B & -> & ->).
  - destruct Hfin as (-> & top & H0 & Hv). exists top. by rewrite Hv.
Qed.

Lemma constructor_outcomes_witness :
  ∃ top,
    [mkJsonData "" ARRAY "" None (Some [Some 1]);
     mkJsonData "" ARRAY "" None (Some [Some 2; Some 3; Some 4]);
     mkJsonData "" STRING "1" None None;
     mkJsonData "" STRING "2" None None;
     mkJsonData "" STRING "3" None None] !! 0 = Some top
    ∧ match array_data_ top with
      | None => Json_ctor (λ _, false) scenario_A = Some NullDeref
      | Some v =>
          ∃ a v' root,
            v = Some a :: v'
            ∧ [mkJsonData "" ARRAY "" None (Some [Some 1]);
               mkJsonData "" ARRAY "" None (Some [Some 2; Some 3; Some 4]);
               mkJsonData "" STRING "1" None None;
               mkJsonData "" STRING "2" None None;
               mkJsonData "" STRING "3" None None] !! a = Some root
            ∧ Json_ctor (λ _, false) scenario_A
              = Some (Ok (root,
                  [mkJsonData "" ARRAY "" None (Some [Some 1]);
                   mkJsonData "" ARRAY "" None (Some [Some 2; Some 3; Some 4]);
                   mkJsonData "" STRING "1" None None;
                   mkJsonData "" STRING "2" None None;
                   mkJsonData "" STRING "3" None None]))
      end.
Proof.
  exact (constructor_outcomes (λ _, false) scenario_A eq_refl).
Defined.

Lemma reachable_in_store h root d :
  (∃ a, h !! a = Some root) → reachable_from h root d →
  ∃ a, h !! a = Some d.
Proof.
  intros Hroot Hreach.
  induction Hreach as [|x y z (a & _ & Ha) _ IH]; [done|].
  apply IH. eauto.
Qed.

(** The store the constructor leaves satisfies the invariant of the store,
    and the root is one of its blocks. *)
Lemma Json_ctor_store_ok erange doc root h :
  Json_ctor erange doc = Some (Ok (root, h)) →
  store_ok h ∧ ∃ a, h !! a = Some root.
Proof.
  intros Hctor. apply Json_ctor_ok in Hctor.
  unfold parse_whole in Hctor.
  apply outcome_bind_ok in Hctor as (j & Hrun & Hfin).
  pose proof (parseBuffer_outcome erange doc Json_init parser_invariant_init)
    as Hout.
  rewrite Hrun in Hout. simpl in Hout.
  pose proof (finish_cases j Hout) as Hcases. rewrite Hfin in Hcases.
  destruct Hcases as (-> & _ & top & a & v & _ & _ & Ha).
  destruct Hout as (_ & _ & _ & _ & Hok). eauto.
Qed.

Lemma finished_block_ok erange doc root h d :
  Json_ctor erange doc = Some (Ok (root, h)) →
  reachable_from h root d →
  children_below (length h) d ∧ containers_nonempty d ∧ containers_typed d
  ∧ fields_unused d.
Proof.
  intros Hctor Hreach.
  destruct (Json_ctor_store_ok _ _ _ _ Hctor) as [Hok Hroot].
  destruct (reachable_in_store _ _ _ Hroot Hreach) as (b & Hb).
  by eapply store_ok_lookup.
Qed.

(** X4: In the store of a finished tree, every pointer held by a block
    reachable from the root designates a block of the store (no handle read
    from the tree is null or dangling), and every allocated container holds
    at least one element (a childless object or array keeps its null
    container pointer) and belongs to a block of its own type: only an
    OBJECT block holds a map, only an ARRAY block holds a vector. *)
Theorem finished_tree_closed erange (doc : list ascii) root h d :
  Json_ctor erange doc = Some (Ok (root, h)) →
  reachable_from h root d →
  (∀ p, points_to d p → ∃ a d', p = Some a ∧ h !! a = Some d')
  ∧ (object_data_ d ≠ Some ∅ ∧ array_data_ d ≠ Some [])
  ∧ (object_data_ d ≠ None → type_ d = OBJECT)
  ∧ (array_data_ d ≠ None → type_ d = ARRAY).
Proof.
  intros Hctor Hreach.
  destruct (finished_block_ok _ _ _ _ _ Hctor Hreach)
    as (Hch & Hne & Hty & _).
  split; [|done].
  intros p Hp. destruct (Hch p Hp) as (c & -> & Hc).
  destruct (lookup_lt_is_Some_2 _ _ Hc) as [d' Hd']. eauto.
Qed.

Lemma finished_tree_closed_witness :
  (∀ p, points_to (mkJsonData "" ARRAY "" None (Some [Some 2; Some 3; Some 4]))
          p →
        ∃ a d', p = Some a
                ∧ [mkJsonData "" ARRAY "" None (Some [Some 1]);
                   mkJsonData "" ARRAY "" None (Some [Some 2; Some 3; Some 4]);
                   mkJsonData "" STRING "1" None None;
                   mkJsonData "" STRING "2" None None;
                   mkJsonData "" STRING "3" None None] !! a = Some d')
  ∧ (object_data_ (mkJsonData "" ARRAY "" None
                     (Some [Some 2; Some 3; Some 4])) ≠ Some ∅
     ∧ array_data_ (mkJsonData "" ARRAY "" None
                      (Some [Some 2; Some 3; Some 4])) ≠ Some [])
  ∧ (object_data_ (mkJsonData "" ARRAY "" None
                     (Some [Some 2; Some 3; Some 4])) ≠ None →
     type_ (mkJsonData "" ARRAY "" None (Some [Some 2; Some 3; Some 4]))
     = OBJECT)
  ∧ (array_data_ (mkJsonData "" ARRAY "" None
                    (Some [Some 2; Some 3; Some 4])) ≠ None →
     type_ (mkJsonData "" ARRAY "" None (Some [Some 2; Some 3; Some 4]))
     = ARRAY).
Proof.
  eapply (finished_tree_closed (λ _, false) scenario_A).
  - vm_compute. reflexivity.
  - apply rtc_refl.
Defined.

(** X5: The parser never writes the field [key_]: in a finished tree it is
    empty in every block, the members of objects included, and
    [string_data_] is empty in every object and array. *)
Theorem finished_tree_fields erange (doc : list ascii) root h d :
  Json_ctor erange doc = Some (Ok (root, h)) →
  reachable_from h root d →
  key_ d = "" ∧ (type_ d ≠ STRING → string_data_ d = "").
Proof.
  intros Hctor Hreach.
  by destruct (finished_block_ok _ _ _ _ _ Hctor Hreach) as (_ & _ & _ & Hfl).
Qed.

Lemma finished_tree_fields_witness :
  key_ (mkJsonData "" STRING "12.5e2" None None) = ""
  ∧ (type_ (mkJsonData "" STRING "12.5e2" None None) ≠ STRING →
     string_data_ (mkJsonData "" STRING "12.5e2" None None) = "").
Proof.
  eapply (finished_tree_fields (λ _, false) scenario_C _ _).
  - vm_compute. reflexivity.
  - eapply rtc_l; [|apply rtc_refl].
    exists 2. split; [|reflexivity].
    left. exists {[ "n" := Some 2 ]}, "n". split; reflexivity.
Defined.

(** ** Brackets and quotes *)

Lemma blank_bracket_class (c : ascii) :
  isBlank c = true → isOpeningBracket c = false ∧ isClosingBracket c = false.
Proof.
  destruct c as [[] [] [] [] [] [] [] []]; vm_compute; intros; done.
Qed.

Lemma append_text_brackets j j' :
  append_text j = Ok j' → brackets_ j' = brackets_ j.
Proof.
  unfold append_text. intros Hrun.
  apply outcome_bind_ok in Hrun as (cur & _ & Hrun).
  destruct (type_ cur); try discriminate.
  - destruct (keys_ _); simplify_eq/=. unfold store_current; simpl.
    by destruct (currently_working_on_ j).
  - simplify_eq/=. unfold store_current; simpl.
    by destruct (currently_working_on_ j).
Qed.

Lemma close_bracket_brackets c j j' :
  close_bracket c j = Ok j' →
  ∃ o, brackets_ j = o :: brackets_ j' ∧ sameBracketType c o = true.
Proof.
  unfold close_bracket. intros Hrun.
  destruct (brackets_ j) as [|o B]; [discriminate|].
  destruct (sameBracketType c o) eqn:Hsame; [|discriminate].
  simpl in Hrun. exists o. split; [|done]. f_equal.
  destruct (working_on_ j) as [|parent rest]; [discriminate|].
  apply outcome_bind_ok in Hrun as (cur & _ & Hrun).
  destruct (type_ cur); try discriminate.
  - simpl in Hrun. destruct (keys_ j); simplify_eq/=.
    unfold store_current; simpl. by destruct parent.
  - simplify_eq/=. unfold store_current; simpl. by destruct parent.
Qed.

Lemma processJson_brackets erange c j j' :
  processJson erange c j = Ok j' →
  if isBlank c then brackets_ j' = brackets_ j
  else if isOpeningBracket c then brackets_ j' = c :: brackets_ j
  else if isClosingBracket c then
    ∃ o, brackets_ j = o :: brackets_ j' ∧ sameBracketType c o = true
  else brackets_ j' = brackets_ j.
Proof.
  unfold processJson. intros Hrun.
  destruct (isBlank c); [by simplify_eq|].
  set (j3 := if isBoolPart c && _ then _ else _) in Hrun.
  assert (brackets_ j3 = brackets_ j) as Hb.
  { subst j3. by repeat (case_match; simpl). }
  rewrite <- Hb. clearbody j3.
  apply outcome_bind_ok in Hrun as (j4 & Hrun4 & Hrun).
  apply outcome_bind_ok in Hrun as (j5 & Hrun5 & Hrun).
  injection Hrun as <-. simpl.
  assert (brackets_ j4 = brackets_ j3) as <-.
  { destruct (value_ends c j3); [|by simplify_eq].
    apply outcome_bind_ok in Hrun4 as (_ & _ & Hrun4).
    by eapply append_text_brackets. }
  destruct (isOpeningBracket c).
  - injection Hrun5 as <-. unfold open_bracket. simpl.
    by destruct (currently_working_on_ j4).
  - destruct (isClosingBracket c); [|by simplify_eq].
    by eapply close_bracket_brackets.
Qed.

Lemma parseChar_scan erange c rest j j' :
  parseChar erange c j = Ok j' →
  bracket_scan (c :: rest) (quotes_open j) (brackets_ j)
  = bracket_scan rest (quotes_open j') (brackets_ j')
  ∧ quoted_after (c :: rest) (quotes_open j)
    = quoted_after rest (quotes_open j').
Proof.
  unfold parseChar. simpl. intros Hrun.
  destruct (ch_eq c dquote).
  - destruct (quotes_open j); by simplify_eq/=.
  - destruct (quotes_open j) eqn:Hq; [simplify_eq/=; by rewrite Hq|].
    pose proof (processJson_quotes _ _ _ _ Hrun) as Hq'.
    pose proof (processJson_brackets _ _ _ _ Hrun) as Hb.
    rewrite Hq', Hq. split; [|done].
    destruct (isBlank c) eqn:Hblank.
    { destruct (blank_bracket_class c Hblank) as [-> ->]. by rewrite Hb. }
    destruct (isOpeningBracket c); [by rewrite Hb|].
    destruct (isClosingBracket c); [|by rewrite Hb].
    destruct Hb as (o & -> & ->). done.
Qed.

Lemma parseBuffer_scan erange input j j' :
  parseBuffer erange input j = Ok j' →
  bracket_scan input (quotes_open j) (brackets_ j) = Some (brackets_ j')
  ∧ quoted_after input (quotes_open j) = quotes_open j'.
Proof.
  revert j. induction input as [|c rest IH]; intros j Hrun.
  - by simplify_eq/=.
  - cbn [parseBuffer] in Hrun.
    apply outcome_bind_ok in Hrun as (j1 & H1 & H2).
    destruct (parseChar_scan erange c rest j j1 H1) as [-> ->].
    by apply IH.
Qed.

(** X6: Whenever the parser gets through an input, the quote flag is the parity
    of the quote characters read, and the bracket stack is the stack of the
    brackets read outside quotes and not yet closed, each closing bracket
    having met an opening bracket of its own shape. *)
Theorem parse_tracks_brackets erange (input : list ascii) (j j' : Json) :
  parseBuffer erange input j = Ok j' →
  quotes_open j' = quoted_after input (quotes_open j)
  ∧ bracket_scan input (quotes_open j) (brackets_ j) = Some (brackets_ j').
Proof.
  intros Hrun. by destruct (parseBuffer_scan erange input j j' Hrun) as [-> ->].
Qed.

Lemma parse_tracks_brackets_witness :
  quotes_open (with_quotes_open true (with_text "" Json_init))
  = quoted_after [dquote] (quotes_open Json_init)
  ∧ bracket_scan [dquote] (quotes_open Json_init) (brackets_ Json_init)
    = Some (brackets_ (with_quotes_open true (with_text "" Json_init))).
Proof.
  apply (parse_tracks_brackets (λ _, false) [dquote] Json_init).
  reflexivity.
Defined.

(** X7: A file without NUL whose brackets outside quotes are not balanced
    is always rejected with an exception: one of the exceptions of the
    parser, or "Bracket not closed" at the end of the file. *)
Theorem unbalanced_document_rejected erange (doc : list ascii) :
  nul_free doc = true →
  bracket_scan doc false [] ≠ Some [] →
  ∃ e, Json_ctor erange doc = Some (Throw e)
       ∧ (parse_error e ∨ UnclosedBracket e).
Proof.
  intros Hfree Hscan. rewrite Json_ctor_whole by done. unfold parse_whole.
  pose proof (parseBuffer_outcome erange doc Json_init parser_invariant_init)
    as Hout.
  destruct (parseBuffer erange doc Json_init) as [j|e| |] eqn:Hrun;
    simpl in *; [|by eauto|done..].
  destruct (parseBuffer_scan erange doc Json_init j Hrun) as [Hb _].
  simpl in Hb. unfold finish.
  destruct (brackets_ j) as [|o B]; [done|]. simpl.
  eexists. split; [done|]. right. by exists o.
Qed.

Lemma unbalanced_document_rejected_witness :
  ∃ e, Json_ctor (λ _, false) (chars "[[1]") = Some (Throw e)
       ∧ (parse_error e ∨ UnclosedBracket e).
Proof.
  apply (unbalanced_document_rejected (λ _, false) (chars "[[1]"));
    [reflexivity|].
  vm_compute. discriminate.
Defined.

(** ** White space *)

Lemma parseChar_quotes erange c j j' :
  parseChar erange c j = Ok j' →
  quotes_open j'
  = if ch_eq c dquote then negb (quotes_open j) else quotes_open j.
Proof.
  unfold parseChar. intros Hrun. destruct (ch_eq c dquote).
  - destruct (quotes_open j); by simplify_eq/=.
  - destruct (quotes_open j) eqn:Hq; [simplify_eq/=; by rewrite Hq|].
    apply processJson_quotes in Hrun. congruence.
Qed.

Lemma parseBuffer_strip erange input j :
  parseBuffer erange input j
  = parseBuffer erange (strip_blanks input (quotes_open j)) j.
Proof.
  revert j. induction input as [|c rest IH]; intros j; [done|].
  cbn [strip_blanks parseBuffer].
  assert (parseChar erange c j ≫= parseBuffer erange rest
          = parseBuffer erange
              (c :: strip_blanks rest
                      (if ch_eq c dquote then negb (quotes_open j)
                       else quotes_open j)) j) as Hkeep.
  { cbn [parseBuffer].
    destruct (parseChar erange c j) as [j1| | |] eqn:Hrun; [|done..].
    cbn [mbind outcome_bind]. rewrite IH.
    by rewrite (parseChar_quotes _ _ _ _ Hrun). }
  destruct (ch_eq c dquote) eqn:Hdq; [exact Hkeep|].
  destruct (quotes_open j) eqn:Hq; [exact Hkeep|].
  destruct (isBlank c) eqn:Hblank; [|exact Hkeep].
  unfold parseChar, processJson. rewrite Hdq, Hq, Hblank.
  cbn [mbind outcome_bind]. rewrite IH. by rewrite Hq.
Qed.

Lemma strip_blanks_nul_free doc quoted :
  nul_free doc = true → nul_free (strip_blanks doc quoted) = true.
Proof.
  revert quoted. induction doc as [|c doc IH]; intros quoted; [done|].
  cbn [nul_free forallb strip_blanks]. intros [Hc Hdoc]%andb_true_iff.
  specialize (IH (negb quoted) Hdoc) as IHn. specialize (IH quoted Hdoc).
  unfold nul_free in IH, IHn.
  repeat case_match; cbn [forallb]; rewrite ?Hc, ?IH, ?IHn; done.
Qed.

(** X8: In a file without NUL, white space outside quotes changes nothing,
    wherever it stands, inside a literal included: the constructor gives the
    same result, store included, on the file and on the file without its
    white space outside quotes. *)
Theorem blanks_outside_quotes_ignored erange (doc : list ascii) :
  nul_free doc = true →
  Json_ctor erange doc = Json_ctor erange (strip_blanks doc false).
Proof.
  intros Hfree.
  rewrite !Json_ctor_whole by (done || by apply strip_blanks_nul_free).
  unfold parse_whole.
  by rewrite (parseBuffer_strip erange doc Json_init).
Qed.

Lemma blanks_outside_quotes_ignored_witness :
  Json_ctor (λ _, false) scenario_A
  = Json_ctor (λ _, false) (strip_blanks scenario_A false).
Proof.
  apply (blanks_outside_quotes_ignored (λ _, false) scenario_A).
  reflexivity.
Defined.

(** ** Documents that attach nothing *)

Lemma processJson_no_structure erange c j :
  no_structure c = true →
  ∃ j', processJson erange c j = Ok j'
        ∧ store j' = store j ∧ brackets_ j' = brackets_ j
        ∧ currently_working_on_ j' = currently_working_on_ j.
Proof.
  unfold no_structure, isClosingBracket. intros Hc.
  apply negb_true_iff in Hc.
  apply orb_false_iff in Hc as [Hc Hclose].
  apply orb_false_iff in Hc as [Hcomma Hopen].
  apply orb_false_iff in Hclose as [Hc1 Hc2].
  unfold processJson, value_ends, isClosingBracket.
  destruct (isBlank c); [by eauto|].
  rewrite Hcomma, Hc1, Hc2, Hopen. simpl.
  eexists. split; [done|]. simpl.
  by repeat (case_match; simpl).
Qed.

Lemma parseBuffer_no_structure erange input j :
  forallb no_structure input = true →
  ∃ j', parseBuffer erange input j = Ok j'
        ∧ store j' = store j ∧ brackets_ j' = brackets_ j
        ∧ currently_working_on_ j' = currently_working_on_ j.
Proof.
  revert j. induction input as [|c rest IH]; intros j Hall; [by eauto|].
  simpl in Hall. apply andb_true_iff in Hall as [Hc Hall].
  assert (∃ j1, parseChar erange c j = Ok j1
                ∧ store j1 = store j ∧ brackets_ j1 = brackets_ j
                ∧ currently_working_on_ j1 = currently_working_on_ j)
    as (j1 & Hrun & Hs & Hb & Hcur).
  { unfold parseChar.
    destruct (ch_eq c dquote), (quotes_open j); try by eauto.
    by apply processJson_no_structure. }
  destruct (IH j1 Hall) as (j' & Hrun' & Hs' & Hb' & Hcur').
  exists j'. cbn [parseBuffer]. rewrite Hrun. cbn [mbind outcome_bind].
  split; [done|]. split; [congruence|]. split; congruence.
Qed.

(** X9: A file without NUL, without a comma and without a bracket (an empty
    file, white space only, a bare number, literal or string) attaches
    nothing to the top-level array, and the constructor reads the first
    element through the null vector pointer.  The same happens when the file
    cannot be opened. *)
Theorem nothing_attached_null_dereference erange (doc : list ascii)
    (fuel : nat) :
  nul_free doc = true →
  forallb no_structure doc = true →
  Json_ctor erange doc = Some NullDeref
  ∧ parseFile erange (S fuel) buffer_size_ (ifstream_open None)
    = Some NullDeref.
Proof.
  intros Hfree Hall. split; [|done].
  rewrite Json_ctor_whole by done. unfold parse_whole.
  destruct (parseBuffer_no_structure erange doc Json_init Hall)
    as (j' & -> & Hs & Hb & Hcur).
  cbn [mbind outcome_bind]. unfold finish. by rewrite Hb, Hcur, Hs.
Qed.

Lemma nothing_attached_null_dereference_witness :
  Json_ctor (λ _, false) (chars "42") = Some NullDeref
  ∧ parseFile (λ _, false) 1 buffer_size_ (ifstream_open None)
    = Some NullDeref.
Proof.
  apply (nothing_attached_null_dereference (λ _, false) (chars "42") 0);
    reflexivity.
Defined.

(** ** A value at the top level *)

(** X10: A well-formed value followed by a comma, scalars included, is
    accepted at the top level, with any white space between the tokens, in
    a file without NUL: the comma attaches it to the top-level array, and
    the root is its block. *)
Theorem top_level_value_with_comma erange (v : value) (doc : list ascii) :
  well_formed erange v = true →
  layout (tokens v ++ [TComma]) doc →
  nul_free doc = true →
  ∃ root h,
    Json_ctor erange doc = Some (Ok (root, h))
    ∧ h !! 1 = Some root
    ∧ represents h 1 (Some 1) v.
Proof.
  intros Hwf Hlay Hfree.
  assert (ready Json_init) as Hready by done.
  assert (accepts Json_init 0 (set_type ARRAY JsonData_default)) as Hacc
    by (split; [done|]; split; [done|]; by left).
  destruct (well_formed_value_spec erange v Hwf ","%char Json_init 0 _
              (or_introl eq_refl) (λ _, eq_refl) Hready Hacc)
    as (j' & Hatt & Hrun).
  destruct Hatt as (Hrep & Ha & Hk & _ & _ & Hb & _ & Hc & _).
  simpl in Hrep, Ha, Hb.
  destruct (represents_block _ _ _ _ Hrep) as (a & root & [= <-] & Hroot).
  exists root, (store j'). split; [|done].
  rewrite Json_ctor_whole by done. unfold parse_whole.
  rewrite (layout_run erange (tokens v ++ [TComma]) doc); [|done| |done].
  2:{ rewrite forallb_app.
      by rewrite (well_formed_tokens_closed erange v Hwf). }
  rewrite render_app, render_single. cbn [token_chars].
  rewrite Hrun. unfold after. simpl.
  unfold finish, deref. simpl. rewrite Hb, Hc, Ha. simpl. by rewrite Hroot.
Qed.

Lemma top_level_value_with_comma_witness :
  ∃ root h,
    Json_ctor (λ _, false) (chars "42,") = Some (Ok (root, h))
    ∧ h !! 1 = Some root
    ∧ represents h 1 (Some 1) (Lit "42").
Proof.
  apply (top_level_value_with_comma (λ _, false) (Lit "42") (chars "42,"));
    [reflexivity| |reflexivity].
  apply (layout_cons [] (TLit "42") [TComma] [","%char]); [constructor|].
  apply (layout_cons [] TComma [] []); [constructor|].
  apply layout_nil. constructor.
Defined.

(** ** The kind of a literal *)

(** X11: In every state the parser reaches, at most one of the two literal flags
    is set, although the letter e belongs to both alphabets: a literal is
    validated either as a number or as a boolean, by its first character. *)
Theorem literal_flags_exclusive erange (input : list ascii) (j : Json) :
  parseBuffer erange input Json_init = Ok j →
  processing_number_ j && processing_bool_ j = false.
Proof. intros Hrun. by eapply parseBuffer_flags in Hrun. Qed.

Lemma literal_flags_exclusive_witness :
  processing_number_
    (with_last_symbol "e" (push_char "e"
       (with_processing_number true Json_init)))
  && processing_bool_
       (with_last_symbol "e" (push_char "e"
          (with_processing_number true Json_init)))
  = false.
Proof.
  apply (literal_flags_exclusive (λ _, false) ["e"%char]).
  reflexivity.
Defined.

(** X12: Within a literal, a character of the other alphabet only is dropped
    without an error: a digit after the letters of a boolean, a letter such
    as t or s after digits.  Only the last symbol seen changes. *)
Theorem literal_drops_other_alphabet erange (c : ascii) (j : Json) :
  (processing_bool_ j = true ∧ isNumberPart c = true ∧ isBoolPart c = false)
  ∨ (processing_number_ j = true ∧ isBoolPart c = true
     ∧ isNumberPart c = false) →
  processJson erange c j = Ok (with_last_symbol c j).
Proof.
  intros Hcase.
  assert (isBlank c = false ∧ ch_eq c ":" = false ∧ ch_eq c "," = false
          ∧ isOpeningBracket c = false ∧ ch_eq c "}" = false
          ∧ ch_eq c "]" = false) as (Hblank & Hcolon & Hcomma & Hopen & Hc1 & Hc2).
  { assert (isNumberPart c || isBoolPart c = true) as Hc
      by (destruct Hcase as [(_ & -> & _) | (_ & -> & _)];
          [done | by rewrite orb_true_r]).
    clear Hcase. revert Hc.
    destruct c as [[] [] [] [] [] [] [] []]; vm_compute; intros; done. }
  unfold processJson, value_ends, isClosingBracket.
  rewrite Hblank, Hcolon, Hcomma, Hopen, Hc1, Hc2. cbv iota.
  destruct Hcase as [(Hb & Hn & Hnb) | (Hn & Hb & Hnb)].
  - rewrite Hn, Hb. cbn [negb andb]. rewrite Hnb. reflexivity.
  - rewrite Hnb. cbn [andb]. rewrite Hb, Hn. reflexivity.
Qed.

Lemma literal_drops_other_alphabet_witness :
  processJson (λ _, false) "1" (with_processing_bool true Json_init)
  = Ok (with_last_symbol "1" (with_processing_bool true Json_init)).
Proof.
  apply (literal_drops_other_alphabet (λ _, false) "1"
           (with_processing_bool true Json_init)).
  left. repeat split.
Defined.

(** ** Deleting, then reading *)

Lemma ptr_del_key_ok h a key h' :
  ptr_del_key h (Some a) key = Ok h' →
  ∃ d m, h !! a = Some d ∧ type_ d = OBJECT ∧ object_data_ d = Some m
         ∧ is_Some (m !! key)
         ∧ h' = <[a := set_object_data (Some (delete key m)) d]> h.
Proof.
  unfold ptr_del_key, deref. intros Hdel.
  destruct (h !! a) as [d|] eqn:Ha; [|done]. simpl in Hdel.
  destruct (bool_decide (type_ d = OBJECT)) eqn:Hty; [|done].
  apply bool_decide_eq_true in Hty. simpl in Hdel.
  destruct (object_data_ d) as [m|] eqn:Hm; [|done].
  destruct (m !! key) eqn:Hkey; [|done].
  injection Hdel as <-. exists d, m. rewrite Hkey. eauto 10.
Qed.

(** X13: After [handle.del(key)] succeeded, the handle no longer finds the key
    (and a second deletion of it fails) with the exception "Key not found",
    the map left empty included, while every other key reads as before. *)
Theorem del_key_then_subscript (h h' : heap) (a : nat) (key key' : string) :
  ptr_del_key h (Some a) key = Ok h' →
  ptr_at_key h' (Some a) key'
  = (if String.eqb key' key
     then throw_runtime ("Key " +:+ key' +:+ " not found")
     else ptr_at_key h (Some a) key')
  ∧ ptr_del_key h' (Some a) key
    = throw_runtime ("Key " +:+ key +:+ " not found").
Proof.
  intros Hdel.
  destruct (ptr_del_key_ok _ _ _ _ Hdel) as (d & m & Ha & Hty & Hm & _ & ->).
  pose proof (lookup_lt_Some _ _ _ Ha) as Hlt.
  unfold ptr_at_key, ptr_del_key, deref.
  rewrite list_lookup_insert_eq, Ha by done. simpl.
  rewrite Hty, Hm. simpl. split.
  - destruct (String.eqb_spec key' key) as [->|Hne].
    + by rewrite lookup_delete_eq.
    + by rewrite lookup_delete_ne.
  - by rewrite lookup_delete_eq.
Qed.

Lemma del_key_then_subscript_witness :
  ptr_at_key
    [mkJsonData "" OBJECT "" (Some (delete "k" {[ "k" := Some 1 ]})) None]
    (Some 0) "k"
  = throw_runtime "Key k not found"
  ∧ ptr_del_key
      [mkJsonData "" OBJECT "" (Some (delete "k" {[ "k" := Some 1 ]})) None]
      (Some 0) "k"
    = throw_runtime "Key k not found".
Proof.
  apply (del_key_then_subscript
           [mkJsonData "" OBJECT "" (Some {[ "k" := Some 1 ]}) None]
           _ 0 "k" "k").
  reflexivity.
Defined.

Lemma ptr_del_index_ok h a index h' :
  ptr_del_index h (Some a) index = Ok h' →
  ∃ d v, h !! a = Some d ∧ type_ d = ARRAY ∧ array_data_ d = Some v
         ∧ (0 ≤ index < Z.of_nat (length v))%Z
         ∧ h' = <[a := set_array_data
                          (Some (vector_erase (Z.to_nat index) v)) d]> h.
Proof.
  unfold ptr_del_index, deref. intros Hdel.
  destruct (h !! a) as [d|] eqn:Ha; [|done]. simpl in Hdel.
  destruct (bool_decide (type_ d = ARRAY)) eqn:Hty; [|done].
  apply bool_decide_eq_true in Hty. simpl in Hdel.
  destruct (Z.ltb_spec index 0); [done|].
  destruct (array_data_ d) as [v|] eqn:Hv; [|done].
  destruct (Z.leb_spec (Z.of_nat (length v)) index); [done|].
  simpl in Hdel. injection Hdel as <-. exists d, v.
  split; [done|]. split; [done|]. split; [done|]. split; [lia|].
  destruct (Nat.eqb_spec (length v) 1) as [H1|]; [|done].
  replace (Z.to_nat index) with 0 by lia.
  by rewrite vector_erase_single.
Qed.

(** X14: After [handle.del(index)] succeeded, the handle reads the elements
    before the index as before and, at and after the index, the element
    that was one place further; where there is none, the exception "Index
    out of bounds" is thrown, the vector left empty included. *)
Theorem del_index_then_subscript (h h' : heap) (a : nat) (index i : Z) :
  ptr_del_index h (Some a) index = Ok h' →
  ptr_at_index h' (Some a) i
  = if (i <? index)%Z then ptr_at_index h (Some a) i
    else match ptr_at_index h (Some a) (i + 1) with
         | Ok q => Ok q
         | _ => throw_runtime ("Index " +:+ to_string i +:+ " out of bounds")
         end.
Proof.
  intros Hdel.
  destruct (ptr_del_index_ok _ _ _ _ Hdel) as (d & v & Ha & Hty & Hv & Hi & ->).
  pose proof (lookup_lt_Some _ _ _ Ha) as Hlt.
  assert (length (vector_erase (Z.to_nat index) v) = length v - 1) as Hlen
    by (apply vector_erase_length; lia).
  unfold ptr_at_index, deref.
  rewrite list_lookup_insert_eq, Ha by done. simpl.
  rewrite Hty, Hv. simpl. unfold vector_at. rewrite Hlen.
  destruct (Z.ltb_spec i index) as [Hlo | Hhi].
  - destruct (Z.ltb_spec i 0) as [|Hpos]; [done|]. simpl.
    destruct (Z.leb_spec (Z.of_nat (length v - 1)) i); [lia|].
    destruct (Z.leb_spec (Z.of_nat (length v)) i); [lia|].
    rewrite vector_erase_before by lia. done.
  - destruct (Z.ltb_spec i 0); [lia|].
    destruct (Z.ltb_spec (i + 1) 0); [lia|]. simpl.
    destruct (Z.leb_spec (Z.of_nat (length v - 1)) i);
      destruct (Z.leb_spec (Z.of_nat (length v)) (i + 1)); try lia; [done|].
    replace (Z.to_nat i) with (Z.to_nat (i + 1) - 1) by lia.
    rewrite vector_erase_after by lia.
    destruct (lookup_lt_is_Some_2 v (Z.to_nat (i + 1))) as [q ->]; [lia|].
    done.
Qed.

Lemma del_index_then_subscript_witness :
  ptr_at_index
    [mkJsonData "" ARRAY "" None
       (Some (vector_erase (Z.to_nat 0) [Some 1; Some 2]))]
    (Some 0) 0
  = Ok (Some 2).
Proof.
  apply (del_index_then_subscript
           [mkJsonData "" ARRAY "" None (Some [Some 1; Some 2])] _ 0 0 0).
  reflexivity.
Defined.

(** ** Every answer of the access interface on a parsed document *)

Lemma first_value_absent key kvs ps :
  first_value key kvs = None → first_ptr key (zip (map fst kvs) ps) = None.
Proof.
  revert ps. induction kvs as [|[k v] kvs IH]; intros ps Hnone; [done|].
  destruct ps as [|p ps]; [done|]. simpl in *.
  destruct (String.eqb k key); [done|]. by apply IH.
Qed.

(** The block of a value that has no child for the selector. *)
Lemma block_refusal h lo a d v sel :
  h !! a = Some d → represents h lo (Some a) v →
  value_select v sel = None →
  match sel, v with
  | Key key, Obj [] => type_ d = OBJECT ∧ object_data_ d = None
  | Key key, Obj _ =>
      type_ d = OBJECT ∧ ∃ m, object_data_ d = Some m ∧ m !! key = None
  | Key key, Arr vs => type_ d = ARRAY
  | Index index, Arr [] => type_ d = ARRAY ∧ array_data_ d = None
  | Index index, Arr _ =>
      type_ d = ARRAY
      ∧ ∃ ps, array_data_ d = Some ps ∧ out_of_bounds index ps = true
  | Index index, Obj kvs => type_ d = OBJECT
  | _, _ => type_ d = STRING
  end.
Proof.
  intros Ha Hrep Hsel.
  destruct sel as [key|index], v as [s|t|vs|kvs];
    inversion Hrep as [| |? d' ? ps ? Ha' Hty Hdata Hreps
                          |? d' ? ps ? Ha' Hty Hdata Hreps]; subst;
    simplify_eq/=; try done.
  - destruct kvs as [|kv kvs]; [by destruct ps|].
    split; [done|]. rewrite Hdata.
    pose proof (first_value_absent key (kv :: kvs) ps Hsel) as Hnone.
    destruct ps as [|p ps]; [by inversion Hreps|].
    eexists. split; [done|].
    by rewrite foldl_map_insert_lookup, lookup_empty.
  - pose proof (Forall2_length _ _ _ Hreps) as Hlen.
    destruct vs as [|v vs]; [by destruct ps|].
    split; [done|]. destruct ps as [|p ps]; [done|].
    exists (p :: ps). split; [done|]. unfold out_of_bounds.
    destruct (Z.ltb_spec index 0); [done|].
    apply lookup_ge_None in Hsel.
    destruct (Z.leb_spec (Z.of_nat (length (p :: ps))) index); [done|lia].
Qed.

Lemma handle_refused h lo p v sel :
  represents h lo p v → value_select v sel = None →
  ptr_select h p sel = handle_refusal v sel.
Proof.
  intros Hrep Hsel.
  destruct (represents_block _ _ _ _ Hrep) as (a & d & -> & Ha).
  pose proof (block_refusal _ _ _ _ _ _ Ha Hrep Hsel) as Hblock.
  destruct sel as [key|index]; simpl;
    unfold ptr_at_key, ptr_at_index, deref; rewrite Ha; simpl.
  - destruct v as [s|t|vs|[|kv kvs]]; simpl.
    + by rewrite Hblock.
    + by rewrite Hblock.
    + by rewrite Hblock.
    + destruct Hblock as [-> ->]. done.
    + destruct Hblock as (-> & m & -> & ->). done.
  - destruct v as [s|t|[|v vs]|kvs]; simpl.
    + by rewrite Hblock.
    + by rewrite Hblock.
    + destruct Hblock as [-> ->]. simpl. by destruct (index <? 0)%Z.
    + destruct Hblock as (-> & ps & -> & Hbounds). simpl.
      unfold out_of_bounds in Hbounds.
      destruct (index <? 0)%Z; [done|]. simpl in Hbounds. by rewrite Hbounds.
    + by rewrite Hblock.
Qed.

Lemma root_refused h lo a root v sel :
  h !! a = Some root → containers_typed root →
  represents h lo (Some a) v → value_select v sel = None →
  Json_select root sel = root_refusal v sel.
Proof.
  intros Ha [Hobj Harr] Hrep Hsel.
  pose proof (block_refusal _ _ _ _ _ _ Ha Hrep Hsel) as Hblock.
  assert (type_ root ≠ OBJECT → object_data_ root = None) as Hno.
  { intros Hty. destruct (object_data_ root) eqn:Hm; [|done].
    destruct Hty. by apply Hobj. }
  assert (type_ root ≠ ARRAY → array_data_ root = None) as Hna.
  { intros Hty. destruct (array_data_ root) eqn:Hv; [|done].
    destruct Hty. by apply Harr. }
  destruct sel as [key|index]; simpl; unfold Json_at_key, Json_at_index.
  - destruct v as [s|t|vs|[|kv kvs]]; simpl.
    + rewrite Hno; [done | by rewrite Hblock].
    + rewrite Hno; [done | by rewrite Hblock].
    + rewrite Hno; [done | by rewrite Hblock].
    + destruct Hblock as [_ ->]. done.
    + destruct Hblock as (_ & m & -> & ->). done.
  - destruct v as [s|t|[|v vs]|kvs]; simpl.
    + rewrite Hna; [done | by rewrite Hblock].
    + rewrite Hna; [done | by rewrite Hblock].
    + destruct Hblock as [_ ->]. done.
    + destruct Hblock as (_ & ps & -> & ->). done.
    + rewrite Hna; [done | by rewrite Hblock].
Qed.

Lemma represents_conversion h lo p v :
  represents h lo p v → ptr_to_string h p = text_or_refusal v.
Proof.
  intros Hrep. unfold text_or_refusal.
  destruct (scalar_text v) as [t|] eqn:Ht; [by eapply represents_text|].
  assert (∃ a d, p = Some a ∧ h !! a = Some d ∧ type_ d ≠ STRING)
    as (a & d & -> & Ha & Hty).
  { destruct v; try done; inversion Hrep; subst; eexists _, _;
      (split; [done|]); (split; [done|]); congruence. }
  unfold ptr_to_string, deref. rewrite Ha. simpl.
  by rewrite bool_decide_eq_false_2.
Qed.

(** X15: On the tree of a well-formed document in a file without NUL, a
    subscript on the [Json] object never dereferences a null pointer: it returns the handle of the
    child the document has for the key (its first member of that name) or
    the index, and otherwise throws the exception of [root_refusal]; a
    childless root gives "Can't access key on non-object" or "Can't access
    index on non-array", whatever its brackets. *)
Theorem root_access_outcomes erange (v : value) (doc : list ascii)
    (sel : selector) :
  well_formed erange v = true →
  is_container v = true →
  layout (tokens v) doc →
  nul_free doc = true →
  ∃ root h,
    Json_ctor erange doc = Some (Ok (root, h))
    ∧ match value_select v sel with
      | Some v' => ∃ q, Json_select root sel = Ok q ∧ represents h 1 q v'
      | None => Json_select root sel = root_refusal v sel
      end.
Proof.
  intros Hwf Hcont Hlay Hfree.
  destruct (parse_well_formed erange v doc Hwf Hcont Hlay Hfree)
    as (root & h & Hrun & Hroot & Hrep).
  exists root, h. split; [done|].
  destruct (value_select v sel) as [v'|] eqn:Hsel.
  - by eapply root_select.
  - destruct (Json_ctor_store_ok _ _ _ _ Hrun) as [Hok _].
    destruct (store_ok_lookup _ _ _ Hok Hroot) as (_ & _ & Hty & _).
    by eapply root_refused.
Qed.

Lemma root_access_outcomes_witness :
  ∃ root h,
    Json_ctor (λ _, false) (chars "{}") = Some (Ok (root, h))
    ∧ Json_select root (Key "k")
      = throw_runtime "JSON Parser: Can't access key on non-object".
Proof.
  apply (root_access_outcomes (λ _, false) (Obj []) (chars "{}") (Key "k"));
    [reflexivity | reflexivity | | reflexivity].
  apply (layout_cons [] TOpenObj [TCloseObj] ["}"%char]); [constructor|].
  apply (layout_cons [] TCloseObj [] []); [constructor|].
  apply layout_nil. constructor.
Defined.

(** X16: On the tree of a well-formed document in a file without NUL, take
    the handle reached along a path of the document.  A subscript on it
    returns the handle of the child the document has there; where the
    document has none it throws the exception of [handle_refusal], except
    on a childless object with a key, or a childless array with an index
    that is not negative, where the null container is dereferenced.  The conversion to text gives the text of a string or
    literal and throws on an object or array. *)
Theorem handle_access_outcomes erange (v : value) (doc : list ascii)
    (sel : selector) (path : list selector) (v' : value) (sel' : selector) :
  well_formed erange v = true →
  is_container v = true →
  layout (tokens v) doc →
  nul_free doc = true →
  value_at v (sel :: path) = Some v' →
  ∃ root h p,
    Json_ctor erange doc = Some (Ok (root, h))
    ∧ Json_select root sel ≫= (λ q, ptr_follow h q path) = Ok p
    ∧ match value_select v' sel' with
      | Some v'' => ∃ q, ptr_select h p sel' = Ok q ∧ represents h 1 q v''
      | None => ptr_select h p sel' = handle_refusal v' sel'
      end
    ∧ ptr_to_string h p = text_or_refusal v'.
Proof.
  intros Hwf Hcont Hlay Hfree Hat.
  destruct (parse_well_formed erange v doc Hwf Hcont Hlay Hfree)
    as (root & h & Hrun & Hroot & Hrep).
  simpl in Hat.
  destruct (value_select v sel) as [v1|] eqn:Hsel; [|done]. simpl in Hat.
  destruct (root_select _ _ _ _ _ _ _ Hroot Hrep Hsel) as (q & Hq & Hr1).
  destruct (represents_follow _ _ _ _ _ _ Hr1 Hat) as (p & Hp & Hr2).
  exists root, h, p. split; [done|]. split; [by rewrite Hq|].
  split; [|by eapply represents_conversion].
  destruct (value_select v' sel') as [v''|] eqn:Hsel'.
  - by eapply represents_select.
  - by eapply handle_refused.
Qed.

Lemma handle_access_outcomes_witness :
  ∃ root h p,
    Json_ctor (λ _, false) (chars "[[]]") = Some (Ok (root, h))
    ∧ Json_select root (Index 0) ≫= (λ q, ptr_follow h q []) = Ok p
    ∧ ptr_select h p (Index 0) = NullDeref
    ∧ ptr_to_string h p
      = throw_runtime "Can not convert non-string type to string".
Proof.
  apply (handle_access_outcomes (λ _, false) (Arr [Arr []]) (chars "[[]]")
           (Index 0) [] (Arr []) (Index 0));
    [reflexivity | reflexivity | | reflexivity | reflexivity].
  apply (layout_cons [] TOpenArr [TOpenArr; TCloseArr; TCloseArr]
           (chars "[]]")); [constructor|].
  apply (layout_cons [] TOpenArr [TCloseArr; TCloseArr] (chars "]]"));
    [constructor|].
  apply (layout_cons [] TCloseArr [TCloseArr] (chars "]")); [constructor|].
  apply (layout_cons [] TCloseArr [] []); [constructor|].
  apply layout_nil. constructor.
Defined.

(** ** Handles read from a tree *)

Lemma Json_select_points_to root sel q :
  Json_select root sel = Ok q → points_to root q.
Proof.
  destruct sel as [key|index]; simpl; unfold Json_at_key, Json_at_index.
  - destruct (object_data_ root) as [m|] eqn:Hm; [|done].
    destruct (m !! key) as [c|] eqn:Hkey; [|done].
    intros [= <-]. left. eauto.
  - destruct (array_data_ root) as [v|] eqn:Hv; [|done].
    destruct (out_of_bounds index v); [done|]. unfold vector_at.
    destruct (v !! Z.to_nat index) as [c|] eqn:Hi; [|done].
    intros [= <-]. right. eauto.
Qed.

Lemma ptr_select_points_to h a sel q :
  ptr_select h (Some a) sel = Ok q →
  ∃ d, h !! a = Some d ∧ points_to d q.
Proof.
  destruct sel as [key|index]; simpl;
    unfold ptr_at_key, ptr_at_index, deref;
    (destruct (h !! a) as [d|] eqn:Ha; [|done]); simpl;
    (destruct (negb _); [done|]).
  - destruct (object_data_ d) as [m|] eqn:Hm; [|done].
    destruct (m !! key) as [c|] eqn:Hkey; [|done].
    intros [= <-]. exists d. split; [done|]. left. eauto.
  - destruct (index <? 0)%Z; [done|].
    destruct (array_data_ d) as [v|] eqn:Hv; [|done].
    destruct (Z.of_nat (length v) <=? index)%Z; [done|]. unfold vector_at.
    destruct (v !! Z.to_nat index) as [c|] eqn:Hi; [|done].
    intros [= <-]. exists d. split; [done|]. right. eauto.
Qed.

Lemma ptr_follow_reachable h root path :
  store_ok h →
  ∀ a d p,
    h !! a = Some d → reachable_from h root d →
    ptr_follow h (Some a) path = Ok p →
    ∃ b x, p = Some b ∧ h !! b = Some x ∧ reachable_from h root x.
Proof.
  intros Hok. induction path as [|sel path IH]; intros a d p Ha Hreach Hrun.
  - simpl in Hrun. injection Hrun as <-. eauto.
  - simpl in Hrun. apply outcome_bind_ok in Hrun as (q & Hsel & Hrun).
    destruct (ptr_select_points_to _ _ _ _ Hsel) as (d' & Ha' & Hq).
    assert (d' = d) as -> by congruence.
    destruct (store_ok_lookup _ _ _ Hok Ha) as (Hch & _).
    destruct (Hch q Hq) as (b & -> & Hb).
    destruct (lookup_lt_is_Some_2 _ _ Hb) as [x Hx].
    apply (IH b x p); [done| |done].
    eapply rtc_r; [exact Hreach|]. by exists b.
Qed.

(** X17: Whatever the document, a handle obtained from a finished tree by a
    chain of subscripts that all succeeded is never null: it designates a
    block of the store, reachable from the root.  The exceptions about a
    null pointer of the handle operations cannot occur on such a handle. *)
Theorem tree_handles_designate_blocks erange (doc : list ascii) root h
    (sel : selector) (path : list selector) (p : JsonDataPtr) :
  Json_ctor erange doc = Some (Ok (root, h)) →
  Json_select root sel ≫= (λ q, ptr_follow h q path) = Ok p →
  ∃ a d, p = Some a ∧ h !! a = Some d ∧ reachable_from h root d.
Proof.
  intros Hctor Hrun.
  destruct (Json_ctor_store_ok _ _ _ _ Hctor) as [Hok (r & Hroot)].
  apply outcome_bind_ok in Hrun as (q & Hsel & Hrun).
  apply Json_select_points_to in Hsel.
  destruct (store_ok_lookup _ _ _ Hok Hroot) as (Hch & _).
  destruct (Hch q Hsel) as (b & -> & Hb).
  destruct (lookup_lt_is_Some_2 _ _ Hb) as [x Hx].
  apply (ptr_follow_reachable h root path Hok b x p); [done| |done].
  apply rtc_once. by exists b.
Qed.

Lemma tree_handles_designate_blocks_witness :
  ∃ a d,
    Some 2 = Some a
    ∧ [mkJsonData "" ARRAY "" None (Some [Some 1]);
       mkJsonData "" ARRAY "" None (Some [Some 2; Some 3; Some 4]);
       mkJsonData "" STRING "1" None None;
       mkJsonData "" STRING "2" None None;
       mkJsonData "" STRING "3" None None] !! a = Some d
    ∧ reachable_from
        [mkJsonData "" ARRAY "" None (Some [Some 1]);
         mkJsonData "" ARRAY "" None (Some [Some 2; Some 3; Some 4]);
         mkJsonData "" STRING "1" None None;
         mkJsonData "" STRING "2" None None;
         mkJsonData "" STRING "3" None None]
        (mkJsonData "" ARRAY "" None (Some [Some 2; Some 3; Some 4])) d.
Proof.
  apply (tree_handles_designate_blocks (λ _, false) scenario_A _ _
           (Index 0) []).
  - vm_compute. reflexivity.
  - reflexivity.
Defined.
